(** * build_chm.py: the outline parser and the filename assignment

    A shallow embedding of [src/build_chm.py].  A Python [str] is a
    sequence of Unicode code points, so a string is a [list N]; the
    parser's loop over the lines is a fold of [step] over an explicit
    state record in which [cur_cat] and [cur_sub] are references
    (indices) into the category list that is being built.  A second
    embedding of the parser, over a store of objects that outlives a
    call, is used for what two calls in a row do. *)

From Stdlib Require Import NArith List Bool Lia DecimalNat.
From stdpp Require Import base list strings.

(** ** Code points and strings *)

Definition char := N.
Definition str := list char.

Local Open Scope N_scope.

(** Python's [if s:] on a string. *)
Definition truthy (s : str) : bool :=
  match s with [] => false | _ :: _ => true end.

(** [str.isspace] on one code point, which is also what [\s] matches in a
    [str] pattern and what [str.strip()] removes. *)
Definition isspace (c : char) : bool :=
  ((0x09 <=? c) && (c <=? 0x0D)) || ((0x1C <=? c) && (c <=? 0x20))
  || (c =? 0x85) || (c =? 0xA0) || (c =? 0x1680)
  || ((0x2000 <=? c) && (c <=? 0x200A))
  || (c =? 0x2028) || (c =? 0x2029) || (c =? 0x202F) || (c =? 0x205F)
  || (c =? 0x3000).

(** First code points of the runs of ten decimal digits (general category
    Nd, Unicode 15.0, the table of CPython 3.12); the mathematical digits
    at U+1D7CE form one run of fifty. *)
Definition decimal_runs : list char :=
  [ 0x30; 0x660; 0x6F0; 0x7C0; 0x966; 0x9E6; 0xA66; 0xAE6; 0xB66; 0xBE6;
    0xC66; 0xCE6; 0xD66; 0xDE6; 0xE50; 0xED0; 0xF20; 0x1040; 0x1090;
    0x17E0; 0x1810; 0x1946; 0x19D0; 0x1A80; 0x1A90; 0x1B50; 0x1BB0;
    0x1C40; 0x1C50; 0xA620; 0xA8D0; 0xA900; 0xA9D0; 0xA9F0; 0xAA50;
    0xABF0; 0xFF10; 0x104A0; 0x10D30; 0x11066; 0x110F0; 0x11136; 0x111D0;
    0x112F0; 0x11450; 0x114D0; 0x11650; 0x116C0; 0x11730; 0x118E0;
    0x11950; 0x11C50; 0x11D50; 0x11DA0; 0x11F50; 0x16A60; 0x16AC0;
    0x16B50; 0x1E140; 0x1E2F0; 0x1E4F0; 0x1E950; 0x1FBF0 ].

(** [\d] in a [str] pattern: any Unicode decimal digit. *)
Definition isdigit (c : char) : bool :=
  existsb (fun lo => (lo <=? c) && (c <? lo + 10)) decimal_runs
  || ((0x1D7CE <=? c) && (c <=? 0x1D7FF)).

(** Source literals are written as UTF-8 text and decoded to code points. *)
Fixpoint utf8_decode (bs : list N) : str :=
  match bs with
  | [] => []
  | b0 :: r0 =>
    if b0 <? 0x80 then b0 :: utf8_decode r0
    else if b0 <? 0xE0 then
      match r0 with
      | b1 :: r1 => ((b0 mod 32) * 64 + b1 mod 64) :: utf8_decode r1
      | _ => []
      end
    else if b0 <? 0xF0 then
      match r0 with
      | b1 :: b2 :: r2 =>
          ((b0 mod 16) * 4096 + (b1 mod 64) * 64 + b2 mod 64) :: utf8_decode r2
      | _ => []
      end
    else
      match r0 with
      | b1 :: b2 :: b3 :: r3 =>
          ((b0 mod 8) * 262144 + (b1 mod 64) * 4096 + (b2 mod 64) * 64
           + b3 mod 64) :: utf8_decode r3
      | _ => []
      end
  end.

Definition u (s : string) : str :=
  utf8_decode (map Ascii.N_of_ascii (String.list_ascii_of_string s)).

Definition DOT_JP : char := 0x30FB.
Definition DOT_CN : char := 0x00B7.
Definition CATEGORY_SEP : char := 0x3001.
Definition NBSP : char := 0x00A0.
Definition NL : char := 0x0A.
Definition STAR : char := 0x2A.
Definition EQUALS : char := 0x3D.
Definition FULLSTOP : char := 0x2E.
Definition QUESTION : char := 0x3F.
(** The category suffix of line 100, U+7C7B. *)
Definition LEI : char := 0x7C7B.

(** Python's [if m:] on the result of a pattern match. *)
Definition matched {A} (m : option A) : bool :=
  match m with Some _ => true | None => false end.

(** ** [str] methods *)

Fixpoint lstrip (s : str) : str :=
  match s with
  | c :: r => if isspace c then lstrip r else s
  | [] => []
  end.

Definition rstrip (s : str) : str := rev (lstrip (rev s)).

Definition strip (s : str) : str := rstrip (lstrip s).

Fixpoint startswith (s p : str) : bool :=
  match p, s with
  | [], _ => true
  | a :: p', b :: s' => (a =? b) && startswith s' p'
  | _ :: _, [] => false
  end.

Definition endswith (s p : str) : bool := startswith (rev s) (rev p).

(** [s.replace(a, b)] for one-character [a] and [b]. *)
Definition replace (a b : char) (s : str) : str :=
  map (fun c => if c =? a then b else c) s.

(** [a in s] for a one-character [a]. *)
Definition contains (a : char) (s : str) : bool := existsb (N.eqb a) s.

(** The longest prefix of characters satisfying [p], and the rest. *)
Fixpoint span (p : char -> bool) (s : str) : str * str :=
  match s with
  | c :: r => if p c then let '(a, b) := span p r in (c :: a, b) else ([], s)
  | [] => ([], [])
  end.

(** ** The regular expressions

    Each pattern is matched by a function written for that pattern.  [$]
    matches at the end of the string and also just before one final
    newline; [.] matches any character except a newline. *)

(** The text in front of the position where [$] matches. *)
Definition before_dollar (s : str) : str :=
  match rev s with
  | c :: r => if c =? NL then rev r else s
  | [] => s
  end.

(** [(.+)$] from the current position: the group. *)
Definition dot_plus_end (s : str) : option str :=
  let g := before_dollar s in
  if truthy g && forallb (fun c => negb (c =? NL)) g then Some g else None.

(** [BOLD_RE = ^\*\*(.+)\*\*$]: group 1 of the match. *)
Definition BOLD_RE_match (s : str) : option str :=
  match before_dollar s with
  | a :: b :: r =>
      if (a =? STAR) && (b =? STAR) then
        match rev r with
        | c :: d :: inner =>
            let g := rev inner in
            if (c =? STAR) && (d =? STAR) && truthy g
               && forallb (fun x => negb (x =? NL)) g
            then Some g else None
        | _ => None
        end
      else None
  | _ => None
  end.

(** [\s*(.+)$]: the greedy [\s*] gives blanks back one at a time. *)
Fixpoint blanks_dot_plus_end (s : str) : option str :=
  match s with
  | c :: r =>
      if isspace c then
        match blanks_dot_plus_end r with
        | Some g => Some g
        | None => dot_plus_end s
        end
      else dot_plus_end s
  | [] => None
  end.

(** [SUBCATEGORY_RE = ^(\d+)\.\s*(.+)$]: groups 1 and 2.  A full stop is
    no digit, so [(\d+)] is the whole leading run of digits. *)
Definition SUBCATEGORY_RE_match (s : str) : option (str * str) :=
  match span isdigit s with
  | (d :: ds, c :: r) =>
      if c =? FULLSTOP then
        match blanks_dot_plus_end r with
        | Some g => Some (d :: ds, g)
        | None => None
        end
      else None
  | _ => None
  end.

(** [PAGE_BOLD_NUM_RE = ^\d+$]. *)
Definition PAGE_BOLD_NUM_RE_match (s : str) : bool :=
  let g := before_dollar s in truthy g && forallb isdigit g.

(** [re.match(r"^\d+\s+", title)] of line 95.  No digit is a blank, so
    the blank has to follow the whole leading run of digits. *)
Definition numeric_heading_match (s : str) : bool :=
  match span isdigit s with
  | (_ :: _, c :: _) => isspace c
  | _ => false
  end.

(** [SCREENSHOT_RE = ^==Screenshot for page\s*\d+==\s*$]. *)
Definition SCREENSHOT_RE_match (s : str) : bool :=
  let p := u "==Screenshot for page" in
  startswith s p &&
  match span isdigit (lstrip (drop (length p) s)) with
  | (_ :: _, a :: b :: r) => (a =? EQUALS) && (b =? EQUALS) && forallb isspace r
  | _ => false
  end.

(** ** The line normalizer *)

Definition _normalize_group_title (title : str) : str :=
  strip (replace NBSP 0x20 (replace QUESTION DOT_CN (replace DOT_JP DOT_CN title))).

(** [re.sub(r"\s*\d+\s*$", "", s)]: the leftmost match starts at the
    blanks in front of the last run of digits and reaches the end of the
    string; without digits in front of the trailing blanks nothing
    matches. *)
Definition sub_trailing_number (s : str) : str :=
  match span isdigit (lstrip (rev s)) with
  | (_ :: _, r) => rev (lstrip r)
  | ([], _) => s
  end.

Definition _normalize_entry (line : str) : str :=
  let s := strip line in
  if negb (truthy s) then []
  else if startswith s (u "***") then []
  else if startswith s (u "==") && endswith s (u "==") then []
  else strip (sub_trailing_number s).


(** ** The document model *)

Record Group := mkGroup
  { group_title : str; entries : list str; group_file : str }.

Record Subcategory := mkSubcategory
  { sub_title : str; groups : list Group; sub_file : str }.

Record Category := mkCategory
  { cat_title : str; subcategories : list Subcategory; cat_file : str }.

(** ** [parse_markdown]

    The local variables of [parse_markdown] and of its closure
    [flush_group].  [cur_cat] refers to an element of [categories] by its
    index; [cur_sub] refers to a subcategory by the index of its category
    and its index there.  The lists only grow at the end, so an index
    keeps denoting the same object. *)
Record state := mkState
  { categories : list Category;
    cur_cat : option nat;
    cur_sub : option (nat * nat);
    cur_group_title : option str;
    cur_entries : list str }.

Definition init : state := mkState [] None None None [].

(** [if cur_group_title:] on [str | None]. *)
Definition pending (t : option str) : bool :=
  match t with Some s => truthy s | None => false end.

Definition add_group (g : Group) (s : Subcategory) : Subcategory :=
  mkSubcategory (sub_title s) (groups s ++ [g]) (sub_file s).

Definition add_subcategory (s : Subcategory) (c : Category) : Category :=
  mkCategory (cat_title c) (subcategories c ++ [s]) (cat_file c).

Definition on_subcategories (f : list Subcategory -> list Subcategory)
    (c : Category) : Category :=
  mkCategory (cat_title c) (f (subcategories c)) (cat_file c).

(** [sub.groups.append(g)] for the subcategory that [r] refers to. *)
Definition append_group (r : nat * nat) (g : Group) (cats : list Category)
    : list Category :=
  alter (on_subcategories (alter (add_group g) r.2)) r.1 cats.

Definition flush_group (st : state) : state :=
  let cats :=
    match cur_group_title st, cur_sub st with
    | Some title, Some r =>
        if truthy title then
          append_group r
            (mkGroup (_normalize_group_title title) (cur_entries st) [])
            (categories st)
        else categories st
    | _, _ => categories st
    end in
  mkState cats (cur_cat st) (cur_sub st) None [].

(** The implicit category of line 113. *)
Definition UNCLASSIFIED : str := u "未分类".

(** One iteration of the loop of lines 81 to 127. *)
Definition step (st : state) (raw : str) : state :=
  let line := strip raw in
  if negb (truthy line) then st
  else if SCREENSHOT_RE_match line then st
  else
    match BOLD_RE_match line with
    | Some g1 =>
        let title := strip g1 in
        if PAGE_BOLD_NUM_RE_match title then st
        else if numeric_heading_match title
                && negb (matched (SUBCATEGORY_RE_match title))
        then flush_group st
        else if contains CATEGORY_SEP title && endswith title [LEI]
                && negb (matched (SUBCATEGORY_RE_match title))
        then
          let st1 := flush_group st in
          mkState (categories st1 ++ [mkCategory title [] []])
                  (Some (length (categories st1))) None
                  (cur_group_title st1) (cur_entries st1)
        else
          match SUBCATEGORY_RE_match title with
          | Some (n, name) =>
              let st1 := flush_group st in
              let '(cats, ci) :=
                match cur_cat st1 with
                | Some ci => (categories st1, ci)
                | None => (categories st1 ++ [mkCategory UNCLASSIFIED [] []],
                           length (categories st1))
                end in
              let new_sub := mkSubcategory (n ++ u ". " ++ strip name) [] [] in
              (* the place that [append] gives to the new subcategory *)
              let si := from_option (fun c => length (subcategories c)) 0%nat
                                    (cats !! ci) in
              mkState (alter (add_subcategory new_sub) ci cats)
                      (Some ci) (Some (ci, si))
                      (cur_group_title st1) (cur_entries st1)
          | None =>
              let st1 := flush_group st in
              mkState (categories st1) (cur_cat st1) (cur_sub st1)
                      (Some title) (cur_entries st1)
          end
    | None =>
        if pending (cur_group_title st) then
          let normalized := _normalize_entry line in
          if truthy normalized then
            mkState (categories st) (cur_cat st) (cur_sub st)
                    (cur_group_title st) (cur_entries st ++ [normalized])
          else st
        else st
    end.

Definition run (st : state) (lines : list str) : state :=
  fold_left step lines st.

(** The parser on the lines of the text. *)
Definition parse_lines (lines : list str) : list Category :=
  categories (flush_group (run init lines)).

(** [str.splitlines()]: the line boundaries are LF, CR, CR LF, VT, FF, FS,
    GS, RS, NEL, LS and PS; [cur] is the current line, reversed. *)
Definition is_linebreak (c : char) : bool :=
  ((0x0A <=? c) && (c <=? 0x0D)) || ((0x1C <=? c) && (c <=? 0x1E))
  || (c =? 0x85) || (c =? 0x2028) || (c =? 0x2029).

Fixpoint splitlines_from (after_cr : bool) (cur : str) (s : str) : list str :=
  match s with
  | [] => if truthy cur then [rev cur] else []
  | c :: r =>
      if (c =? NL) && after_cr then splitlines_from false cur r
      else if is_linebreak c then rev cur :: splitlines_from (c =? 0x0D) [] r
      else splitlines_from false (c :: cur) r
  end.

Definition splitlines (text : str) : list str := splitlines_from false [] text.

(** [parse_markdown] on the text read from [path]. *)
Definition parse_markdown (text : str) : list Category :=
  parse_lines (splitlines text).

Definition example_lines : list str :=
  [ u "**一、人体类**"; u "**1. 手臂动作**"; u "**挥手**"; u "抬起手臂 3";
    u "==Screenshot for page 5=="; u "放下手臂" ].

Definition example_tree : list Category :=
  [ mkCategory (u "一、人体类")
      [ mkSubcategory (u "1. 手臂动作")
          [ mkGroup (u "挥手") [u "抬起手臂"; u "放下手臂"] [] ] [] ] [] ].


(** A string whose first character, if any, is no blank. *)
Definition headok (s : str) : Prop :=
  match s with c :: _ => isspace c = false | [] => True end.

(** ** The kinds of line

    The cascade of tests of the loop body, as a classification of the raw
    line; [exec] is what the loop body does for each kind.  [step] agrees
    with [exec] after [classify] (lemma [step_classify]). *)

Inductive kind :=
| Blank
| ScreenshotMarker
| PageNumber
| NumericHeading
| CategoryHeading (title : str)
| SubcategoryHeading (n name : str)
| GroupHeading (title : str)
| Text (line : str).

Definition classify (raw : str) : kind :=
  let line := strip raw in
  if negb (truthy line) then Blank
  else if SCREENSHOT_RE_match line then ScreenshotMarker
  else
    match BOLD_RE_match line with
    | Some g1 =>
        let title := strip g1 in
        if PAGE_BOLD_NUM_RE_match title then PageNumber
        else if numeric_heading_match title
                && negb (matched (SUBCATEGORY_RE_match title))
        then NumericHeading
        else if contains CATEGORY_SEP title && endswith title [LEI]
                && negb (matched (SUBCATEGORY_RE_match title))
        then CategoryHeading title
        else
          match SUBCATEGORY_RE_match title with
          | Some (n, name) => SubcategoryHeading n name
          | None => GroupHeading title
          end
    | None => Text line
    end.

Definition new_category (title : str) (st : state) : state :=
  mkState (categories st ++ [mkCategory title [] []])
          (Some (length (categories st))) None
          (cur_group_title st) (cur_entries st).

Definition new_subcategory (n name : str) (st : state) : state :=
  let '(cats, ci) :=
    match cur_cat st with
    | Some ci => (categories st, ci)
    | None => (categories st ++ [mkCategory UNCLASSIFIED [] []],
               length (categories st))
    end in
  let new_sub := mkSubcategory (n ++ u ". " ++ strip name) [] [] in
  let si := from_option (fun c => length (subcategories c)) 0%nat (cats !! ci) in
  mkState (alter (add_subcategory new_sub) ci cats) (Some ci) (Some (ci, si))
          (cur_group_title st) (cur_entries st).

Definition add_entry (line : str) (st : state) : state :=
  if pending (cur_group_title st) then
    let normalized := _normalize_entry line in
    if truthy normalized then
      mkState (categories st) (cur_cat st) (cur_sub st)
              (cur_group_title st) (cur_entries st ++ [normalized])
    else st
  else st.

Definition exec (st : state) (k : kind) : state :=
  match k with
  | Blank | ScreenshotMarker | PageNumber => st
  | NumericHeading => flush_group st
  | CategoryHeading title => new_category title (flush_group st)
  | SubcategoryHeading n name => new_subcategory n name (flush_group st)
  | GroupHeading title =>
      let st1 := flush_group st in
      mkState (categories st1) (cur_cat st1) (cur_sub st1) (Some title)
              (cur_entries st1)
  | Text line => add_entry line st
  end.

Definition is_bold (raw : str) : bool := matched (BOLD_RE_match (strip raw)).

Definition is_category_heading (raw : str) : bool :=
  match classify raw with CategoryHeading _ => true | _ => false end.

Definition is_subcategory_heading (raw : str) : bool :=
  match classify raw with SubcategoryHeading _ _ => true | _ => false end.

Definition is_group_heading (raw : str) : bool :=
  match classify raw with GroupHeading _ => true | _ => false end.

(** The nodes of a tree, level by level. *)
Definition all_subcategories (cats : list Category) : list Subcategory :=
  flat_map subcategories cats.

Definition all_groups (cats : list Category) : list Group :=
  flat_map groups (all_subcategories cats).

Definition all_entries (cats : list Category) : list str :=
  flat_map entries (all_groups cats).

(** The string ends in a blank followed by a run of digits. *)
Definition has_page_suffix (e : str) : bool :=
  match span isdigit (rev e) with
  | (_ :: _, c :: _) => isspace c
  | _ => false
  end.

(** ** The filename assignment of [build_site] (lines 143 to 153) *)

Fixpoint uint_str (d : Decimal.uint) : str :=
  match d with
  | Decimal.Nil => []
  | Decimal.D0 d => 0x30 :: uint_str d
  | Decimal.D1 d => 0x31 :: uint_str d
  | Decimal.D2 d => 0x32 :: uint_str d
  | Decimal.D3 d => 0x33 :: uint_str d
  | Decimal.D4 d => 0x34 :: uint_str d
  | Decimal.D5 d => 0x35 :: uint_str d
  | Decimal.D6 d => 0x36 :: uint_str d
  | Decimal.D7 d => 0x37 :: uint_str d
  | Decimal.D8 d => 0x38 :: uint_str d
  | Decimal.D9 d => 0x39 :: uint_str d
  end.

(** [f"{n:0{width}d}"] for a natural number: the decimal digits, filled
    with zeros on the left up to [width] characters, never cut. *)
Definition format_d (width n : nat) : str :=
  let s := uint_str (Nat.to_uint n) in
  repeat 0x30 (width - length s) ++ s.

Definition cat_filename (cat_idx : nat) : str :=
  u "c" ++ format_d 2 cat_idx ++ u ".html".

Definition sub_filename (cat_idx sub_idx : nat) : str :=
  u "c" ++ format_d 2 cat_idx ++ u "_s" ++ format_d 2 sub_idx ++ u ".html".

Definition group_filename (group_id : nat) : str :=
  u "g" ++ format_d 4 group_id ++ u ".html".

(** The first loop; [cat_idx] and [sub_idx] are the values [enumerate]
    gives to the head of the list. *)
Fixpoint name_subcategories (cat_idx sub_idx : nat) (subs : list Subcategory)
    : list Subcategory :=
  match subs with
  | [] => []
  | s :: r =>
      mkSubcategory (sub_title s) (groups s) (sub_filename cat_idx sub_idx)
      :: name_subcategories cat_idx (S sub_idx) r
  end.

Fixpoint name_categories (cat_idx : nat) (cats : list Category)
    : list Category :=
  match cats with
  | [] => []
  | c :: r =>
      mkCategory (cat_title c)
                 (name_subcategories cat_idx 1 (subcategories c))
                 (cat_filename cat_idx)
      :: name_categories (S cat_idx) r
  end.

(** The second loop, with the counter [group_id] threaded through. *)
Fixpoint number_groups (group_id : nat) (gs : list Group) : list Group * nat :=
  match gs with
  | [] => ([], group_id)
  | g :: r =>
      let group_id := S group_id in
      let '(r', k) := number_groups group_id r in
      (mkGroup (group_title g) (entries g) (group_filename group_id) :: r', k)
  end.

Fixpoint number_subcategories (group_id : nat) (subs : list Subcategory)
    : list Subcategory * nat :=
  match subs with
  | [] => ([], group_id)
  | s :: r =>
      let '(gs, k) := number_groups group_id (groups s) in
      let '(r', k') := number_subcategories k r in
      (mkSubcategory (sub_title s) gs (sub_file s) :: r', k')
  end.

Fixpoint number_categories (group_id : nat) (cats : list Category)
    : list Category * nat :=
  match cats with
  | [] => ([], group_id)
  | c :: r =>
      let '(subs, k) := number_subcategories group_id (subcategories c) in
      let '(r', k') := number_categories k r in
      (mkCategory (cat_title c) subs (cat_file c) :: r', k')
  end.

Definition assign_filenames (cats : list Category) : list Category :=
  (number_categories 0 (name_categories 1 cats)).1.

(** The filenames of all nodes of a tree. *)
Definition all_files (cats : list Category) : list str :=
  map cat_file cats ++ map sub_file (all_subcategories cats)
  ++ map group_file (all_groups cats).

(** The value of a string of ASCII digits. *)
Definition digits_value (s : str) : nat :=
  fold_left (fun a c => (10 * a + N.to_nat (c - 0x30))%nat) s 0%nat.

Definition is_ascii_digit (c : char) : bool := (0x30 <=? c) && (c <=? 0x39).

(** ** Predicates used in the statements and proofs *)

(** The characters that the three replacements leave alone. *)
Definition plain (c : char) : Prop := c <> DOT_JP /\ c <> QUESTION /\ c <> NBSP.

(** No group is pending and none can start. *)
Definition idle (st : state) : Prop :=
  cur_group_title st = None /\ cur_entries st = [].

(** Two states that differ at most in a pending group with no
    subcategory to receive it. *)
Definition orphan_eq (a b : state) : Prop :=
  categories a = categories b /\ cur_cat a = cur_cat b
  /\ cur_sub a = None /\ cur_sub b = None.

(** [P] holds of every group of the tree. *)
Definition tree_Forall (P : Group -> Prop) (cats : list Category) : Prop :=
  Forall (fun c => Forall (fun s => Forall P (groups s)) (subcategories c)) cats.

(** The invariant of the loop for a property [P] of the groups made so
    far and a property [E] of the entries collected so far; the pending
    title is always a trimmed string. *)
Definition inv (P : Group -> Prop) (E : str -> Prop) (st : state) : Prop :=
  tree_Forall P (categories st)
  /\ (forall t, cur_group_title st = Some t -> strip t = t)
  /\ Forall E (cur_entries st).

(** A string whose last character, if any, is no digit. *)
Definition no_digit_end (s : str) : Prop :=
  match rev s with c :: _ => isdigit c = false | [] => True end.

(** [e] is [s] without its final run of blanks [w] and digits [d].  The
    run is the whole of what [\s*\d+\s*$] matches in a trimmed string:
    without digits at the end nothing goes, all the final digits go, and
    with them the blanks in front of them.  So [e] ends in a digit only
    where blanks and digits were taken off behind it. *)
Definition final_run_removed (s e : str) : Prop :=
  exists w d, s = e ++ w ++ d
              /\ forallb isspace w = true /\ forallb isdigit d = true
              /\ (d = [] -> w = [])
              /\ (w = [] -> no_digit_end e)
              /\ (has_page_suffix e = true -> w <> [] /\ d <> []).

(** What [_normalize_entry] leaves of the raw line [raw]: the trimmed
    line without its final run of blanks and digits. *)
Definition entry_of (raw e : str) : Prop :=
  e = _normalize_entry (strip raw) /\ final_run_removed (strip raw) e.

(** Every subcategory of [c] is still in [c'], at its place and under its
    title; [tree_ext] says the same of the categories of a tree. *)
Definition cat_ext (c c' : Category) : Prop :=
  cat_title c = cat_title c' /\
  forall k s, subcategories c !! k = Some s ->
    exists s', subcategories c' !! k = Some s' /\ sub_title s' = sub_title s.

Definition tree_ext (cats cats' : list Category) : Prop :=
  forall i c, cats !! i = Some c ->
    exists c', cats' !! i = Some c' /\ cat_ext c c'.

(** The states before the first category heading: no category yet, or
    only the implicit one, current and with [k] subcategories. *)
Definition implicit_only (k : nat) (st : state) : Prop :=
  (k = 0%nat /\ categories st = [] /\ cur_cat st = None)
  \/ (exists c, categories st = [c] /\ cat_title c = UNCLASSIFIED
                /\ cur_cat st = Some 0%nat /\ length (subcategories c) = k).

Definition subcategory_count (k : kind) : nat :=
  match k with SubcategoryHeading _ _ => 1 | _ => 0 end.

(** The nodes of a tree by the numbers that [build_site] gives them. *)
Inductive node :=
| CatNode (cat_idx : nat)
| SubNode (cat_idx sub_idx : nat)
| GroupNode (group_id : nat).

Definition node_filename (x : node) : str :=
  match x with
  | CatNode i => cat_filename i
  | SubNode i j => sub_filename i j
  | GroupNode k => group_filename k
  end.

Fixpoint sub_nodes (cat_idx : nat) (cats : list Category) : list node :=
  match cats with
  | [] => []
  | c :: r =>
      map (SubNode cat_idx) (seq 1 (length (subcategories c)))
      ++ sub_nodes (S cat_idx) r
  end.

Definition nodes (cats : list Category) : list node :=
  map CatNode (seq 1 (length cats)) ++ sub_nodes 1 cats
  ++ map GroupNode (seq 1 (length (all_groups cats))).

(** The titles of the subcategories that the subcategory headings of the
    input ask for, in the order of the input. *)
Definition heading_subcategory (raw : str) : list str :=
  match classify raw with
  | SubcategoryHeading n name => [n ++ u ". " ++ strip name]
  | _ => []
  end.

Definition subcategory_headings (lines : list str) : list str :=
  flat_map heading_subcategory lines.

Definition sub_titles (cats : list Category) : list str :=
  map sub_title (all_subcategories cats).

(** [cur_cat] refers to the last category of the list. *)
Definition at_last (st : state) : Prop :=
  match cur_cat st with
  | Some ci => S ci = length (categories st)
  | None => categories st = []
  end.

(** The references held in [cur_cat] and [cur_sub] denote nodes of the
    tree, so that no update through them is out of range. *)
Definition valid_refs (st : state) : Prop :=
  (forall ci, cur_cat st = Some ci -> is_Some (categories st !! ci))
  /\ (forall ci si, cur_sub st = Some (ci, si) ->
        exists c, categories st !! ci = Some c
                  /\ is_Some (subcategories c !! si)).

(** ** More of [build_chm.py]: joining lines and writing text *)

(** [sep.join(parts)]. *)
Fixpoint join (sep : str) (parts : list str) : str :=
  match parts with
  | [] => []
  | p :: r =>
      match r with
      | [] => p
      | _ :: _ => p ++ sep ++ join sep r
      end
  end.

(** The text that [path.write_text(content, newline=newline)] of
    [_write_text] hands to the encoder: every line feed of [content]
    becomes [newline]. *)
Definition write_newlines (newline content : str) : str :=
  flat_map (fun c => if c =? NL then newline else [c]) content.

Definition CR : char := 0x0D.

(** A string without any of the line boundaries of [splitlines]. *)
Definition break_free (l : str) : bool :=
  forallb (fun c => negb (is_linebreak c)) l.

(** What [splitlines] returns for lines joined by a line boundary: the
    lines, without the last one when it is empty. *)
Fixpoint drop_last_empty (ls : list str) : list str :=
  match ls with
  | [] => []
  | l :: r =>
      match r with
      | [] => if truthy l then [l] else []
      | _ :: _ => l :: drop_last_empty r
      end
  end.

(** ** What the headings and text lines of an input ask for *)

(** The titles of the categories that the headings of [lines] make, when
    a category is current ([has_cat]) or not at their start. *)
Fixpoint category_titles (has_cat : bool) (lines : list str) : list str :=
  match lines with
  | [] => []
  | l :: r =>
      match classify l with
      | CategoryHeading title => title :: category_titles true r
      | SubcategoryHeading _ _ =>
          (if has_cat then [] else [UNCLASSIFIED]) ++ category_titles true r
      | _ => category_titles has_cat r
      end
  end.

(** The entry that a line of kind [k] can give. *)
Definition kind_entry (k : kind) : list str :=
  match k with
  | Text l => if truthy (_normalize_entry l) then [_normalize_entry l] else []
  | _ => []
  end.

Definition entry_lines (lines : list str) : list str :=
  flat_map (fun raw => kind_entry (classify raw)) lines.

(** The group title that a line of kind [k] can give; an empty title
    starts no group. *)
Definition kind_group (k : kind) : list str :=
  match k with
  | GroupHeading title =>
      if truthy title then [_normalize_group_title title] else []
  | _ => []
  end.

Definition group_headings (lines : list str) : list str :=
  flat_map (fun raw => kind_group (classify raw)) lines.

(** The group that is pending, by its title as the flush would write it. *)
Definition pending_group (st : state) : list str :=
  match cur_group_title st with
  | Some title => if truthy title then [_normalize_group_title title] else []
  | None => []
  end.

(** [cur_sub] refers to the last subcategory of the last category. *)
Definition at_last_sub (st : state) : Prop :=
  match cur_sub st with
  | None => True
  | Some (ci, si) =>
      exists front c fs s,
        categories st = front ++ [c] /\ ci = length front
        /\ subcategories c = fs ++ [s] /\ si = length fs
  end.

(** Whether a subcategory is current ([has_sub]) and a group pending
    ([has_group]) after a line of kind [k]. *)
Definition next_flags (k : kind) (has_sub has_group : bool) : bool * bool :=
  match k with
  | CategoryHeading _ => (false, false)
  | SubcategoryHeading _ _ => (true, false)
  | NumericHeading => (has_sub, false)
  | GroupHeading title => (has_sub, truthy title)
  | _ => (has_sub, has_group)
  end.

(** A group heading under a subcategory, an entry under a group. *)
Definition kind_ok (k : kind) (has_sub has_group : bool) : bool :=
  match k with
  | GroupHeading _ => has_sub
  | Text line => has_group || negb (truthy (_normalize_entry line))
  | _ => true
  end.

(** An outline in which every group heading comes under a subcategory
    and every entry under a group. *)
Fixpoint well_formed (has_sub has_group : bool) (lines : list str) : bool :=
  match lines with
  | [] => true
  | l :: r =>
      kind_ok (classify l) has_sub has_group
      && well_formed (next_flags (classify l) has_sub has_group).1
                     (next_flags (classify l) has_sub has_group).2 r
  end.

(** The state agrees with the flags of [well_formed]. *)
Definition flags (st : state) (has_sub has_group : bool) : Prop :=
  matched (cur_sub st) = has_sub
  /\ pending (cur_group_title st) = has_group
  /\ (has_group = true -> has_sub = true)
  /\ (has_group = false -> cur_entries st = []).

(** ** [html.escape], as [build_site] and [write_hhc] call it *)

Definition AMP : char := 0x26.
Definition LT : char := 0x3C.
Definition GT : char := 0x3E.
Definition QUOTE : char := 0x22.
Definition APOS : char := 0x27.
Definition BACKSLASH : char := 0x5C.

(** [s.replace(old, new)] for a one-character [old]. *)
Definition replace_char (old : char) (new s : str) : str :=
  flat_map (fun c => if c =? old then new else [c]) s.

(** [html.escape(s)], with its default [quote=True]: the ampersand first,
    then the angle brackets and the two quotes. *)
Definition html_escape (s : str) : str :=
  replace_char APOS (u "&#x27;")
    (replace_char QUOTE (u "&quot;")
       (replace_char GT (u "&gt;")
          (replace_char LT (u "&lt;")
             (replace_char AMP (u "&amp;") s)))).

(** What [html_escape] writes for one character. *)
Definition entity (c : char) : str :=
  if c =? AMP then u "&amp;"
  else if c =? LT then u "&lt;"
  else if c =? GT then u "&gt;"
  else if c =? QUOTE then u "&quot;"
  else if c =? APOS then u "&#x27;"
  else [c].

(** A character that cannot end or open markup or an attribute value. *)
Definition markup_free (c : char) : Prop :=
  c <> LT /\ c <> GT /\ c <> QUOTE /\ c <> APOS.

(** ** [write_hhc] *)

(** A piece of a source literal between double quotes. *)
Definition attr (s : str) : str := [QUOTE] ++ s ++ [QUOTE].

(** [s.rstrip(ch)] for one character [ch]. *)
Fixpoint lstrip_char (ch : char) (s : str) : str :=
  match s with
  | c :: r => if c =? ch then lstrip_char ch r else s
  | [] => []
  end.

Definition rstrip_char (ch : char) (s : str) : str :=
  rev (lstrip_char ch (rev s)).

(** The local function [obj] of [write_hhc]; [local] is [str | None]. *)
Definition obj (name : str) (local : option str) : str :=
  let parts :=
    [u "    <param name=" ++ attr (u "Name") ++ u " value="
     ++ attr (html_escape name) ++ u ">"]
    ++ match local with
       | Some l =>
           if truthy l then
             [u "    <param name=" ++ attr (u "Local") ++ u " value="
              ++ attr (html_escape l) ++ u ">"]
           else []
       | None => []
       end in
  u "  <LI> <OBJECT type=" ++ attr (u "text/sitemap") ++ u ">" ++ [NL]
  ++ join [NL] parts ++ [NL] ++ u "  </OBJECT>" ++ [NL].

(** [f"site\\{file}"]. *)
Definition site_local (file : str) : str := u "site" ++ [BACKSLASH] ++ file.

Definition hhc_header : list str :=
  [ u "<!DOCTYPE HTML PUBLIC " ++ attr (u "-//IETF//DTD HTML//EN") ++ u ">";
    u "<HTML>";
    u "<HEAD>";
    u "<meta name=" ++ attr (u "GENERATOR") ++ u " content="
      ++ attr (u "build_chm.py") ++ u ">";
    u "</HEAD><BODY>";
    u "<OBJECT type=" ++ attr (u "text/site properties") ++ u ">";
    u "  <param name=" ++ attr (u "ImageType") ++ u " value="
      ++ attr (u "Folder") ++ u ">";
    u "</OBJECT>";
    u "<UL>" ].

(** The elements appended to [lines] for a group, a subcategory with its
    groups, and a category with its subcategories. *)
Definition hhc_group (g : Group) : list str :=
  [rstrip_char NL (obj (group_title g) (Some (site_local (group_file g))))].

Definition hhc_subcategory (s : Subcategory) : list str :=
  [rstrip_char NL (obj (sub_title s) (Some (site_local (sub_file s))));
   u "    <UL>"]
  ++ flat_map hhc_group (groups s) ++ [u "    </UL>"].

Definition hhc_category (c : Category) : list str :=
  [rstrip_char NL (obj (cat_title c) (Some (site_local (cat_file c))));
   u "  <UL>"]
  ++ flat_map hhc_subcategory (subcategories c) ++ [u "  </UL>"].

Definition hhc_lines (cats : list Category) : list str :=
  hhc_header ++ flat_map hhc_category cats ++ [u "</UL>"; u "</BODY></HTML>"].

(** The text of [contents.hhc] that [write_hhc] hands to the encoder. *)
Definition write_hhc (cats : list Category) : str :=
  write_newlines [CR; NL] (join [NL] (hhc_lines cats)).

(** The nodes of the tree in document order, each with its title and its
    file. *)
Definition outline (cats : list Category) : list (str * str) :=
  flat_map
    (fun c =>
       (cat_title c, cat_file c)
       :: flat_map
            (fun s =>
               (sub_title s, sub_file s)
               :: map (fun g => (group_title g, group_file g)) (groups s))
            (subcategories c))
    cats.

(** The sitemap object of a node: its escaped title as Name and the path
    of its page as Local. *)
Definition object_line (node : str * str) : str :=
  u "  <LI> <OBJECT type=" ++ attr (u "text/sitemap") ++ u ">" ++ [NL]
  ++ u "    <param name=" ++ attr (u "Name") ++ u " value="
  ++ attr (html_escape node.1) ++ u ">" ++ [NL]
  ++ u "    <param name=" ++ attr (u "Local") ++ u " value="
  ++ attr (html_escape (site_local node.2)) ++ u ">" ++ [NL]
  ++ u "  </OBJECT>".

Definition is_object (line : str) : bool := startswith line (u "  <LI>").

(** The lines of the file that make the sitemap object of a node. *)
Definition object_open : str :=
  u "  <LI> <OBJECT type=" ++ attr (u "text/sitemap") ++ u ">".

Definition name_param (name : str) : str :=
  u "    <param name=" ++ attr (u "Name") ++ u " value="
  ++ attr (html_escape name) ++ u ">".

Definition local_param (local : str) : str :=
  u "    <param name=" ++ attr (u "Local") ++ u " value="
  ++ attr (html_escape local) ++ u ">".

Definition object_close : str := u "  </OBJECT>".

Definition object_lines (node : str * str) : list str :=
  [object_open; name_param node.1; local_param (site_local node.2); object_close].

Definition is_param (line : str) : bool := startswith line (u "    <param ").

(** The lines of [contents.hhc] for a tree: the header, then for every
    category its object and the list of its subcategories, each with its
    object and the list of the objects of its groups. *)
Definition toc_group (g : Group) : list str :=
  object_lines (group_title g, group_file g).

Definition toc_subcategory (s : Subcategory) : list str :=
  object_lines (sub_title s, sub_file s)
  ++ [u "    <UL>"] ++ flat_map toc_group (groups s) ++ [u "    </UL>"].

Definition toc_category (c : Category) : list str :=
  object_lines (cat_title c, cat_file c)
  ++ [u "  <UL>"] ++ flat_map toc_subcategory (subcategories c) ++ [u "  </UL>"].

Definition toc_lines (cats : list Category) : list str :=
  hhc_header ++ flat_map toc_category cats ++ [u "</UL>"; u "</BODY></HTML>"].

(** Every line followed by [sep]. *)
Definition terminated (sep : str) (ls : list str) : str :=
  flat_map (fun l => l ++ sep) ls.

(** ** [write_hhp] *)

Definition hhp_lines (files : list str) : list str :=
  [ u "[OPTIONS]";
    u "Compatibility=1.1";
    u "Compiled file=output.chm";
    u "Contents file=contents.hhc";
    u "Default topic=site" ++ [BACKSLASH] ++ u "index.html";
    u "Display compile progress=No";
    u "Full-text search=Yes";
    u "Language=0x804 Chinese (PRC)";
    u "Title=分类细目动词词表";
    [];
    u "[FILES]" ]
  ++ files.

(** The text of [project.hhp] that [write_hhp] hands to the encoder. *)
Definition write_hhp (files : list str) : str :=
  write_newlines [CR; NL] (join [NL] (hhp_lines files)).

(** ** The pages of [build_site] *)

(** The paths, under [site_dir], of the calls of [_write_text] in
    [build_site], in the order of the calls: the stylesheet, the index,
    then every category page, followed by the pages of its subcategories,
    each followed by the pages of its groups. *)
Definition site_paths (cats : list Category) : list str :=
  [u "style.css"; u "index.html"]
  ++ flat_map
       (fun c =>
          cat_file c
          :: flat_map (fun s => sub_file s :: map group_file (groups s))
                      (subcategories c))
       cats.

(** A tree without its filenames. *)
Definition bare_group (g : Group) : Group :=
  mkGroup (group_title g) (entries g) [].

Definition bare_subcategory (s : Subcategory) : Subcategory :=
  mkSubcategory (sub_title s) (map bare_group (groups s)) [].

Definition bare_category (c : Category) : Category :=
  mkCategory (cat_title c) (map bare_subcategory (subcategories c)) [].

(** ** Parsing an outline category by category *)

Definition shift_cat (n : nat) (r : option nat) : option nat :=
  match r with Some i => Some (n + i)%nat | None => None end.

Definition shift_sub (n : nat) (r : option (nat * nat)) : option (nat * nat) :=
  match r with Some (i, j) => Some ((n + i)%nat, j) | None => None end.

(** The state [a] is the state [b] with the categories [front] in front
    of its own. *)
Definition behind (front : list Category) (a b : state) : Prop :=
  categories a = front ++ categories b
  /\ cur_cat a = shift_cat (length front) (cur_cat b)
  /\ cur_sub a = shift_sub (length front) (cur_sub b)
  /\ cur_group_title a = cur_group_title b
  /\ cur_entries a = cur_entries b.


(** ** The parser over a store of objects

    A second embedding of [parse_markdown], for what a run leaves behind
    and finds.  The instances of the three dataclasses and the lists of
    entries are objects of a store that outlives a call; a reference is
    the index of the object in the table of its class, and a new object
    goes to the end of its table.  The lists [subcategories] and [groups]
    are made with their object by [default_factory=list] and are reached
    through it alone, so they are held in the object, as lists of
    references.  A list of entries is an object of its own: [cur_entries]
    and the field [entries] of a group can name the same list. *)

Record group_obj := mkGroupObj
  { o_group_title : str; o_entries : nat; o_group_file : str }.

Record sub_obj := mkSubObj
  { o_sub_title : str; o_groups : list nat; o_sub_file : str }.

Record cat_obj := mkCatObj
  { o_cat_title : str; o_subcategories : list nat; o_cat_file : str }.

Record store := mkStore
  { cat_objs : list cat_obj;
    sub_objs : list sub_obj;
    group_objs : list group_obj;
    str_lists : list (list str) }.

(** The local variables of a call of [parse_markdown]: the list
    [categories] of references, the references [cur_cat] and [cur_sub],
    the pending title and the reference to the list [cur_entries]. *)
Record frame := mkFrame
  { v_categories : list nat;
    v_cur_cat : option nat;
    v_cur_sub : option nat;
    v_cur_group_title : option str;
    v_cur_entries : nat }.

(** [[]] for a list of entries: a new, empty list. *)
Definition new_entries (h : store) : store * nat :=
  (mkStore (cat_objs h) (sub_objs h) (group_objs h) (str_lists h ++ [[]]),
   length (str_lists h)).

(** [Group(title=..., entries=...)]. *)
Definition new_group (title : str) (entries_ref : nat) (h : store) : store * nat :=
  (mkStore (cat_objs h) (sub_objs h)
           (group_objs h ++ [mkGroupObj title entries_ref []]) (str_lists h),
   length (group_objs h)).

(** [Subcategory(title=...)]. *)
Definition new_sub (title : str) (h : store) : store * nat :=
  (mkStore (cat_objs h) (sub_objs h ++ [mkSubObj title [] []])
           (group_objs h) (str_lists h),
   length (sub_objs h)).

(** [Category(title=...)]. *)
Definition new_cat (title : str) (h : store) : store * nat :=
  (mkStore (cat_objs h ++ [mkCatObj title [] []]) (sub_objs h)
           (group_objs h) (str_lists h),
   length (cat_objs h)).

(** [entries.append(e)] for the list at [a]. *)
Definition entries_append (a : nat) (e : str) (h : store) : store :=
  mkStore (cat_objs h) (sub_objs h) (group_objs h)
          (alter (fun l => l ++ [e]) a (str_lists h)).

(** [sub.groups.append(g)] for the subcategory at [b]. *)
Definition groups_append (b g : nat) (h : store) : store :=
  mkStore (cat_objs h)
          (alter (fun s => mkSubObj (o_sub_title s) (o_groups s ++ [g]) (o_sub_file s))
                 b (sub_objs h))
          (group_objs h) (str_lists h).

(** [cat.subcategories.append(sub)] for the category at [c]. *)
Definition subcategories_append (c b : nat) (h : store) : store :=
  mkStore (alter (fun o => mkCatObj (o_cat_title o) (o_subcategories o ++ [b])
                                    (o_cat_file o))
                 c (cat_objs h))
          (sub_objs h) (group_objs h) (str_lists h).

(** The closure [flush_group]: the new group takes the list that
    [cur_entries] names, and [cur_entries] is bound to a new list. *)
Definition store_flush_group (hf : store * frame) : store * frame :=
  let '(h, f) := hf in
  let h1 :=
    match v_cur_group_title f, v_cur_sub f with
    | Some title, Some b =>
        if truthy title then
          let '(h', g) :=
            new_group (_normalize_group_title title) (v_cur_entries f) h in
          groups_append b g h'
        else h
    | _, _ => h
    end in
  let '(h2, e) := new_entries h1 in
  (h2, mkFrame (v_categories f) (v_cur_cat f) (v_cur_sub f) None e).

Definition store_new_category (title : str) (hf : store * frame) : store * frame :=
  let '(h, f) := hf in
  let '(h1, c) := new_cat title h in
  (h1, mkFrame (v_categories f ++ [c]) (Some c) None
               (v_cur_group_title f) (v_cur_entries f)).

Definition store_new_subcategory (n name : str) (hf : store * frame)
    : store * frame :=
  let '(h, f) := hf in
  let '(h1, cats, c) :=
    match v_cur_cat f with
    | Some c => (h, v_categories f, c)
    | None =>
        let '(h', c) := new_cat UNCLASSIFIED h in
        (h', v_categories f ++ [c], c)
    end in
  let '(h2, b) := new_sub (n ++ u ". " ++ strip name) h1 in
  (subcategories_append c b h2,
   mkFrame cats (Some c) (Some b) (v_cur_group_title f) (v_cur_entries f)).

Definition store_add_entry (line : str) (hf : store * frame) : store * frame :=
  let '(h, f) := hf in
  if pending (v_cur_group_title f) then
    let normalized := _normalize_entry line in
    if truthy normalized then (entries_append (v_cur_entries f) normalized h, f)
    else hf
  else hf.

(** The body of the loop for a line of kind [k]. *)
Definition store_exec (hf : store * frame) (k : kind) : store * frame :=
  match k with
  | Blank | ScreenshotMarker | PageNumber => hf
  | NumericHeading => store_flush_group hf
  | CategoryHeading title => store_new_category title (store_flush_group hf)
  | SubcategoryHeading n name =>
      store_new_subcategory n name (store_flush_group hf)
  | GroupHeading title =>
      let '(h, f) := store_flush_group hf in
      (h, mkFrame (v_categories f) (v_cur_cat f) (v_cur_sub f) (Some title)
                  (v_cur_entries f))
  | Text line => store_add_entry line hf
  end.

Definition store_step (hf : store * frame) (raw : str) : store * frame :=
  store_exec hf (classify raw).

Definition store_run (hf : store * frame) (lines : list str) : store * frame :=
  fold_left store_step lines hf.

(** A call of [parse_markdown] in the store [h]: the store that it
    leaves and the list of references that it returns. *)
Definition store_parse_lines (h : store) (lines : list str) : store * list nat :=
  let '(h0, e) := new_entries h in
  let '(h1, f) :=
    store_flush_group (store_run (h0, mkFrame [] None None None e) lines) in
  (h1, v_categories f).

Definition store_parse_markdown (h : store) (text : str) : store * list nat :=
  store_parse_lines h (splitlines text).

(** The tree that a reference denotes in a store, if nothing dangles. *)
Definition read_group (h : store) (a : nat) : option Group :=
  match group_objs h !! a with
  | Some o =>
      match str_lists h !! o_entries o with
      | Some es => Some (mkGroup (o_group_title o) es (o_group_file o))
      | None => None
      end
  | None => None
  end.

Definition read_sub (h : store) (a : nat) : option Subcategory :=
  match sub_objs h !! a with
  | Some o =>
      match mapM (read_group h) (o_groups o) with
      | Some gs => Some (mkSubcategory (o_sub_title o) gs (o_sub_file o))
      | None => None
      end
  | None => None
  end.

Definition read_cat (h : store) (a : nat) : option Category :=
  match cat_objs h !! a with
  | Some o =>
      match mapM (read_sub h) (o_subcategories o) with
      | Some ss => Some (mkCategory (o_cat_title o) ss (o_cat_file o))
      | None => None
      end
  | None => None
  end.

Definition read_tree (h : store) (cats : list nat) : option (list Category) :=
  mapM (read_cat h) cats.

(** *** How a run lays out its objects

    The objects that a run has made for the tree [cats], in the order in
    which it made them: the category objects refer to the subcategory
    objects from [m] on, the subcategory objects to the group objects
    from [g] on, one after the other. *)
Fixpoint sub_layout (g : nat) (subs : list Subcategory) : list sub_obj :=
  match subs with
  | [] => []
  | s :: r =>
      mkSubObj (sub_title s) (seq g (length (groups s))) (sub_file s)
      :: sub_layout (g + length (groups s)) r
  end.

Fixpoint cat_layout (m : nat) (cats : list Category) : list cat_obj :=
  match cats with
  | [] => []
  | c :: r =>
      mkCatObj (cat_title c) (seq m (length (subcategories c))) (cat_file c)
      :: cat_layout (m + length (subcategories c)) r
  end.

Definition group_layout (gs : list Group) (ea : list nat) : list group_obj :=
  zip_with (fun g a => mkGroupObj (group_title g) a (group_file g)) gs ea.

(** The store [h] holds the tree [cats] with its categories from [n] on,
    its subcategories from [m] on and its groups from [g] on. *)
Definition holds (h : store) (n m g : nat) (cats : list Category) : Prop :=
  exists ea,
    (forall i o, cat_layout m cats !! i = Some o ->
                 cat_objs h !! (n + i)%nat = Some o)
    /\ (forall i o, sub_layout g (all_subcategories cats) !! i = Some o ->
                    sub_objs h !! (m + i)%nat = Some o)
    /\ (forall i o, group_layout (all_groups cats) ea !! i = Some o ->
                    group_objs h !! (g + i)%nat = Some o)
    /\ Forall2 (fun gr a => str_lists h !! a = Some (entries gr))
               (all_groups cats) ea.

(** Every object of [h] is in [h'], at its place and unchanged. *)
Definition extends (h h' : store) : Prop :=
  (forall i o, cat_objs h !! i = Some o -> cat_objs h' !! i = Some o)
  /\ (forall i o, sub_objs h !! i = Some o -> sub_objs h' !! i = Some o)
  /\ (forall i o, group_objs h !! i = Some o -> group_objs h' !! i = Some o)
  /\ (forall i l, str_lists h !! i = Some l -> str_lists h' !! i = Some l).

(** The state of a run that started in [h0], against the state [st] of
    the parser on the same lines. *)
Definition rep (h0 : store) (hf : store * frame) (st : state) : Prop :=
  let '(h, f) := hf in
  exists ea rest,
    cat_objs h = cat_objs h0 ++ cat_layout (length (sub_objs h0)) (categories st)
    /\ sub_objs h
       = sub_objs h0
         ++ sub_layout (length (group_objs h0)) (all_subcategories (categories st))
    /\ group_objs h
       = group_objs h0 ++ group_layout (all_groups (categories st)) ea
    /\ Forall2 (fun gr a => (a < v_cur_entries f)%nat
                            /\ str_lists h !! a = Some (entries gr))
               (all_groups (categories st)) ea
    /\ str_lists h = str_lists h0 ++ rest ++ [cur_entries st]
    /\ v_cur_entries f = length (str_lists h0 ++ rest)
    /\ v_categories f = seq (length (cat_objs h0)) (length (categories st))
    /\ v_cur_cat f
       = match cur_cat st with
         | Some i => Some (length (cat_objs h0) + i)%nat
         | None => None
         end
    /\ v_cur_sub f
       = match cur_sub st with
         | Some _ =>
             Some (length (sub_objs h0)
                   + pred (length (all_subcategories (categories st))))%nat
         | None => None
         end
    /\ v_cur_group_title f = cur_group_title st
    /\ at_last st /\ at_last_sub st.
(** * Facts about the source's literals *)

Example normalize_entry_page : _normalize_entry (u "抬起手臂 3") = u "抬起手臂".
Proof. vm_compute. reflexivity. Qed.

Example utf8_sep : u "一、人体类" = [0x4E00; CATEGORY_SEP; 0x4EBA; 0x4F53; LEI].
Proof. vm_compute. reflexivity. Qed.

Example bold_title : BOLD_RE_match (u "**挥手**") = Some (u "挥手").
Proof. vm_compute. reflexivity. Qed.

Example bold_needs_text : BOLD_RE_match (u "****") = None.
Proof. vm_compute. reflexivity. Qed.

Example subcategory_groups :
  SUBCATEGORY_RE_match (u "12.  手臂动作") = Some (u "12", u "手臂动作").
Proof. vm_compute. reflexivity. Qed.

Example subcategory_needs_name : SUBCATEGORY_RE_match (u "12.") = None.
Proof. vm_compute. reflexivity. Qed.

Example page_number : PAGE_BOLD_NUM_RE_match (u "42") = true.
Proof. vm_compute. reflexivity. Qed.

Example numeric_heading : numeric_heading_match (u "10 分类细目") = true.
Proof. vm_compute. reflexivity. Qed.

Example screenshot_marker :
  SCREENSHOT_RE_match (u "==Screenshot for page 5==") = true.
Proof. vm_compute. reflexivity. Qed.

Example marker_line_discarded : _normalize_entry (u "== 图 ==") = [].
Proof. vm_compute. reflexivity. Qed.

Example one_number_removed : _normalize_entry (u "抬起手臂 3 5") = u "抬起手臂 3".
Proof. vm_compute. reflexivity. Qed.

Example group_title_dots : _normalize_group_title (u " 挥?手・ ") = u "挥·手·".
Proof. vm_compute. reflexivity. Qed.

Example splitlines_breaks :
  splitlines (u "a" ++ [0x0D; NL] ++ u "b" ++ [NL; NL] ++ u "c" ++ [NL])
  = [u "a"; u "b"; []; u "c"].
Proof. vm_compute. reflexivity. Qed.

(** * Properties of the string methods *)

Lemma lstrip_split s : exists w, s = w ++ lstrip s /\ forallb isspace w = true.
Proof.
  induction s as [|c r [w [E F]]]; simpl.
  - exists []. auto.
  - destruct (isspace c) eqn:Hc.
    + exists (c :: w). simpl. rewrite Hc, F. split; [congruence | reflexivity].
    + exists []. auto.
Qed.

Lemma lstrip_headok s : headok (lstrip s).
Proof.
  induction s as [|c r IH]; simpl; [exact I|].
  destruct (isspace c) eqn:Hc; [exact IH | exact Hc].
Qed.

Lemma lstrip_id s : headok s -> lstrip s = s.
Proof. destruct s as [|c r]; simpl; [reflexivity|]. intros ->. reflexivity. Qed.

Lemma lstrip_lstrip s : lstrip (lstrip s) = lstrip s.
Proof. apply lstrip_id, lstrip_headok. Qed.

Lemma lstrip_app_nonspace x c y :
  isspace c = false -> lstrip (x ++ c :: y) = lstrip x ++ c :: y.
Proof.
  intros Hc. induction x as [|a x IH]; simpl.
  - rewrite Hc. reflexivity.
  - destruct (isspace a); [exact IH | reflexivity].
Qed.

Lemma rstrip_cons_nonspace c r :
  isspace c = false -> rstrip (c :: r) = c :: rstrip r.
Proof.
  intros Hc. unfold rstrip. simpl rev at 2.
  rewrite (lstrip_app_nonspace _ c [] Hc), rev_app_distr. reflexivity.
Qed.

Lemma rstrip_id s : headok (rev s) -> rstrip s = s.
Proof. intros H. unfold rstrip. rewrite (lstrip_id _ H). apply rev_involutive. Qed.

Lemma rstrip_tailok s : headok (rev (rstrip s)).
Proof. unfold rstrip. rewrite rev_involutive. apply lstrip_headok. Qed.

Lemma rstrip_headok s : headok s -> headok (rstrip s).
Proof.
  destruct s as [|c r]; [intros _; exact I|]. simpl. intros Hc.
  rewrite (rstrip_cons_nonspace _ _ Hc). exact Hc.
Qed.

Lemma strip_headok s : headok (strip s).
Proof. apply rstrip_headok, lstrip_headok. Qed.

Lemma strip_tailok s : headok (rev (strip s)).
Proof. apply rstrip_tailok. Qed.

Lemma strip_id s : headok s -> headok (rev s) -> strip s = s.
Proof. intros H1 H2. unfold strip. rewrite (lstrip_id _ H1). apply rstrip_id, H2. Qed.

Lemma strip_strip s : strip (strip s) = strip s.
Proof. apply strip_id; [apply strip_headok | apply strip_tailok]. Qed.

Lemma strip_cons_nonspace c r : isspace c = false -> exists r', strip (c :: r) = c :: r'.
Proof.
  intros Hc. unfold strip. simpl. rewrite Hc, (rstrip_cons_nonspace _ _ Hc). eauto.
Qed.

Lemma lstrip_Forall (P : char -> Prop) s : Forall P s -> Forall P (lstrip s).
Proof.
  induction 1 as [|c r Hc Hr IH]; simpl; [constructor|].
  destruct (isspace c); [exact IH | constructor; assumption].
Qed.

Lemma strip_Forall (P : char -> Prop) s : Forall P s -> Forall P (strip s).
Proof.
  intros H. unfold strip, rstrip.
  apply Forall_rev, lstrip_Forall, Forall_rev, lstrip_Forall, H.
Qed.

Lemma truthy_nonempty s : truthy s = true <-> s <> [].
Proof. destruct s; simpl; split; congruence. Qed.


(** * Facts about the character classes and the patterns *)

Lemma isspace_cases c :
  isspace c = true ->
  In c [0x09; 0x0A; 0x0B; 0x0C; 0x0D; 0x1C; 0x1D; 0x1E; 0x1F; 0x20; 0x85; 0xA0;
        0x1680; 0x2000; 0x2001; 0x2002; 0x2003; 0x2004; 0x2005; 0x2006;
        0x2007; 0x2008; 0x2009; 0x200A; 0x2028; 0x2029; 0x202F; 0x205F;
        0x3000].
Proof.
  unfold isspace. intros H.
  rewrite ?orb_true_iff, ?andb_true_iff, ?N.leb_le, ?N.eqb_eq in H.
  simpl. lia.
Qed.

(** No decimal digit is a blank. *)
Lemma digit_not_space c : isdigit c = true -> isspace c = false.
Proof.
  intros Hd. destruct (isspace c) eqn:Hs; [|reflexivity].
  apply isspace_cases in Hs. simpl in Hs.
  repeat (destruct Hs as [<-|Hs]; [vm_compute in Hd; discriminate|]).
  destruct Hs.
Qed.

Lemma span_split p s a b :
  span p s = (a, b) ->
  s = a ++ b /\ forallb p a = true /\
  match b with c :: _ => p c = false | [] => True end.
Proof.
  revert a b. induction s as [|c r IH]; simpl; intros a b H.
  - inversion H. auto.
  - destruct (p c) eqn:Hc.
    + destruct (span p r) as [a' b'] eqn:E. inversion H; subst.
      destruct (IH _ _ eq_refl) as (-> & F & G).
      simpl. rewrite Hc, F. auto.
    + inversion H; subst. simpl. auto.
Qed.

Lemma span_all p s : forallb p s = true -> span p s = (s, []).
Proof.
  induction s as [|c r IH]; [reflexivity|]. cbn.
  intros H. apply andb_true_iff in H as [-> H]. rewrite (IH H). reflexivity.
Qed.

Lemma span_stop p a c b :
  forallb p a = true -> p c = false -> span p (a ++ c :: b) = (a, c :: b).
Proof.
  intros Ha Hc. induction a as [|x a IH]; cbn.
  - rewrite Hc. reflexivity.
  - cbn in Ha. apply andb_true_iff in Ha as [-> Ha]. rewrite (IH Ha). reflexivity.
Qed.

Lemma before_dollar_id s : headok (rev s) -> before_dollar s = s.
Proof.
  unfold before_dollar. destruct (rev s) as [|c r] eqn:E; [reflexivity|].
  simpl. intros Hc. destruct (N.eqb_spec c NL) as [->|]; [discriminate|reflexivity].
Qed.

Lemma before_dollar_head s a r :
  before_dollar s = a :: r -> exists r', s = a :: r'.
Proof.
  unfold before_dollar. destruct (rev s) as [|c t] eqn:E.
  - intros ->. eauto.
  - destruct (c =? NL); [|intros ->; eauto].
    intros Hr. apply (f_equal (@rev _)) in E. rewrite rev_involutive in E.
    simpl in E. rewrite Hr in E. simpl in E. eauto.
Qed.

Lemma BOLD_RE_match_head s g : BOLD_RE_match s = Some g -> exists r, s = STAR :: r.
Proof.
  unfold BOLD_RE_match.
  destruct (before_dollar s) as [|a [|b r]] eqn:E; try discriminate.
  destruct (N.eqb_spec a STAR) as [->|]; [|discriminate].
  intros _. eapply before_dollar_head, E.
Qed.

Lemma bold_truthy s g : BOLD_RE_match s = Some g -> truthy s = true.
Proof. intros H. apply BOLD_RE_match_head in H as [r ->]. reflexivity. Qed.

Lemma bold_not_screenshot s g :
  BOLD_RE_match s = Some g -> SCREENSHOT_RE_match s = false.
Proof. intros H. apply BOLD_RE_match_head in H as [r ->]. reflexivity. Qed.

(** A title that starts with digits and a blank is not a page number. *)
Lemma numeric_not_page t :
  numeric_heading_match (strip t) = true ->
  PAGE_BOLD_NUM_RE_match (strip t) = false.
Proof.
  unfold numeric_heading_match, PAGE_BOLD_NUM_RE_match.
  rewrite (before_dollar_id _ (strip_tailok t)).
  destruct (span isdigit (strip t)) as [a b] eqn:E.
  apply span_split in E as (-> & _ & _).
  destruct a as [|d ds]; [discriminate|]. destruct b as [|c b]; [discriminate|].
  intros Hc. apply andb_false_iff. right.
  rewrite forallb_app. simpl.
  destruct (isdigit c) eqn:Hd; [|rewrite andb_false_r; reflexivity].
  rewrite (digit_not_space _ Hd) in Hc. discriminate.
Qed.

Lemma before_dollar_cases s :
  before_dollar s = s \/ s = before_dollar s ++ [NL].
Proof.
  unfold before_dollar. destruct (rev s) as [|c r] eqn:E; [auto|].
  destruct (N.eqb_spec c NL) as [->|]; [right|auto].
  rewrite <- (rev_involutive s), E. reflexivity.
Qed.

Lemma forallb_before_dollar p s :
  forallb p (before_dollar s) = true -> p FULLSTOP = false ->
  forall a b, s <> a ++ FULLSTOP :: b.
Proof.
  intros F Hp a b E.
  assert (Hin : In FULLSTOP s) by (rewrite E; apply in_elt).
  rewrite forallb_forall in F.
  destruct (before_dollar_cases s) as [Hs|Hs].
  - rewrite Hs in F. rewrite (F _ Hin) in Hp. discriminate.
  - rewrite Hs in Hin. apply in_app_or in Hin as [Hin|[Hin|[]]].
    + rewrite (F _ Hin) in Hp. discriminate.
    + discriminate.
Qed.

Lemma before_dollar_snoc x c :
  before_dollar (x ++ [c]) = if c =? NL then x else x ++ [c].
Proof.
  unfold before_dollar. rewrite rev_app_distr. cbn.
  destruct (c =? NL); [apply rev_involutive | reflexivity].
Qed.

(** What [BOLD_RE] matches: two stars, a non-empty text without a
    newline, two stars, and at most one final newline. *)
Lemma BOLD_RE_match_spec s g :
  BOLD_RE_match s = Some g <->
  g <> [] /\ forallb (fun x => negb (x =? NL)) g = true
  /\ (s = STAR :: STAR :: g ++ [STAR; STAR]
      \/ s = STAR :: STAR :: g ++ [STAR; STAR; NL]).
Proof.
  unfold BOLD_RE_match. split.
  - destruct (before_dollar s) as [|a [|b r]] eqn:E; try discriminate.
    destruct (N.eqb_spec a STAR) as [->|]; [|discriminate].
    destruct (N.eqb_spec b STAR) as [->|]; [|discriminate]. cbn [andb].
    destruct (rev r) as [|c [|d inner]] eqn:Er; try discriminate.
    destruct (N.eqb_spec c STAR) as [->|]; [|discriminate].
    destruct (N.eqb_spec d STAR) as [->|]; [|discriminate]. cbn [andb].
    destruct (truthy (rev inner)) eqn:Ht; [|discriminate]. cbn [andb].
    destruct (forallb (fun x => negb (x =? NL)) (rev inner)) eqn:Hf;
      [|discriminate].
    intros [= <-]. split; [apply truthy_nonempty, Ht|]. split; [exact Hf|].
    assert (Hr : r = rev inner ++ [STAR; STAR]).
    { rewrite <- (rev_involutive r), Er. cbn. rewrite <- app_assoc. reflexivity. }
    rewrite Hr in E.
    destruct (before_dollar_cases s) as [Hs|Hs]; rewrite E in Hs.
    + left. symmetry. exact Hs.
    + right. rewrite Hs. cbn. rewrite <- app_assoc. reflexivity.
  - intros (Hne & Hf & Hs).
    assert (E : before_dollar s = STAR :: STAR :: g ++ [STAR; STAR]).
    { destruct Hs as [->| ->].
      - replace (STAR :: STAR :: g ++ [STAR; STAR])
          with ((STAR :: STAR :: g ++ [STAR]) ++ [STAR])
          by (cbn; rewrite <- app_assoc; reflexivity).
        exact (before_dollar_snoc (STAR :: STAR :: g ++ [STAR]) STAR).
      - replace (STAR :: STAR :: g ++ [STAR; STAR; NL])
          with ((STAR :: STAR :: g ++ [STAR; STAR]) ++ [NL])
          by (cbn; rewrite <- app_assoc; reflexivity).
        exact (before_dollar_snoc _ NL). }
    rewrite E. cbn [N.eqb andb]. rewrite !N.eqb_refl. cbn [andb].
    rewrite rev_app_distr. cbn [rev app]. rewrite !N.eqb_refl. cbn [andb].
    rewrite rev_involutive, Hf.
    apply truthy_nonempty in Hne. rewrite Hne. reflexivity.
Qed.

(** A subcategory-shaped title is not a page number. *)
Lemma subcategory_not_page t m :
  SUBCATEGORY_RE_match t = Some m -> PAGE_BOLD_NUM_RE_match t = false.
Proof.
  unfold SUBCATEGORY_RE_match, PAGE_BOLD_NUM_RE_match.
  destruct (span isdigit t) as [a b] eqn:E.
  apply span_split in E as (E & _ & _).
  destruct a as [|d ds]; [discriminate|]. destruct b as [|c b]; [discriminate|].
  destruct (N.eqb_spec c FULLSTOP) as [->|]; [|discriminate].
  intros _. apply andb_false_iff. right.
  destruct (forallb isdigit (before_dollar t)) eqn:F; [|reflexivity].
  exfalso. eapply (forallb_before_dollar _ _ F); [reflexivity | exact E].
Qed.

Lemma classify_page raw g1 :
  BOLD_RE_match (strip raw) = Some g1 ->
  PAGE_BOLD_NUM_RE_match (strip g1) = true ->
  classify raw = PageNumber.
Proof.
  intros Hb Hp. unfold classify.
  rewrite (bold_truthy _ _ Hb), (bold_not_screenshot _ _ Hb), Hb, Hp.
  reflexivity.
Qed.

Lemma classify_numeric raw g1 :
  BOLD_RE_match (strip raw) = Some g1 ->
  numeric_heading_match (strip g1) = true ->
  SUBCATEGORY_RE_match (strip g1) = None ->
  classify raw = NumericHeading.
Proof.
  intros Hb Hn Hs. unfold classify.
  rewrite (bold_truthy _ _ Hb), (bold_not_screenshot _ _ Hb), Hb,
    (numeric_not_page _ Hn), Hn, Hs.
  reflexivity.
Qed.

Lemma classify_subcategory raw g1 n name :
  BOLD_RE_match (strip raw) = Some g1 ->
  SUBCATEGORY_RE_match (strip g1) = Some (n, name) ->
  classify raw = SubcategoryHeading n name.
Proof.
  intros Hb Hs. unfold classify.
  rewrite (bold_truthy _ _ Hb), (bold_not_screenshot _ _ Hb), Hb,
    (subcategory_not_page _ _ Hs), Hs.
  cbn [matched negb]. rewrite !andb_false_r. reflexivity.
Qed.

Lemma classify_not_bold raw :
  is_bold raw = false ->
  classify raw = Blank \/ classify raw = ScreenshotMarker
  \/ classify raw = Text (strip raw).
Proof.
  unfold is_bold, classify. intros Hb.
  destruct (truthy (strip raw)); cbn [negb]; [|auto].
  destruct (SCREENSHOT_RE_match (strip raw)); [auto|].
  destruct (BOLD_RE_match (strip raw)); [discriminate|auto].
Qed.

(** * The loop body and the kinds of line *)

Arguments u : simpl never.
Arguments strip : simpl never.
Arguments SCREENSHOT_RE_match : simpl never.
Arguments BOLD_RE_match : simpl never.
Arguments SUBCATEGORY_RE_match : simpl never.
Arguments PAGE_BOLD_NUM_RE_match : simpl never.
Arguments numeric_heading_match : simpl never.
Arguments _normalize_entry : simpl never.
Arguments _normalize_group_title : simpl never.

Lemma step_classify st raw : step st raw = exec st (classify raw).
Proof.
  unfold step, classify.
  destruct (truthy (strip raw)); cbn [negb]; [|reflexivity].
  destruct (SCREENSHOT_RE_match (strip raw)); [reflexivity|].
  destruct (BOLD_RE_match (strip raw)) as [g1|]; [|reflexivity].
  destruct (PAGE_BOLD_NUM_RE_match (strip g1)); [reflexivity|].
  destruct (SUBCATEGORY_RE_match (strip g1)) as [[n name]|]; cbn [matched negb].
  - rewrite !andb_false_r. reflexivity.
  - rewrite !andb_true_r.
    destruct (numeric_heading_match (strip g1)); [reflexivity|].
    destruct (contains CATEGORY_SEP (strip g1) && endswith (strip g1) [LEI]);
      reflexivity.
Qed.

Lemma run_app st l1 l2 : run st (l1 ++ l2) = run (run st l1) l2.
Proof. apply fold_left_app. Qed.

Lemma run_cons st x l : run st (x :: l) = run (step st x) l.
Proof. reflexivity. Qed.

(** * The worked example *)

(** C1: on the six example lines the parser returns one category
    一、人体类 with one subcategory 1. 手臂动作 with one group 挥手 whose
    entries are 抬起手臂 (the page number 3 removed) and 放下手臂 (the
    screenshot marker skipped). *)
Theorem C1_example_tree : parse_lines example_lines = example_tree.
Proof. vm_compute. reflexivity. Qed.

(** The same through [splitlines], from the text of the file. *)
Example example_text :
  parse_markdown
    (u "**一、人体类**" ++ [NL] ++ u "**1. 手臂动作**" ++ [NL] ++ u "**挥手**"
     ++ [NL] ++ u "抬起手臂 3" ++ [0x0D; NL] ++ u "==Screenshot for page 5=="
     ++ [NL] ++ u "放下手臂" ++ [NL])
  = example_tree.
Proof. vm_compute. reflexivity. Qed.

(** * Group titles *)

Lemma replace_id a b s : Forall (fun c => c <> a) s -> replace a b s = s.
Proof.
  induction 1 as [|c r Hc Hr IH]; simpl; [reflexivity|].
  destruct (N.eqb_spec c a); [contradiction|]. rewrite <- IH at 2. reflexivity.
Qed.

Lemma replaced_plain s :
  Forall plain (replace NBSP 0x20 (replace QUESTION DOT_CN (replace DOT_JP DOT_CN s))).
Proof.
  unfold replace. rewrite !List.Forall_map. apply List.Forall_forall.
  intros c _. unfold plain.
  destruct (N.eqb_spec c DOT_JP) as [->|]; [vm_compute; repeat split; discriminate|].
  destruct (N.eqb_spec c QUESTION) as [->|]; [vm_compute; repeat split; discriminate|].
  destruct (N.eqb_spec c NBSP) as [->|]; [vm_compute; repeat split; discriminate|].
  auto.
Qed.

Lemma normalize_group_title_plain s :
  Forall plain s -> _normalize_group_title s = strip s.
Proof.
  intros H. unfold _normalize_group_title.
  assert (H1 : replace DOT_JP DOT_CN s = s).
  { apply replace_id. eapply Forall_impl; [exact H|]. intros c Hc. apply Hc. }
  assert (H2 : replace QUESTION DOT_CN s = s).
  { apply replace_id. eapply Forall_impl; [exact H|]. intros c Hc. apply Hc. }
  assert (H3 : replace NBSP 0x20 s = s).
  { apply replace_id. eapply Forall_impl; [exact H|]. intros c Hc. apply Hc. }
  rewrite H1, H2, H3. reflexivity.
Qed.

(** C7: [_normalize_group_title] is idempotent. *)
Theorem C7_normalize_group_title_idempotent x :
  _normalize_group_title (_normalize_group_title x) = _normalize_group_title x.
Proof.
  rewrite normalize_group_title_plain.
  - unfold _normalize_group_title. apply strip_strip.
  - unfold _normalize_group_title. apply strip_Forall, replaced_plain.
Qed.

(** A trimmed, non-empty title stays non-empty. *)
Lemma normalize_group_title_nonempty t :
  t <> [] -> strip t = t -> _normalize_group_title t <> [].
Proof.
  intros Hne Ht.
  assert (Hh : headok t) by (rewrite <- Ht; apply strip_headok).
  destruct t as [|c r]; [contradiction|]. simpl in Hh.
  unfold _normalize_group_title, replace. simpl map.
  match goal with |- strip (?a :: ?l) <> [] =>
    assert (Ha : isspace a = false); [|destruct (strip_cons_nonspace a l Ha) as [r' ->]; discriminate]
  end.
  destruct (N.eqb_spec c DOT_JP); [reflexivity|].
  destruct (N.eqb_spec c QUESTION); [reflexivity|].
  destruct (N.eqb_spec c NBSP) as [->|]; [discriminate Hh|].
  exact Hh.
Qed.

(** * Lines without effect *)

Lemma parse_lines_app pre post :
  parse_lines (pre ++ post) = categories (flush_group (run (run init pre) post)).
Proof. unfold parse_lines. rewrite run_app. reflexivity. Qed.

(** C5: a bold line whose title is only digits changes nothing: the
    state after it is the state before it, and the tree parsed from an
    input is the tree parsed from the input without that line. *)
Theorem C5_page_number_line_ignored pre x post g1 :
  BOLD_RE_match (strip x) = Some g1 ->
  PAGE_BOLD_NUM_RE_match (strip g1) = true ->
  (forall st, step st x = st) /\
  parse_lines (pre ++ x :: post) = parse_lines (pre ++ post).
Proof.
  intros Hb Hp.
  assert (Hs : forall st, step st x = st).
  { intros st. rewrite step_classify, (classify_page _ _ Hb Hp). reflexivity. }
  split; [exact Hs|].
  rewrite !parse_lines_app, run_cons, Hs. reflexivity.
Qed.

Lemma C5_witness :
  parse_lines ([u "**一、人体类**"; u "**1. 手臂动作**"; u "**挥手**"; u "抬起手臂"]
               ++ u "**42**" :: [u "放下手臂"])
  = parse_lines ([u "**一、人体类**"; u "**1. 手臂动作**"; u "**挥手**"; u "抬起手臂"]
                 ++ [u "放下手臂"]).
Proof.
  apply (C5_page_number_line_ignored _ (u "**42**") _ (u "42"));
    vm_compute; reflexivity.
Defined.

Lemma new_subcategory_title n name st :
  cur_group_title (new_subcategory n name st) = cur_group_title st.
Proof. unfold new_subcategory. destruct (cur_cat st); reflexivity. Qed.

Lemma new_subcategory_entries n name st :
  cur_entries (new_subcategory n name st) = cur_entries st.
Proof. unfold new_subcategory. destruct (cur_cat st); reflexivity. Qed.

Lemma flush_group_idle st : idle (flush_group st).
Proof. split; reflexivity. Qed.

Lemma idle_exec st k :
  idle st -> (forall t, k <> GroupHeading t) -> idle (exec st k).
Proof.
  intros [Ht He] Hk.
  destruct k as [| | | |title|n name|title|line]; cbn [exec].
  - split; assumption.
  - split; assumption.
  - split; assumption.
  - apply flush_group_idle.
  - split; reflexivity.
  - split; [rewrite new_subcategory_title | rewrite new_subcategory_entries];
      reflexivity.
  - destruct (Hk title eq_refl).
  - unfold add_entry. rewrite Ht. split; assumption.
Qed.

Lemma idle_not_bold st l : idle st -> is_bold l = false -> step st l = st.
Proof.
  intros [Ht He] Hb. rewrite step_classify.
  destruct (classify_not_bold _ Hb) as [->|[->| ->]]; try reflexivity.
  simpl. unfold add_entry. rewrite Ht. reflexivity.
Qed.

Lemma idle_run st mid :
  idle st -> (forall l, In l mid -> is_group_heading l = false) ->
  idle (run st mid) /\ run st mid = run st (List.filter is_bold mid).
Proof.
  revert st. induction mid as [|l mid IH]; intros st Hi Hm; [split; [exact Hi|reflexivity]|].
  assert (Hl : is_group_heading l = false) by (apply Hm; left; reflexivity).
  assert (Hm' : forall l', In l' mid -> is_group_heading l' = false)
    by (intros l' Hl'; apply Hm; right; exact Hl').
  simpl List.filter. destruct (is_bold l) eqn:Hb.
  - rewrite !run_cons. apply IH; [|exact Hm'].
    rewrite step_classify. apply idle_exec; [exact Hi|].
    intros t Ht. unfold is_group_heading in Hl. rewrite Ht in Hl. discriminate.
  - rewrite run_cons, (idle_not_bold _ _ Hi Hb). apply IH; assumption.
Qed.


(** * Orphan groups *)

Lemma flush_group_orphan st :
  cur_sub st = None ->
  flush_group st = mkState (categories st) (cur_cat st) None None [].
Proof.
  unfold flush_group. intros ->. destruct (cur_group_title st); reflexivity.
Qed.

Lemma orphan_eq_flush a b : orphan_eq a b -> flush_group a = flush_group b.
Proof.
  intros (Hc & Hk & Ha & Hb).
  rewrite (flush_group_orphan _ Ha), (flush_group_orphan _ Hb), Hc, Hk.
  reflexivity.
Qed.

Lemma add_entry_orphan l a b : orphan_eq a b -> orphan_eq (add_entry l a) b.
Proof.
  intros H. unfold add_entry.
  destruct (pending (cur_group_title a)); [|exact H].
  destruct (truthy (_normalize_entry l)); exact H.
Qed.

Lemma orphan_eq_sym a b : orphan_eq a b -> orphan_eq b a.
Proof. intros (Hc & Hk & Ha & Hb). repeat split; auto. Qed.

Lemma orphan_eq_exec a b k :
  a = b \/ orphan_eq a b -> exec a k = exec b k \/ orphan_eq (exec a k) (exec b k).
Proof.
  intros [->|H]; [left; reflexivity|].
  destruct k as [| | | |title|n name|title|line]; cbn [exec]; auto;
    try (left; rewrite (orphan_eq_flush _ _ H); reflexivity).
  right. apply add_entry_orphan, orphan_eq_sym, add_entry_orphan, orphan_eq_sym, H.
Qed.

Lemma orphan_eq_run a b lines :
  a = b \/ orphan_eq a b ->
  flush_group (run a lines) = flush_group (run b lines).
Proof.
  revert a b. induction lines as [|l lines IH]; intros a b H.
  - destruct H as [->|H]; [reflexivity | apply orphan_eq_flush, H].
  - rewrite !run_cons. apply IH. rewrite !step_classify.
    apply orphan_eq_exec, H.
Qed.

Lemma orphan_eq_not_bold a b l :
  orphan_eq a b -> is_bold l = false -> orphan_eq (step a l) b.
Proof.
  intros H Hb. rewrite step_classify.
  destruct (classify_not_bold _ Hb) as [->|[->| ->]]; cbn [exec]; auto.
  apply add_entry_orphan, H.
Qed.

Lemma orphan_eq_run_text a b body :
  orphan_eq a b -> (forall l, In l body -> is_bold l = false) ->
  orphan_eq (run a body) b.
Proof.
  revert a. induction body as [|l body IH]; intros a H Hb; [exact H|].
  rewrite run_cons. apply IH.
  - apply orphan_eq_not_bold; [exact H | apply Hb; left; reflexivity].
  - intros l' Hl'. apply Hb. right. exact Hl'.
Qed.

(** C6: when no subcategory is current, the flush appends nothing and
    clears the pending title and entries; a group heading that comes
    while no subcategory is current is lost with the lines under it, the
    parse being the one of the input without them. *)
Theorem C6_orphan_group_dropped st pre g body post :
  cur_sub (run init pre) = None ->
  is_group_heading g = true ->
  (forall l, In l body -> is_bold l = false) ->
  (cur_sub st = None ->
   flush_group st = mkState (categories st) (cur_cat st) None None []) /\
  parse_lines (pre ++ g :: body ++ post) = parse_lines (pre ++ post).
Proof.
  intros Hpre Hg Hbody. split; [apply flush_group_orphan|].
  rewrite !parse_lines_app, run_cons, run_app.
  f_equal. apply orphan_eq_run. right.
  apply orphan_eq_run_text; [|exact Hbody].
  rewrite step_classify. unfold is_group_heading in Hg.
  destruct (classify g); try discriminate. cbn [exec].
  rewrite (flush_group_orphan _ Hpre). repeat split; auto.
Qed.

Lemma C6_witness :
  parse_lines ([u "**一、人体类**"] ++ u "**挥手**" :: [u "抬起手臂"; u "放下手臂"]
               ++ [u "**1. 手臂动作**"; u "**踢**"; u "踢腿"])
  = parse_lines ([u "**一、人体类**"] ++ [u "**1. 手臂动作**"; u "**踢**"; u "踢腿"]).
Proof.
  apply (C6_orphan_group_dropped init).
  - vm_compute. reflexivity.
  - vm_compute. reflexivity.
  - intros l Hl. simpl in Hl. destruct Hl as [<-|[<-|[]]]; vm_compute; reflexivity.
Defined.

(** * Invariants of the loop *)

Lemma tree_Forall_In P cats g :
  tree_Forall P cats -> In g (all_groups cats) -> P g.
Proof.
  unfold tree_Forall, all_groups, all_subcategories. intros H Hg.
  apply in_flat_map in Hg as (s & Hs & Hg).
  apply in_flat_map in Hs as (c & Hc & Hs).
  rewrite List.Forall_forall in H. specialize (H _ Hc).
  rewrite List.Forall_forall in H. specialize (H _ Hs).
  rewrite List.Forall_forall in H. exact (H _ Hg).
Qed.

Lemma tree_Forall_append_group P r g cats :
  tree_Forall P cats -> P g -> tree_Forall P (append_group r g cats).
Proof.
  intros H Hg. unfold append_group. apply Forall_alter; [exact H|].
  intros c _ Hc. cbn. apply Forall_alter; [exact Hc|].
  intros s _ Hs. cbn. apply Forall_app. split; [exact Hs|].
  constructor; [exact Hg | constructor].
Qed.

Lemma tree_Forall_snoc P cats title :
  tree_Forall P cats -> tree_Forall P (cats ++ [mkCategory title [] []]).
Proof.
  intros H. apply Forall_app. split; [exact H|]. repeat constructor.
Qed.

Lemma tree_Forall_add_subcategory P cats ci title :
  tree_Forall P cats ->
  tree_Forall P (alter (add_subcategory (mkSubcategory title [] [])) ci cats).
Proof.
  intros H. apply Forall_alter; [exact H|].
  intros c _ Hc. cbn. apply Forall_app. split; [exact Hc|]. repeat constructor.
Qed.

Section Invariant.

Variable P : Group -> Prop.
Variable E : str -> Prop.

Hypothesis group_ok :
  forall t es, t <> [] -> strip t = t -> Forall E es ->
  P (mkGroup (_normalize_group_title t) es []).

Lemma inv_init : inv P E init.
Proof. repeat split; [constructor | discriminate | constructor]. Qed.

Lemma inv_flush_group st : inv P E st -> inv P E (flush_group st).
Proof.
  intros (Hc & Ht & He). repeat split; [|discriminate|constructor].
  unfold flush_group. cbn.
  destruct (cur_group_title st) as [t|] eqn:Et; [|exact Hc].
  destruct (cur_sub st) as [r|]; [|exact Hc].
  destruct t as [|c t']; [exact Hc|]. cbn.
  apply tree_Forall_append_group; [exact Hc|].
  apply group_ok; [discriminate | apply Ht; reflexivity | exact He].
Qed.

Lemma inv_exec st k :
  (forall t, k = GroupHeading t -> strip t = t) ->
  (forall l, k = Text l -> _normalize_entry l <> [] -> E (_normalize_entry l)) ->
  inv P E st -> inv P E (exec st k).
Proof.
  intros Hg Hl Hi.
  pose proof (inv_flush_group _ Hi) as (Hc & Ht & He).
  destruct k as [| | | |title|n name|title|line]; cbn [exec]; try exact Hi.
  - apply inv_flush_group, Hi.
  - repeat split; [|exact Ht|exact He].
    apply tree_Forall_snoc, Hc.
  - repeat split;
      [|rewrite new_subcategory_title; exact Ht
       |rewrite new_subcategory_entries; exact He].
    unfold new_subcategory.
    destruct (cur_cat (flush_group st)); cbn;
      apply tree_Forall_add_subcategory; [|apply tree_Forall_snoc]; exact Hc.
  - repeat split; [exact Hc | | exact He].
    cbn. intros t [= <-]. apply Hg. reflexivity.
  - destruct Hi as (Hc' & Ht' & He'). unfold add_entry.
    destruct (pending (cur_group_title st)); [|repeat split; assumption].
    destruct (truthy (_normalize_entry line)) eqn:Hn; [|repeat split; assumption].
    repeat split; [exact Hc' | exact Ht' |].
    cbn. apply Forall_app. split; [exact He'|].
    constructor; [|constructor].
    apply Hl; [reflexivity | apply truthy_nonempty, Hn].
Qed.

End Invariant.

Lemma classify_group raw t : classify raw = GroupHeading t -> strip t = t.
Proof.
  unfold classify.
  destruct (truthy (strip raw)); cbn [negb]; [|discriminate].
  destruct (SCREENSHOT_RE_match (strip raw)); [discriminate|].
  destruct (BOLD_RE_match (strip raw)) as [g1|]; [|discriminate].
  destruct (PAGE_BOLD_NUM_RE_match (strip g1)); [discriminate|].
  destruct (_ && _); [discriminate|].
  destruct (_ && _); [discriminate|].
  destruct (SUBCATEGORY_RE_match (strip g1)) as [[n name]|]; [discriminate|].
  intros [= <-]. apply strip_strip.
Qed.

Lemma classify_text raw l : classify raw = Text l -> l = strip raw.
Proof.
  unfold classify.
  destruct (truthy (strip raw)); cbn [negb]; [|discriminate].
  destruct (SCREENSHOT_RE_match (strip raw)); [discriminate|].
  destruct (BOLD_RE_match (strip raw)) as [g1|]; [|congruence].
  destruct (PAGE_BOLD_NUM_RE_match (strip g1)); [discriminate|].
  destruct (_ && _); [discriminate|].
  destruct (_ && _); [discriminate|].
  destruct (SUBCATEGORY_RE_match (strip g1)) as [[n name]|]; discriminate.
Qed.

Lemma inv_run (P : Group -> Prop) (E : str -> Prop) :
  (forall t es, t <> [] -> strip t = t -> Forall E es ->
                P (mkGroup (_normalize_group_title t) es [])) ->
  forall lines st,
  (forall raw, In raw lines -> _normalize_entry (strip raw) <> [] ->
               E (_normalize_entry (strip raw))) ->
  inv P E st -> inv P E (run st lines).
Proof.
  intros Hg. induction lines as [|raw lines IH]; intros st Hl Hi; [exact Hi|].
  rewrite run_cons. apply IH.
  - intros r Hr. apply Hl. right. exact Hr.
  - rewrite step_classify. apply inv_exec; [exact Hg | | | exact Hi].
    + intros t. apply classify_group.
    + intros l Hc. apply classify_text in Hc. subst l. apply Hl. left. reflexivity.
Qed.

Lemma inv_parse_lines (P : Group -> Prop) (E : str -> Prop) lines g :
  (forall t es, t <> [] -> strip t = t -> Forall E es ->
                P (mkGroup (_normalize_group_title t) es [])) ->
  (forall raw, In raw lines -> _normalize_entry (strip raw) <> [] ->
               E (_normalize_entry (strip raw))) ->
  In g (all_groups (parse_lines lines)) -> P g.
Proof.
  intros Hg Hl. apply tree_Forall_In.
  refine (proj1 (inv_flush_group P E Hg _ _)).
  apply inv_run; [exact Hg | exact Hl | apply inv_init].
Qed.

(** * Group titles and entries of the parsed tree *)

(** C10: every group of the parsed tree has a non-empty title.  A bold
    line whose trimmed title is empty leaves the empty string as pending
    title, for which the flush appends nothing; and a trimmed non-empty
    title is never normalized to the empty string. *)
Theorem C10_group_titles_nonempty lines g st raw g1 t :
  (In g (all_groups (parse_lines lines)) -> group_title g <> []) /\
  (BOLD_RE_match (strip raw) = Some g1 -> strip g1 = [] ->
   cur_group_title (step st raw) = Some []
   /\ pending (cur_group_title (step st raw)) = false
   /\ flush_group (step st raw) = flush_group st) /\
  (t <> [] -> strip t = t -> _normalize_group_title t <> []).
Proof.
  split; [|split].
  - apply (inv_parse_lines (fun g => group_title g <> []) (fun _ => True)).
    + intros t' es Hne Ht _. cbn. apply normalize_group_title_nonempty; assumption.
    + auto.
  - intros Hb Hg.
    assert (Hc : classify raw = GroupHeading []).
    { unfold classify.
      rewrite (bold_truthy _ _ Hb), (bold_not_screenshot _ _ Hb), Hb, Hg.
      reflexivity. }
    rewrite step_classify, Hc. cbn. repeat split.
    unfold flush_group. cbn.
    destruct (cur_group_title st), (cur_sub st); reflexivity.
  - apply normalize_group_title_nonempty.
Qed.

Lemma C10_witness :
  group_title (mkGroup (u "挥手") [u "抬起手臂"; u "放下手臂"] []) <> []
  /\ flush_group (step init (u "** **")) = flush_group init
  /\ _normalize_group_title (u "挥手") <> [].
Proof.
  destruct (C10_group_titles_nonempty example_lines
              (mkGroup (u "挥手") [u "抬起手臂"; u "放下手臂"] [])
              init (u "** **") (u " ") (u "挥手")) as (H1 & H2 & H3).
  split; [|split].
  - apply H1. vm_compute. left. reflexivity.
  - apply H2; vm_compute; reflexivity.
  - apply H3; vm_compute; [discriminate | reflexivity].
Defined.

Lemma forallb_rev (p : char -> bool) l : forallb p (rev l) = forallb p l.
Proof.
  induction l as [|c l IH]; [reflexivity|].
  simpl. rewrite forallb_app, IH. simpl. rewrite andb_true_r. apply andb_comm.
Qed.

Lemma headok_prefix a b : headok (a ++ b) -> headok a.
Proof. destruct a; [intros _; exact I | exact (fun H => H)]. Qed.

Lemma sub_trailing_number_shape s :
  headok s -> headok (rev s) ->
  strip (sub_trailing_number s) = sub_trailing_number s /\
  exists w d, s = sub_trailing_number s ++ w ++ d
              /\ forallb isspace w = true /\ forallb isdigit d = true.
Proof.
  intros Hh Ht. unfold sub_trailing_number. rewrite (lstrip_id _ Ht).
  destruct (span isdigit (rev s)) as [a b] eqn:E.
  apply span_split in E as (E & Fa & _).
  destruct a as [|c a].
  - split; [apply strip_id; assumption|].
    exists [], []. rewrite !app_nil_r. auto.
  - destruct (lstrip_split b) as (w & Eb & Fw).
    assert (Es : s = rev (lstrip b) ++ rev w ++ rev (c :: a)).
    { rewrite <- (rev_involutive s), E, Eb at 1.
      rewrite !rev_app_distr, app_assoc. reflexivity. }
    split.
    + apply strip_id.
      * rewrite Es in Hh. eapply headok_prefix, Hh.
      * rewrite rev_involutive. apply lstrip_headok.
    + exists (rev w), (rev (c :: a)). rewrite !forallb_rev. auto.
Qed.

Lemma normalize_entry_trimmed l : strip (_normalize_entry l) = _normalize_entry l.
Proof.
  unfold _normalize_entry.
  destruct (negb (truthy (strip l))); [reflexivity|].
  destruct (startswith (strip l) (u "***")); [reflexivity|].
  destruct (startswith (strip l) (u "==") && endswith (strip l) (u "=="));
    [reflexivity|].
  apply strip_strip.
Qed.

Lemma normalize_entry_shape l :
  _normalize_entry l <> [] ->
  exists w d, strip l = _normalize_entry l ++ w ++ d
              /\ forallb isspace w = true /\ forallb isdigit d = true.
Proof.
  unfold _normalize_entry.
  destruct (negb (truthy (strip l))); [congruence|].
  destruct (startswith (strip l) (u "***")); [congruence|].
  destruct (startswith (strip l) (u "==") && endswith (strip l) (u "=="));
    [congruence|].
  intros _.
  destruct (sub_trailing_number_shape (strip l)) as (-> & w & d & H);
    [apply strip_headok | apply strip_tailok |].
  exists w, d. exact H.
Qed.

Lemma page_suffix_digit_end e : has_page_suffix e = true -> ~ no_digit_end e.
Proof.
  unfold has_page_suffix, no_digit_end.
  destruct (rev e) as [|c r]; [discriminate|].
  simpl. destruct (isdigit c); [intros _ H; discriminate H|].
  discriminate.
Qed.

(** The run that the substitution takes off is the whole final run:
    all the digits at the end, and the blanks in front of them. *)
Lemma sub_trailing_number_tight s :
  headok s -> headok (rev s) ->
  exists w d, s = sub_trailing_number s ++ w ++ d
              /\ forallb isspace w = true /\ forallb isdigit d = true
              /\ (d = [] -> w = [])
              /\ (w = [] -> no_digit_end (sub_trailing_number s)).
Proof.
  intros Hh Ht. unfold sub_trailing_number. rewrite (lstrip_id _ Ht).
  destruct (span isdigit (rev s)) as [a b] eqn:E.
  apply span_split in E as (E & Fa & Hb).
  destruct a as [|c a].
  - exists [], []. rewrite !app_nil_r.
    split; [reflexivity|]. split; [reflexivity|]. split; [reflexivity|].
    split; [reflexivity|]. intros _. unfold no_digit_end.
    rewrite E. exact Hb.
  - destruct (lstrip_split b) as (w & Eb & Fw).
    assert (Es : s = rev (lstrip b) ++ rev w ++ rev (c :: a)).
    { rewrite <- (rev_involutive s), E, Eb at 1.
      rewrite !rev_app_distr, app_assoc. reflexivity. }
    exists (rev w), (rev (c :: a)). rewrite !forallb_rev.
    split; [exact Es|]. split; [exact Fw|]. split; [exact Fa|]. split.
    + intros H. apply (f_equal (@length char)) in H.
      rewrite length_rev in H. discriminate H.
    + intros H. unfold no_digit_end. rewrite rev_involutive.
      destruct w as [|x w].
      * simpl in Eb. rewrite <- Eb. exact Hb.
      * apply (f_equal (@length char)) in H.
        rewrite length_rev in H. discriminate H.
Qed.

Lemma normalize_entry_tight l :
  _normalize_entry l <> [] ->
  exists w d, strip l = _normalize_entry l ++ w ++ d
              /\ forallb isspace w = true /\ forallb isdigit d = true
              /\ (d = [] -> w = [])
              /\ (w = [] -> no_digit_end (_normalize_entry l)).
Proof.
  unfold _normalize_entry.
  destruct (negb (truthy (strip l))); [congruence|].
  destruct (startswith (strip l) (u "***")); [congruence|].
  destruct (startswith (strip l) (u "==") && endswith (strip l) (u "=="));
    [congruence|].
  intros _.
  destruct (sub_trailing_number_shape (strip l)) as (-> & _);
    [apply strip_headok | apply strip_tailok |].
  apply sub_trailing_number_tight; [apply strip_headok | apply strip_tailok].
Qed.

Lemma lstrip_blanks a b :
  forallb isspace a = true -> headok b -> lstrip (a ++ b) = b.
Proof.
  intros Ha Hb. induction a as [|c a IH]; [apply lstrip_id, Hb|].
  cbn in Ha. apply andb_true_iff in Ha as [Hc Ha].
  cbn. rewrite Hc. apply IH, Ha.
Qed.

Lemma span_app p (a b : str) :
  forallb p a = true ->
  match b with c :: _ => p c = false | [] => True end ->
  span p (a ++ b) = (a, b).
Proof.
  intros Ha Hb. destruct b as [|c b].
  - rewrite app_nil_r. apply span_all, Ha.
  - apply span_stop; assumption.
Qed.

(** A trimmed [e] that is [s] without its final run is the one string
    that the run leaves: the description has one solution. *)
Lemma final_run_removed_canonical s e :
  strip e = e -> final_run_removed s e ->
  e = rev (lstrip (span isdigit (rev s)).2).
Proof.
  intros He (w & d & -> & Fw & Fd & Hd & Hw & _).
  assert (Ht : headok (rev e)) by (rewrite <- He; apply strip_tailok).
  rewrite !rev_app_distr, <- app_assoc.
  rewrite (span_app isdigit (rev d) (rev w ++ rev e)).
  - cbn [snd]. rewrite lstrip_blanks, rev_involutive;
      [reflexivity | rewrite forallb_rev; exact Fw | exact Ht].
  - rewrite forallb_rev. exact Fd.
  - destruct w as [|c w] using rev_ind.
    + cbn [rev app]. apply Hw. reflexivity.
    + rewrite rev_app_distr. cbn [rev app].
      rewrite forallb_app in Fw. apply andb_true_iff in Fw as [_ Fc].
      cbn in Fc. rewrite andb_true_r in Fc.
      destruct (isdigit c) eqn:Hc; [|reflexivity].
      rewrite (digit_not_space _ Hc) in Fc. discriminate Fc.
Qed.

Lemma final_run_removed_unique s e1 e2 :
  strip e1 = e1 -> strip e2 = e2 ->
  final_run_removed s e1 -> final_run_removed s e2 -> e1 = e2.
Proof.
  intros H1 H2 R1 R2.
  rewrite (final_run_removed_canonical s e1 H1 R1).
  apply eq_sym, final_run_removed_canonical; assumption.
Qed.

(** C2, as the code has it: every entry of the parsed tree is non-empty,
    has no blank at either end, and is what [_normalize_entry] makes of
    a line of the input: the trimmed line [e ++ w ++ d] without its
    final run of blanks [w] and digits [d], taken off once.  The run is
    maximal: if the trimmed line ends in no digit nothing is taken off,
    and where no blank is taken off the entry ends in no digit.  Digits
    in front of the run stay, so an entry ends in a blank and digits
    only where blanks and digits were taken off behind them.  By
    [final_run_removed_unique] this says what the entry is: no other
    trimmed string is the line without its final run. *)
Theorem C2_entries_trimmed lines e :
  In e (all_entries (parse_lines lines)) ->
  e <> [] /\ strip e = e /\ exists raw, In raw lines /\ entry_of raw e.
Proof.
  unfold all_entries. intros He.
  apply in_flat_map in He as (g & Hg & He).
  revert e He. apply List.Forall_forall.
  revert Hg.
  apply (inv_parse_lines
           (fun g => List.Forall
              (fun e => e <> [] /\ strip e = e
                        /\ exists raw, In raw lines /\ entry_of raw e)
              (entries g))
           (fun e => e <> [] /\ strip e = e
                     /\ exists raw, In raw lines /\ entry_of raw e)
           lines g).
  - intros t es _ _ H. cbn. exact H.
  - intros raw Hr Hne. split; [exact Hne|]. split; [apply normalize_entry_trimmed|].
    exists raw. split; [exact Hr|]. split; [reflexivity|].
    destruct (normalize_entry_tight (strip raw) Hne)
      as (w & d & H & Fw & Fd & Hd & Hw).
    rewrite strip_strip in H. exists w, d.
    split; [exact H|]. split; [exact Fw|]. split; [exact Fd|].
    split; [exact Hd|]. split; [exact Hw|].
    intros Hs. apply page_suffix_digit_end in Hs.
    assert (Hw' : w <> []) by (intros E; apply Hs, Hw, E).
    split; [exact Hw'|]. intros E. apply Hw', Hd, E.
Qed.

Lemma C2_witness :
  u "抬起手臂" <> [] /\ strip (u "抬起手臂") = u "抬起手臂"
  /\ exists raw, In raw example_lines /\ entry_of raw (u "抬起手臂").
Proof.
  apply (C2_entries_trimmed example_lines (u "抬起手臂")).
  vm_compute. left. reflexivity.
Defined.

(** C2 as stated fails: the line 抬起手臂 3 5 gives the entry 抬起手臂 3,
    which ends in a blank and a digit. *)
Lemma C2_counterexample :
  ~ (forall e,
       In e (all_entries
               (parse_lines [u "**一、人体类**"; u "**1. 手臂动作**"; u "**挥手**";
                             u "抬起手臂 3 5"])) ->
       e <> [] /\ strip e = e /\ has_page_suffix e = false).
Proof.
  intros H. destruct (H (u "抬起手臂 3")) as (_ & _ & Hs).
  - vm_compute. left. reflexivity.
  - vm_compute in Hs. discriminate.
Qed.

(** * Nothing is removed from the tree *)

Lemma cat_ext_refl c : cat_ext c c.
Proof. split; [reflexivity|]. intros k s H. eauto. Qed.

Lemma cat_ext_trans a b c : cat_ext a b -> cat_ext b c -> cat_ext a c.
Proof.
  intros [T1 S1] [T2 S2]. split; [congruence|].
  intros k s H. destruct (S1 _ _ H) as (s1 & H1 & E1).
  destruct (S2 _ _ H1) as (s2 & H2 & E2). exists s2. split; [exact H2 | congruence].
Qed.

Lemma tree_ext_refl cats : tree_ext cats cats.
Proof. intros i c H. exists c. split; [exact H | apply cat_ext_refl]. Qed.

Lemma tree_ext_trans a b c : tree_ext a b -> tree_ext b c -> tree_ext a c.
Proof.
  intros H1 H2 i x H. destruct (H1 _ _ H) as (y & Hy & E1).
  destruct (H2 _ _ Hy) as (z & Hz & E2).
  exists z. split; [exact Hz | eapply cat_ext_trans; eassumption].
Qed.

Lemma tree_ext_alter f i cats :
  (forall c, cat_ext c (f c)) -> tree_ext cats (alter f i cats).
Proof.
  intros Hf j c H. destruct (decide (i = j)) as [->|Hne].
  - exists (f c). rewrite list_lookup_alter_eq, H. split; [reflexivity | apply Hf].
  - exists c. rewrite list_lookup_alter_ne by exact Hne.
    split; [exact H | apply cat_ext_refl].
Qed.

Lemma tree_ext_snoc cats c : tree_ext cats (cats ++ [c]).
Proof.
  intros i x H. exists x. split; [apply lookup_app_l_Some, H | apply cat_ext_refl].
Qed.

Lemma cat_ext_add_group g si c :
  cat_ext c (on_subcategories (alter (add_group g) si) c).
Proof.
  split; [reflexivity|]. cbn. intros k s H.
  destruct (decide (si = k)) as [->|Hne].
  - exists (add_group g s). rewrite list_lookup_alter_eq, H. split; reflexivity.
  - exists s. rewrite list_lookup_alter_ne by exact Hne. split; [exact H | reflexivity].
Qed.

Lemma cat_ext_add_subcategory s c : cat_ext c (add_subcategory s c).
Proof.
  split; [reflexivity|]. cbn. intros k x H.
  exists x. split; [apply lookup_app_l_Some, H | reflexivity].
Qed.

Lemma flush_group_ext st : tree_ext (categories st) (categories (flush_group st)).
Proof.
  unfold flush_group. cbn.
  destruct (cur_group_title st) as [t|]; [|apply tree_ext_refl].
  destruct (cur_sub st) as [r|]; [|apply tree_ext_refl].
  destruct (truthy t); [|apply tree_ext_refl].
  apply tree_ext_alter. intros c. apply cat_ext_add_group.
Qed.

Lemma new_subcategory_ext n name st :
  tree_ext (categories st) (categories (new_subcategory n name st)).
Proof.
  unfold new_subcategory. destruct (cur_cat st) as [ci|]; cbn.
  - apply tree_ext_alter. intros c. apply cat_ext_add_subcategory.
  - eapply tree_ext_trans; [apply tree_ext_snoc|].
    apply tree_ext_alter. intros c. apply cat_ext_add_subcategory.
Qed.

Lemma add_entry_categories l st : categories (add_entry l st) = categories st.
Proof.
  unfold add_entry. destruct (pending (cur_group_title st)); [|reflexivity].
  destruct (truthy (_normalize_entry l)); reflexivity.
Qed.

Lemma exec_ext st k : tree_ext (categories st) (categories (exec st k)).
Proof.
  destruct k as [| | | |title|n name|title|line]; cbn [exec];
    try apply tree_ext_refl; try apply flush_group_ext.
  - eapply tree_ext_trans; [apply flush_group_ext | apply tree_ext_snoc].
  - eapply tree_ext_trans; [apply flush_group_ext | apply new_subcategory_ext].
  - rewrite add_entry_categories. apply tree_ext_refl.
Qed.

Lemma run_ext lines st : tree_ext (categories st) (categories (run st lines)).
Proof.
  revert st. induction lines as [|l lines IH]; intros st; [apply tree_ext_refl|].
  rewrite run_cons. eapply tree_ext_trans; [|apply IH].
  rewrite step_classify. apply exec_ext.
Qed.

(** * The references stay valid *)

Lemma tree_ext_lookup cats cats' i :
  tree_ext cats cats' -> is_Some (cats !! i) -> is_Some (cats' !! i).
Proof. intros H [c Hc]. destruct (H _ _ Hc) as (c' & Hc' & _). eauto. Qed.

Lemma tree_ext_lookup_sub cats cats' ci si :
  tree_ext cats cats' ->
  (exists c, cats !! ci = Some c /\ is_Some (subcategories c !! si)) ->
  exists c, cats' !! ci = Some c /\ is_Some (subcategories c !! si).
Proof.
  intros H (c & Hc & [s Hs]). destruct (H _ _ Hc) as (c' & Hc' & _ & Hsub).
  destruct (Hsub _ _ Hs) as (s' & Hs' & _). eauto.
Qed.

Lemma valid_refs_ext st st' :
  tree_ext (categories st) (categories st') ->
  cur_cat st' = cur_cat st -> cur_sub st' = cur_sub st ->
  valid_refs st -> valid_refs st'.
Proof.
  intros He Hc Hs [V1 V2]. split.
  - intros ci H. rewrite Hc in H. eapply tree_ext_lookup; eauto.
  - intros ci si H. rewrite Hs in H. eapply tree_ext_lookup_sub; eauto.
Qed.

Lemma valid_refs_new_subcategory n name st :
  valid_refs st -> valid_refs (new_subcategory n name st).
Proof.
  intros [V1 V2]. unfold new_subcategory.
  destruct (cur_cat st) as [ci|] eqn:Ec.
  - destruct (V1 ci eq_refl) as [c Hc]. rewrite Hc.
    unfold valid_refs. cbn [categories cur_cat cur_sub from_option].
    assert (Hl : alter (add_subcategory
                          (mkSubcategory (n ++ u ". " ++ strip name) [] []))
                       ci (categories st) !! ci
                 = Some (add_subcategory
                           (mkSubcategory (n ++ u ". " ++ strip name) [] []) c))
      by (rewrite list_lookup_alter_eq, Hc; reflexivity).
    split.
    + intros ci' [= <-]. rewrite Hl. eauto.
    + intros ci' si' [= <- <-]. eexists. split; [exact Hl|].
      cbn. rewrite list_lookup_middle by reflexivity. eauto.
  - generalize (categories st) as cs. intros cs.
    rewrite list_lookup_middle by reflexivity.
    unfold valid_refs. cbn [categories cur_cat cur_sub from_option].
    assert (Ha : forall f (c : Category),
               alter f (length cs) (cs ++ [c]) = cs ++ [f c]).
    { intros f c. rewrite <- (Nat.add_0_r (length cs)), alter_app_r.
      reflexivity. }
    rewrite Ha. cbn. split.
    + intros ci' [= <-]. rewrite list_lookup_middle by reflexivity. eauto.
    + intros ci' si' [= <- <-]. eexists.
      split; [apply list_lookup_middle; reflexivity|]. cbn. eauto.
Qed.

Lemma valid_refs_exec st k : valid_refs st -> valid_refs (exec st k).
Proof.
  intros V.
  assert (Vf : valid_refs (flush_group st))
    by (eapply valid_refs_ext; [apply flush_group_ext | reflexivity.. | exact V]).
  destruct k as [| | | |title|n name|title|line]; cbn [exec]; auto.
  - split.
    + intros ci [= <-]. cbn [new_category categories].
      rewrite list_lookup_middle by reflexivity. eauto.
    + intros ci si [=].
  - apply valid_refs_new_subcategory, Vf.
  - unfold add_entry. destruct (pending (cur_group_title st)); [|exact V].
    destruct (truthy (_normalize_entry line)); exact V.
Qed.

(** In every state that the parser reaches, [cur_cat] and [cur_sub]
    denote nodes of the tree. *)
Lemma run_valid_refs lines : valid_refs (run init lines).
Proof.
  assert (H : forall st, valid_refs st -> valid_refs (run st lines)).
  { induction lines as [|l lines IH]; intros st V; [exact V|].
    rewrite run_cons, step_classify. apply IH, valid_refs_exec, V. }
  apply H. split; [intros ci [=] | intros ci si [=]].
Qed.

(** * The implicit category *)

Lemma implicit_flush_group k st : implicit_only k st -> implicit_only k (flush_group st).
Proof.
  intros [(-> & Hc & Hk)|(c & Hc & Ht & Hk & Hl)].
  - left. repeat split; [|exact Hk]. unfold flush_group. cbn. rewrite Hc.
    destruct (cur_group_title st) as [t|]; [|reflexivity].
    destruct (cur_sub st); [|reflexivity].
    destruct (truthy t); reflexivity.
  - right. unfold flush_group. cbn. rewrite Hc.
    destruct (cur_group_title st) as [t|]; [|exists c; auto].
    destruct (cur_sub st) as [[ci si]|]; [|exists c; auto].
    destruct (truthy t); [|exists c; auto].
    unfold append_group. cbn. destruct ci as [|ci]; cbn; [|exists c; auto].
    eexists. split; [reflexivity|]. cbn. rewrite length_alter. auto.
Qed.

Lemma implicit_new_subcategory k n name st :
  implicit_only k st ->
  exists c, categories (new_subcategory n name st) = [c]
            /\ cat_title c = UNCLASSIFIED
            /\ cur_cat (new_subcategory n name st) = Some 0%nat
            /\ subcategories c !! k
               = Some (mkSubcategory (n ++ u ". " ++ strip name) [] [])
            /\ length (subcategories c) = S k.
Proof.
  unfold new_subcategory.
  intros [(-> & Hc & Hk)|(c & Hc & Ht & Hk & Hl)]; rewrite Hk, Hc; cbn.
  - eexists. repeat split.
  - eexists. repeat split; cbn; [exact Ht | |rewrite length_app; cbn; lia].
    rewrite <- Hl. apply list_lookup_middle. reflexivity.
Qed.

Lemma new_subcategory_first n name st :
  cur_cat st = None ->
  categories (new_subcategory n name st)
  = categories st
    ++ [mkCategory UNCLASSIFIED
          [mkSubcategory (n ++ u ". " ++ strip name) [] []] []].
Proof.
  unfold new_subcategory. intros ->. generalize (categories st) as cs. intros cs.
  rewrite list_lookup_middle by reflexivity. cbn.
  rewrite <- (Nat.add_0_r (length cs)), alter_app_r. reflexivity.
Qed.

Lemma implicit_exec k st kd :
  implicit_only k st -> (forall t, kd <> CategoryHeading t) ->
  implicit_only (k + subcategory_count kd) (exec st kd).
Proof.
  intros H Hk.
  destruct kd as [| | | |title|n name|title|line]; cbn [exec subcategory_count];
    rewrite ?Nat.add_0_r; try exact H.
  - apply implicit_flush_group, H.
  - destruct (Hk title eq_refl).
  - apply implicit_flush_group in H.
    destruct (implicit_new_subcategory k n name _ H) as (c & Hc & Ht & Hcc & _ & Hl).
    right. exists c. repeat split; try assumption. lia.
  - apply implicit_flush_group in H.
    destruct H as [(-> & Hc & Hcc)|(c & Hc & Ht & Hcc & Hl)];
      [left; auto | right; exists c; auto].
  - unfold add_entry. destruct (pending (cur_group_title st)); [|exact H].
    destruct (truthy (_normalize_entry line)); [|exact H].
    destruct H as [(-> & Hc & Hcc)|(c & Hc & Ht & Hcc & Hl)];
      [left; auto | right; exists c; auto].
Qed.

Lemma filter_subcategory_count l pre :
  length (List.filter is_subcategory_heading (l :: pre))
  = (subcategory_count (classify l)
     + length (List.filter is_subcategory_heading pre))%nat.
Proof.
  simpl. unfold is_subcategory_heading at 1.
  destruct (classify l); reflexivity.
Qed.

Lemma implicit_run pre k st :
  implicit_only k st ->
  (forall l, In l pre -> is_category_heading l = false) ->
  implicit_only (k + length (List.filter is_subcategory_heading pre)) (run st pre).
Proof.
  revert k st. induction pre as [|l pre IH]; intros k st H Hp.
  - simpl. rewrite Nat.add_0_r. exact H.
  - rewrite run_cons, filter_subcategory_count, Nat.add_assoc.
    apply IH; [|intros l' Hl'; apply Hp; right; exact Hl'].
    rewrite step_classify. apply implicit_exec; [exact H|].
    intros t Ht. specialize (Hp l (or_introl eq_refl)).
    unfold is_category_heading in Hp. rewrite Ht in Hp. discriminate.
Qed.

(** * No subcategory heading is lost *)

Arguments sub_titles : simpl never.

Lemma sub_titles_app a b : sub_titles (a ++ b) = sub_titles a ++ sub_titles b.
Proof. unfold sub_titles, all_subcategories. rewrite flat_map_app, map_app. reflexivity. Qed.

Lemma sub_titles_alter f i cats :
  (forall c, map sub_title (subcategories (f c)) = map sub_title (subcategories c)) ->
  sub_titles (alter f i cats) = sub_titles cats.
Proof.
  intros Hf. revert i. induction cats as [|c r IH]; intros i; [reflexivity|].
  destruct i as [|i]; cbn.
  - change (sub_titles ([f c] ++ r) = sub_titles ([c] ++ r)).
    rewrite !sub_titles_app. f_equal. unfold sub_titles. cbn.
    rewrite !app_nil_r. apply Hf.
  - change (sub_titles ([c] ++ alter f i r) = sub_titles ([c] ++ r)).
    rewrite !sub_titles_app, IH. reflexivity.
Qed.

Lemma add_group_titles g si subs :
  map sub_title (alter (add_group g) si subs) = map sub_title subs.
Proof.
  revert si. induction subs as [|s r IH]; intros si; [reflexivity|].
  destruct si as [|si]; cbn; [reflexivity|]. rewrite IH. reflexivity.
Qed.

Lemma flush_group_sub_titles st :
  sub_titles (categories (flush_group st)) = sub_titles (categories st).
Proof.
  unfold flush_group. cbn.
  destruct (cur_group_title st) as [t|]; [|reflexivity].
  destruct (cur_sub st) as [r|]; [|reflexivity].
  destruct (truthy t); [|reflexivity].
  apply sub_titles_alter. intros c. apply add_group_titles.
Qed.

Lemma at_last_flush_group st : at_last st -> at_last (flush_group st).
Proof.
  unfold at_last, flush_group. cbn.
  destruct (cur_group_title st) as [t|]; [|exact (fun H => H)].
  destruct (cur_sub st) as [r|]; [|exact (fun H => H)].
  destruct (truthy t); [|exact (fun H => H)].
  destruct (cur_cat st); unfold append_group.
  - rewrite length_alter. exact (fun H => H).
  - intros ->. reflexivity.
Qed.

Lemma last_split (cats : list Category) ci :
  S ci = length cats -> exists front c, cats = front ++ [c] /\ length front = ci.
Proof.
  destruct cats as [|c r] using rev_ind; [discriminate|].
  rewrite length_app. cbn. intros H. exists r, c. split; [reflexivity | lia].
Qed.

Lemma new_subcategory_last n name st :
  at_last st ->
  at_last (new_subcategory n name st)
  /\ sub_titles (categories (new_subcategory n name st))
     = sub_titles (categories st) ++ [n ++ u ". " ++ strip name].
Proof.
  unfold at_last, new_subcategory.
  destruct (cur_cat st) as [ci|]; cbn.
  - intros H. split; [rewrite length_alter; exact H|].
    destruct (last_split _ _ H) as (front & c & -> & <-).
    rewrite <- (Nat.add_0_r (length front)), alter_app_r.
    rewrite !sub_titles_app, <- app_assoc. f_equal.
    unfold sub_titles, all_subcategories. cbn.
    rewrite !app_nil_r, map_app. reflexivity.
  - intros ->. cbn. auto.
Qed.

Lemma exec_sub_titles st k :
  at_last st ->
  at_last (exec st k)
  /\ sub_titles (categories (exec st k))
     = sub_titles (categories st)
       ++ match k with
          | SubcategoryHeading n name => [n ++ u ". " ++ strip name]
          | _ => []
          end.
Proof.
  intros H. pose proof (at_last_flush_group _ H) as Hf.
  destruct k as [| | | |title|n name|title|line]; cbn [exec];
    rewrite ?app_nil_r; auto.
  - split; [exact Hf | apply flush_group_sub_titles].
  - split.
    + unfold at_last. cbn. rewrite length_app. cbn. lia.
    + unfold new_category. cbn [categories].
      rewrite sub_titles_app, flush_group_sub_titles. apply app_nil_r.
  - destruct (new_subcategory_last n name _ Hf) as [H1 ->].
    rewrite flush_group_sub_titles. auto.
  - split; [exact Hf | apply flush_group_sub_titles].
  - unfold add_entry. destruct (pending (cur_group_title st)); [|auto].
    destruct (truthy (_normalize_entry line)); auto.
Qed.

Lemma run_sub_titles lines st :
  at_last st ->
  at_last (run st lines)
  /\ sub_titles (categories (run st lines))
     = sub_titles (categories st) ++ subcategory_headings lines.
Proof.
  revert st. induction lines as [|l lines IH]; intros st H.
  - cbn. rewrite app_nil_r. auto.
  - rewrite run_cons.
    destruct (exec_sub_titles st (classify l) H) as [H1 E1].
    rewrite <- step_classify in H1, E1.
    destruct (IH _ H1) as [H2 ->]. split; [exact H2|].
    rewrite E1, <- app_assoc. reflexivity.
Qed.

Lemma parse_lines_sub_titles lines :
  sub_titles (parse_lines lines) = subcategory_headings lines.
Proof.
  unfold parse_lines. rewrite flush_group_sub_titles.
  destruct (run_sub_titles lines init eq_refl) as [_ ->]. reflexivity.
Qed.

(** C3, with the title the code gives to the implicit category: when a
    subcategory-shaped bold heading comes before any category heading,
    the first category of the parsed tree is titled 未分类 and holds the
    subcategory of that heading, at the place given by the number of
    subcategory headings before it; when no category is current, the
    step appends the new category 未分类 to the list with the new
    subcategory in it; and the subcategories of the parsed tree are, in
    order, those of the subcategory headings of the input. *)
Theorem C3_implicit_category st pre x post g1 n name :
  (forall l, In l pre -> is_category_heading l = false) ->
  BOLD_RE_match (strip x) = Some g1 ->
  SUBCATEGORY_RE_match (strip g1) = Some (n, name) ->
  (cur_cat st = None ->
   categories (step st x)
   = categories (flush_group st)
     ++ [mkCategory UNCLASSIFIED
           [mkSubcategory (n ++ u ". " ++ strip name) [] []] []]) /\
  (exists c rest s,
     parse_lines (pre ++ x :: post) = c :: rest
     /\ cat_title c = UNCLASSIFIED
     /\ subcategories c !! length (List.filter is_subcategory_heading pre) = Some s
     /\ sub_title s = n ++ u ". " ++ strip name) /\
  sub_titles (parse_lines (pre ++ x :: post))
  = subcategory_headings (pre ++ x :: post).
Proof.
  intros Hpre Hb Hs.
  pose proof (classify_subcategory _ _ _ _ Hb Hs) as Hx.
  split; [|split; [|apply parse_lines_sub_titles]].
  - intros Hc. rewrite step_classify, Hx. cbn [exec].
    apply new_subcategory_first. exact Hc.
  - pose proof (implicit_run pre 0 init) as Hi. cbn [Nat.add] in Hi.
    specialize (Hi (or_introl (conj eq_refl (conj eq_refl eq_refl))) Hpre).
    apply implicit_flush_group in Hi.
    destruct (implicit_new_subcategory _ n name _ Hi) as (c1 & Hc1 & Ht1 & _ & Hs1 & _).
    rewrite parse_lines_app, run_cons, step_classify, Hx. cbn [exec].
    set (st1 := new_subcategory n name (flush_group (run init pre))) in *.
    assert (Hext : tree_ext (categories st1)
                            (categories (flush_group (run st1 post)))).
    { eapply tree_ext_trans; [apply run_ext | apply flush_group_ext]. }
    destruct (Hext 0%nat c1) as (c' & Hc' & Ht' & Hs'); [rewrite Hc1; reflexivity|].
    destruct (Hs' _ _ Hs1) as (s' & Hk & Es).
    destruct (categories (flush_group (run st1 post))) as [|c0 rest];
      [discriminate|].
    cbn in Hc'. injection Hc' as ->.
    exists c', rest, s'. repeat split; [congruence | exact Hk | exact Es].
Qed.

Lemma C3_witness :
  exists c rest s,
    parse_lines ([u "**挥手**"; u "**1. 手臂动作**"] ++ u "**2. 腿部动作**"
                 :: [u "**踢**"; u "踢腿"; u "**一、人体类**"])
    = c :: rest
    /\ cat_title c = UNCLASSIFIED
    /\ subcategories c
       !! length (List.filter is_subcategory_heading [u "**挥手**"; u "**1. 手臂动作**"])
       = Some s
    /\ sub_title s = u "2" ++ u ". " ++ strip (u "腿部动作").
Proof.
  apply (C3_implicit_category init _ (u "**2. 腿部动作**") _ (u "2. 腿部动作")
           (u "2") (u "腿部动作")).
  - intros l Hl. simpl in Hl. destruct Hl as [<-|[<-|[]]]; vm_compute; reflexivity.
  - vm_compute. reflexivity.
  - vm_compute. reflexivity.
Defined.

(** C3 as stated fails on the title: the implicit category is not called
    unclassified. *)
Lemma C3_counterexample :
  ~ (exists c rest,
       parse_lines [u "**1. 手臂动作**"] = c :: rest
       /\ cat_title c = u "unclassified").
Proof.
  intros (c & rest & H & Ht). vm_compute in H. injection H as <- _.
  vm_compute in Ht. discriminate.
Qed.

(** * Numeric section headings *)

Lemma cat_titles_alter f i (cats : list Category) :
  (forall c, cat_title (f c) = cat_title c) ->
  map cat_title (alter f i cats) = map cat_title cats.
Proof.
  intros Hf. revert i. induction cats as [|c r IH]; intros i; [reflexivity|].
  destruct i as [|i]; cbn; [rewrite Hf | rewrite IH]; reflexivity.
Qed.

Lemma flush_group_cat_titles st :
  map cat_title (categories (flush_group st)) = map cat_title (categories st).
Proof.
  unfold flush_group. cbn.
  destruct (cur_group_title st) as [t|]; [|reflexivity].
  destruct (cur_sub st) as [r|]; [|reflexivity].
  destruct (truthy t); [|reflexivity].
  apply cat_titles_alter. reflexivity.
Qed.

(** * Filenames *)

Lemma uint_str_value d acc :
  fold_left (fun a c => (10 * a + N.to_nat (c - 0x30))%nat) (uint_str d) acc
  = Nat.of_uint_acc d acc.
Proof.
  revert acc. induction d; intros acc; cbn [uint_str fold_left Nat.of_uint_acc];
    [reflexivity|..]; rewrite IHd, Nat.tail_mul_spec; f_equal; lia.
Qed.

Lemma zeros_value k :
  fold_left (fun a c => (10 * a + N.to_nat (c - 0x30))%nat) (repeat 0x30 k) 0%nat
  = 0%nat.
Proof. induction k as [|k IH]; [reflexivity|exact IH]. Qed.

Lemma digits_value_format w n : digits_value (format_d w n) = n.
Proof.
  unfold digits_value, format_d.
  rewrite fold_left_app, zeros_value, uint_str_value.
  apply DecimalNat.Unsigned.of_to.
Qed.

Lemma format_d_inj w n m : format_d w n = format_d w m -> n = m.
Proof.
  intros H. rewrite <- (digits_value_format w n), H. apply digits_value_format.
Qed.

Lemma uint_str_digits d : forallb is_ascii_digit (uint_str d) = true.
Proof. induction d; cbn [uint_str forallb]; auto. Qed.

Lemma format_d_digits w n : forallb is_ascii_digit (format_d w n) = true.
Proof.
  unfold format_d. rewrite forallb_app, uint_str_digits, andb_true_r.
  induction (w - length (uint_str (Nat.to_uint n)))%nat as [|k IH];
    [reflexivity | exact IH].
Qed.

(** Two runs of digits, each followed by a character that is no digit. *)
Lemma digits_then_inj d1 d2 a b r1 r2 :
  forallb is_ascii_digit d1 = true -> forallb is_ascii_digit d2 = true ->
  is_ascii_digit a = false -> is_ascii_digit b = false ->
  d1 ++ a :: r1 = d2 ++ b :: r2 -> d1 = d2 /\ a = b /\ r1 = r2.
Proof.
  revert d2. induction d1 as [|x d1 IH]; intros [|y d2] F1 F2 Ha Hb E;
    cbn in *.
  - injection E as -> ->. auto.
  - injection E as -> _. apply andb_true_iff in F2 as [F2 _]. congruence.
  - injection E as -> _. apply andb_true_iff in F1 as [F1 _]. congruence.
  - injection E as -> E.
    apply andb_true_iff in F1 as [_ F1]. apply andb_true_iff in F2 as [_ F2].
    destruct (IH d2 F1 F2 Ha Hb E) as (-> & -> & ->). auto.
Qed.

Lemma cat_filename_eq i :
  cat_filename i = 0x63 :: format_d 2 i ++ 0x2E :: u "html".
Proof. reflexivity. Qed.

Lemma sub_filename_eq i j :
  sub_filename i j
  = 0x63 :: format_d 2 i ++ 0x5F :: 0x73 :: format_d 2 j ++ 0x2E :: u "html".
Proof. reflexivity. Qed.

Lemma group_filename_eq k :
  group_filename k = 0x67 :: format_d 4 k ++ 0x2E :: u "html".
Proof. reflexivity. Qed.

Lemma node_filename_inj x y : node_filename x = node_filename y -> x = y.
Proof.
  destruct x as [i|i j|k]; destruct y as [i'|i' j'|k']; cbn [node_filename];
    rewrite ?cat_filename_eq, ?sub_filename_eq, ?group_filename_eq;
    intros E; try discriminate E; injection E as E.
  - apply app_inv_tail, format_d_inj in E. congruence.
  - apply digits_then_inj in E as (_ & E & _);
      [discriminate | apply format_d_digits.. | reflexivity | reflexivity].
  - apply digits_then_inj in E as (_ & E & _);
      [discriminate | apply format_d_digits.. | reflexivity | reflexivity].
  - apply digits_then_inj in E as (E1 & _ & E2);
      [|apply format_d_digits.. | reflexivity | reflexivity].
    apply format_d_inj in E1. injection E2 as E2.
    apply digits_then_inj in E2 as (E2 & _ & _);
      [|apply format_d_digits.. | reflexivity | reflexivity].
    apply format_d_inj in E2. congruence.
  - apply app_inv_tail, format_d_inj in E. congruence.
Qed.

Lemma NoDup_map_inj {A B} (f : A -> B) l :
  (forall x y, f x = f y -> x = y) -> List.NoDup l -> List.NoDup (map f l).
Proof.
  intros Hf. induction 1 as [|x l Hx Hl IH]; cbn; constructor; [|exact IH].
  intros Hin. apply in_map_iff in Hin as (y & E & Hy).
  apply Hf in E. subst y. contradiction.
Qed.

Lemma sub_nodes_shape i cats x :
  In x (sub_nodes i cats) -> exists a b, x = SubNode a b /\ (i <= a)%nat.
Proof.
  revert i. induction cats as [|c r IH]; intros i; cbn; [contradiction|].
  intros H. apply in_app_or in H as [H|H].
  - apply in_map_iff in H as (b & <- & _). exists i, b. auto.
  - destruct (IH _ H) as (a & b & -> & Hle). exists a, b. split; [reflexivity | lia].
Qed.

Lemma sub_nodes_NoDup i cats : List.NoDup (sub_nodes i cats).
Proof.
  revert i. induction cats as [|c r IH]; intros i; cbn; [constructor|].
  apply List.NoDup_app; [|apply IH|].
  - apply NoDup_map_inj; [congruence | apply seq_NoDup].
  - intros x H1 H2. apply in_map_iff in H1 as (b & <- & _).
    apply sub_nodes_shape in H2 as (a' & b' & [= <- <-] & Hle). lia.
Qed.

Lemma nodes_NoDup cats : List.NoDup (nodes cats).
Proof.
  unfold nodes. apply List.NoDup_app; [|apply List.NoDup_app|].
  - apply NoDup_map_inj; [congruence | apply seq_NoDup].
  - apply sub_nodes_NoDup.
  - apply NoDup_map_inj; [congruence | apply seq_NoDup].
  - intros x H1 H2. apply sub_nodes_shape in H1 as (a & b & -> & _).
    apply in_map_iff in H2 as (k & [=] & _).
  - intros x H1 H2. apply in_map_iff in H1 as (i & <- & _).
    apply in_app_or in H2 as [H2|H2].
    + apply sub_nodes_shape in H2 as (a & b & [=] & _).
    + apply in_map_iff in H2 as (k & [=] & _).
Qed.

Lemma name_subcategories_spec subs i j :
  map sub_file (name_subcategories i j subs)
  = map (sub_filename i) (seq j (length subs))
  /\ flat_map groups (name_subcategories i j subs) = flat_map groups subs.
Proof.
  revert j. induction subs as [|s r IH]; intros j; cbn; [auto|].
  destruct (IH (S j)) as [-> ->]. auto.
Qed.

Lemma name_categories_spec cats i :
  map cat_file (name_categories i cats) = map cat_filename (seq i (length cats))
  /\ map sub_file (all_subcategories (name_categories i cats))
     = map node_filename (sub_nodes i cats)
  /\ all_groups (name_categories i cats) = all_groups cats.
Proof.
  unfold all_groups, all_subcategories.
  revert i. induction cats as [|c r IH]; intros i; cbn; [auto|].
  destruct (IH (S i)) as (-> & E2 & E3).
  destruct (name_subcategories_spec (subcategories c) i 1) as [F1 F2].
  rewrite !map_app, !flat_map_app, E2, E3, F1, F2, map_map. auto.
Qed.

Lemma number_groups_spec gs k :
  (number_groups k gs).2 = (k + length gs)%nat
  /\ map group_file (number_groups k gs).1
     = map group_filename (seq (S k) (length gs)).
Proof.
  revert k. induction gs as [|g r IH]; intros k; cbn; [auto|].
  specialize (IH (S k)). destruct (number_groups (S k) r) as [r' k'].
  cbn in *. destruct IH as [-> ->]. split; [lia | reflexivity].
Qed.

Lemma number_subcategories_spec subs k :
  (number_subcategories k subs).2 = (k + length (flat_map groups subs))%nat
  /\ map sub_file (number_subcategories k subs).1 = map sub_file subs
  /\ map group_file (flat_map groups (number_subcategories k subs).1)
     = map group_filename (seq (S k) (length (flat_map groups subs))).
Proof.
  revert k. induction subs as [|s r IH]; intros k; cbn; [auto|].
  pose proof (number_groups_spec (groups s) k) as G.
  destruct (number_groups k (groups s)) as [gs k1]. cbn in G. destruct G as [-> G].
  specialize (IH (k + length (groups s))%nat).
  destruct (number_subcategories _ r) as [r' k2]. cbn in *.
  destruct IH as (-> & -> & IH).
  rewrite length_app, map_app, seq_app, map_app, G, IH.
  split; [lia|]. split; reflexivity.
Qed.

Lemma number_categories_spec cats k :
  (number_categories k cats).2 = (k + length (all_groups cats))%nat
  /\ map cat_file (number_categories k cats).1 = map cat_file cats
  /\ map sub_file (all_subcategories (number_categories k cats).1)
     = map sub_file (all_subcategories cats)
  /\ map group_file (all_groups (number_categories k cats).1)
     = map group_filename (seq (S k) (length (all_groups cats))).
Proof.
  unfold all_groups, all_subcategories.
  revert k. induction cats as [|c r IH]; intros k; cbn; [auto|].
  pose proof (number_subcategories_spec (subcategories c) k) as G.
  destruct (number_subcategories k (subcategories c)) as [subs k1]. cbn in G.
  destruct G as (-> & G1 & G2).
  specialize (IH (k + length (flat_map groups (subcategories c)))%nat).
  destruct (number_categories _ r) as [r' k2]. cbn in *.
  destruct IH as (-> & -> & I1 & I2).
  rewrite !flat_map_app, !map_app, length_app, seq_app, map_app, G1, G2, I1, I2.
  split; [lia|]. repeat split.
Qed.

Lemma all_files_nodes cats :
  all_files (assign_filenames cats) = map node_filename (nodes cats).
Proof.
  unfold all_files, assign_filenames, nodes.
  destruct (number_categories_spec (name_categories 1 cats) 0) as (_ & -> & -> & ->).
  destruct (name_categories_spec cats 1) as (-> & -> & ->).
  rewrite !map_app, !map_map. reflexivity.
Qed.

(** C8: after the filename assignment the filenames of all categories,
    subcategories and groups of the tree are pairwise distinct; the
    categories are named by their position, and the groups by one counter
    that runs over all groups of the tree. *)
Theorem C8_filenames_distinct cats :
  List.NoDup (all_files (assign_filenames cats))
  /\ map cat_file (assign_filenames cats)
     = map cat_filename (seq 1 (length cats))
  /\ map sub_file (all_subcategories (assign_filenames cats))
     = map node_filename (sub_nodes 1 cats)
  /\ map group_file (all_groups (assign_filenames cats))
     = map group_filename (seq 1 (length (all_groups cats))).
Proof.
  split.
  - rewrite all_files_nodes.
    apply NoDup_map_inj; [apply node_filename_inj | apply nodes_NoDup].
  - unfold assign_filenames.
    destruct (number_categories_spec (name_categories 1 cats) 0) as (_ & -> & -> & ->).
    destruct (name_categories_spec cats 1) as (-> & -> & ->). auto.
Qed.

Example filenames_example :
  all_files (assign_filenames example_tree)
  = [u "c01.html"; u "c01_s01.html"; u "g0001.html"].
Proof. vm_compute. reflexivity. Qed.

(** * Blank lines, markers and line endings *)

Lemma classify_blank raw : strip raw = [] -> classify raw = Blank.
Proof. intros H. unfold classify. rewrite H. reflexivity. Qed.

Lemma classify_screenshot raw :
  SCREENSHOT_RE_match (strip raw) = true ->
  classify raw = Blank \/ classify raw = ScreenshotMarker.
Proof.
  intros H. unfold classify. rewrite H.
  destruct (truthy (strip raw)); cbn [negb]; auto.
Qed.

(** X1: a line that is blank after trimming, or a screenshot marker,
    changes nothing, wherever it stands: the tree parsed from an input is
    the tree parsed from the input without that line. *)
Theorem X1_blank_and_marker_lines_ignored pre x post :
  strip x = [] \/ SCREENSHOT_RE_match (strip x) = true ->
  parse_lines (pre ++ x :: post) = parse_lines (pre ++ post).
Proof.
  intros H.
  assert (Hs : forall st, step st x = st).
  { intros st. rewrite step_classify.
    destruct H as [H|H].
    - rewrite (classify_blank _ H). reflexivity.
    - destruct (classify_screenshot _ H) as [-> | ->]; reflexivity. }
  rewrite !parse_lines_app, run_cons, Hs. reflexivity.
Qed.

Lemma X1_witness :
  parse_lines ([u "**一、人体类**"; u "**1. 手臂动作**"; u "**挥手**"; u "抬起手臂"]
               ++ u "==Screenshot for page 12== " :: [u "放下手臂"])
  = parse_lines ([u "**一、人体类**"; u "**1. 手臂动作**"; u "**挥手**"; u "抬起手臂"]
                 ++ [u "放下手臂"]).
Proof.
  apply X1_blank_and_marker_lines_ignored. right. vm_compute. reflexivity.
Defined.

Lemma splitlines_from_line l cur rest :
  break_free l = true ->
  splitlines_from false cur (l ++ rest) = splitlines_from false (rev l ++ cur) rest.
Proof.
  revert cur. induction l as [|c l IH]; intros cur H; [reflexivity|].
  cbn in H. apply andb_true_iff in H as [Hc Hl].
  cbn [app splitlines_from]. rewrite andb_false_r.
  apply negb_true_iff in Hc. rewrite Hc, (IH _ Hl).
  cbn [rev]. rewrite <- app_assoc. reflexivity.
Qed.

Lemma splitlines_from_end l :
  break_free l = true ->
  splitlines_from false [] l = if truthy l then [l] else [].
Proof.
  intros H. rewrite <- (app_nil_r l) at 1.
  rewrite (splitlines_from_line _ _ _ H), app_nil_r. cbn.
  destruct l as [|c l]; [reflexivity|].
  rewrite rev_involutive. cbn [rev].
  destruct (rev l ++ [c]) eqn:E; [|reflexivity].
  apply app_eq_nil in E as [_ E]. discriminate.
Qed.

Lemma splitlines_join sep ls :
  sep = [NL] \/ sep = [CR; NL] ->
  forallb break_free ls = true ->
  splitlines (join sep ls) = drop_last_empty ls.
Proof.
  intros Hsep. unfold splitlines.
  induction ls as [|l r IH]; intros H; [reflexivity|].
  cbn in H. apply andb_true_iff in H as [Hl Hr].
  destruct r as [|l2 r]; cbn [join drop_last_empty].
  - apply splitlines_from_end, Hl.
  - rewrite (splitlines_from_line _ _ _ Hl), app_nil_r.
    specialize (IH Hr).
    destruct Hsep as [-> | ->]; cbn [app splitlines_from];
      cbn; rewrite rev_involutive; f_equal; exact IH.
Qed.

Lemma drop_last_empty_cases ls :
  drop_last_empty ls = ls \/ ls = drop_last_empty ls ++ [[]].
Proof.
  induction ls as [|l r IH]; [auto|].
  destruct r as [|l2 r].
  - destruct l; cbn; auto.
  - change (drop_last_empty (l :: l2 :: r)) with (l :: drop_last_empty (l2 :: r)).
    destruct IH as [-> | IH]; [auto|].
    right. cbn [app]. rewrite <- IH. reflexivity.
Qed.

Lemma parse_lines_drop_last_empty ls :
  parse_lines (drop_last_empty ls) = parse_lines ls.
Proof.
  destruct (drop_last_empty_cases ls) as [-> | H]; [reflexivity|].
  rewrite H at 2. rewrite !parse_lines_app, run_cons.
  rewrite step_classify, (classify_blank [] eq_refl). reflexivity.
Qed.

(** X2: the result does not depend on the line endings of the file.  For
    lines without line boundaries, [parse_markdown] on the lines joined
    by LF, or by CR LF, is the parser on the list of lines. *)
Theorem X2_line_endings ls :
  forallb break_free ls = true ->
  parse_markdown (join [NL] ls) = parse_lines ls
  /\ parse_markdown (join [CR; NL] ls) = parse_lines ls.
Proof.
  intros H. unfold parse_markdown.
  rewrite !splitlines_join by auto.
  split; apply parse_lines_drop_last_empty.
Qed.

Lemma X2_witness :
  parse_markdown (join [NL] (example_lines ++ [[]])) = parse_lines (example_lines ++ [[]])
  /\ parse_markdown (join [CR; NL] (example_lines ++ [[]]))
     = parse_lines (example_lines ++ [[]]).
Proof. apply X2_line_endings. vm_compute. reflexivity. Defined.

(** * Which text lines give no entry *)

Lemma forallb_digit_headok s : forallb isdigit s = true -> headok s.
Proof.
  destruct s as [|c r]; [intros _; exact I|]. cbn.
  intros H. apply andb_true_iff in H as [H _]. apply digit_not_space, H.
Qed.

Lemma sub_trailing_number_digits s :
  s <> [] -> forallb isdigit s = true -> sub_trailing_number s = [].
Proof.
  intros Hne H. unfold sub_trailing_number.
  assert (Hr : forallb isdigit (rev s) = true) by (rewrite forallb_rev; exact H).
  rewrite (lstrip_id _ (forallb_digit_headok _ Hr)), (span_all _ _ Hr).
  destruct (rev s) eqn:E; [|reflexivity].
  apply (f_equal (@rev _)) in E. rewrite rev_involutive in E. contradiction.
Qed.

Lemma headok_blank_prefix w d : headok (w ++ d) -> forallb isspace w = true -> w = [].
Proof.
  destruct w as [|c w]; [reflexivity|]. cbn.
  intros H F. apply andb_true_iff in F as [F _]. congruence.
Qed.

(** X7: a text line gives no entry exactly when, after trimming, it is
    empty, starts with three stars, starts and ends with two equals
    signs, or consists of digits only. *)
Theorem X7_discarded_lines l :
  _normalize_entry l = [] <->
  strip l = []
  \/ startswith (strip l) (u "***") = true
  \/ (startswith (strip l) (u "==") = true /\ endswith (strip l) (u "==") = true)
  \/ forallb isdigit (strip l) = true.
Proof.
  unfold _normalize_entry.
  destruct (truthy (strip l)) eqn:Ht; cbn [negb].
  2:{ split; [|reflexivity]. intros _. left. destruct (strip l); [reflexivity|discriminate]. }
  apply truthy_nonempty in Ht.
  destruct (startswith (strip l) (u "***")) eqn:H3; [split; auto|].
  destruct (startswith (strip l) (u "==")) eqn:H2;
    destruct (endswith (strip l) (u "==")) eqn:He; cbn [andb];
    try (split; [auto | reflexivity]).
  all: split.
  all: try (intros [H|[H|[[H1 H2']|H]]]; try contradiction; try discriminate;
            rewrite (sub_trailing_number_digits _ Ht H); reflexivity).
  all: intros H; right; right; right;
    destruct (sub_trailing_number_shape (strip l)) as (Hs & w & d & E & Fw & Fd);
      [apply strip_headok | apply strip_tailok |];
    rewrite Hs in H; rewrite H in E; cbn [app] in E;
    assert (w = []) by (eapply headok_blank_prefix;
                        [rewrite <- E; apply strip_headok | exact Fw]);
    subst w; rewrite E; exact Fd.
Qed.

(** * Group titles of the parsed tree *)

(** X5: every group title of the parsed tree is in normal form: it holds
    none of the characters that [_normalize_group_title] replaces, has no
    blank at either end, and is left as it is by a further
    normalization. *)
Theorem X5_group_titles_normalized lines g :
  In g (all_groups (parse_lines lines)) ->
  Forall plain (group_title g)
  /\ strip (group_title g) = group_title g
  /\ _normalize_group_title (group_title g) = group_title g.
Proof.
  apply (inv_parse_lines
           (fun g => Forall plain (group_title g)
                     /\ strip (group_title g) = group_title g
                     /\ _normalize_group_title (group_title g) = group_title g)
           (fun _ => True) lines g); [|auto].
  intros t es _ _ _. cbn.
  assert (Hp : Forall plain (_normalize_group_title t))
    by (apply strip_Forall, replaced_plain).
  assert (Hs : strip (_normalize_group_title t) = _normalize_group_title t)
    by apply strip_strip.
  repeat split; [exact Hp | exact Hs |].
  rewrite (normalize_group_title_plain _ Hp). exact Hs.
Qed.

Lemma X5_witness :
  Forall plain (u "挥·手")
  /\ strip (u "挥·手") = u "挥·手"
  /\ _normalize_group_title (u "挥·手") = u "挥·手".
Proof.
  apply (X5_group_titles_normalized
           [u "**一、人体类**"; u "**1. 手臂动作**"; u "** 挥?手 **"; u "抬起手臂"]
           (mkGroup (u "挥·手") [u "抬起手臂"] [])).
  vm_compute. left. reflexivity.
Defined.

(** * Subcategory titles of the parsed tree *)

Lemma strip_forallb p s : forallb p s = true -> forallb p (strip s) = true.
Proof.
  intros H. apply forallb_forall. apply List.Forall_forall.
  apply (strip_Forall (fun c => p c = true)).
  apply List.Forall_forall. apply forallb_forall, H.
Qed.

Lemma strip_nonempty_last s : s <> [] -> headok (rev s) -> strip s <> [].
Proof.
  intros Hne Hl. destruct s as [|z s] using rev_ind; [contradiction|]. clear IHs.
  rewrite rev_app_distr in Hl. cbn in Hl.
  unfold strip, rstrip.
  rewrite (lstrip_app_nonspace s z [] Hl), rev_app_distr. cbn. rewrite Hl.
  intros E. apply (f_equal (@length _)) in E. rewrite length_rev in E.
  cbn in E. discriminate.
Qed.

Lemma dot_plus_end_spec s g :
  dot_plus_end s = Some g ->
  g <> [] /\ forallb (fun c => negb (c =? NL)) g = true
  /\ (s = g \/ s = g ++ [NL]).
Proof.
  unfold dot_plus_end.
  destruct (truthy (before_dollar s)) eqn:Ht; [|discriminate]. cbn [andb].
  destruct (forallb (fun c => negb (c =? NL)) (before_dollar s)) eqn:Hf;
    [|discriminate].
  intros [= <-]. split; [apply truthy_nonempty, Ht|]. split; [exact Hf|].
  destruct (before_dollar_cases s) as [H|H]; [left; symmetry; exact H | right; exact H].
Qed.

Lemma blanks_dot_plus_end_spec r g :
  blanks_dot_plus_end r = Some g ->
  g <> [] /\ forallb (fun c => negb (c =? NL)) g = true
  /\ exists w, r = w ++ g \/ r = w ++ g ++ [NL].
Proof.
  induction r as [|c r IH]; cbn; [discriminate|].
  assert (Hd : dot_plus_end (c :: r) = Some g ->
               g <> [] /\ forallb (fun c => negb (c =? NL)) g = true
               /\ exists w, c :: r = w ++ g \/ c :: r = w ++ g ++ [NL]).
  { intros H. apply dot_plus_end_spec in H as (H1 & H2 & H3).
    repeat split; [exact H1 | exact H2 |]. exists []. exact H3. }
  destruct (isspace c); [|exact Hd].
  destruct (blanks_dot_plus_end r) as [g'|]; [|exact Hd].
  intros [= ->]. destruct (IH eq_refl) as (H1 & H2 & w & H3).
  repeat split; [exact H1 | exact H2 |].
  exists (c :: w). destruct H3 as [-> | ->]; auto.
Qed.

Lemma headok_rev_suffix (a b : str) : b <> [] -> headok (rev (a ++ b)) -> headok (rev b).
Proof.
  intros Hb. rewrite rev_app_distr.
  destruct (rev b) eqn:E; [|exact (fun H => H)].
  apply (f_equal (@rev _)) in E. rewrite rev_involutive in E. contradiction.
Qed.

(** The groups of a match of [SUBCATEGORY_RE] on a trimmed title. *)
Lemma SUBCATEGORY_RE_match_shape t n name :
  headok (rev t) -> SUBCATEGORY_RE_match t = Some (n, name) ->
  n <> [] /\ forallb isdigit n = true /\ name <> []
  /\ forallb (fun c => negb (c =? NL)) name = true /\ headok (rev name).
Proof.
  intros Ht. unfold SUBCATEGORY_RE_match.
  destruct (span isdigit t) as [a b] eqn:E.
  apply span_split in E as (E & Fa & _).
  destruct a as [|d ds]; [discriminate|]. destruct b as [|c r]; [discriminate|].
  destruct (c =? FULLSTOP); [|discriminate].
  destruct (blanks_dot_plus_end r) as [g|] eqn:Eg; [|discriminate].
  intros [= <- <-].
  apply blanks_dot_plus_end_spec in Eg as (H1 & H2 & w & H3).
  repeat split; [discriminate | exact Fa | exact H1 | exact H2 |].
  destruct H3 as [-> | ->].
  - rewrite E in Ht.
    replace ((d :: ds) ++ c :: w ++ g) with (((d :: ds) ++ c :: w) ++ g) in Ht
      by (rewrite <- app_assoc; reflexivity).
    eapply headok_rev_suffix; eassumption.
  - exfalso. rewrite E in Ht.
    replace ((d :: ds) ++ c :: w ++ g ++ [NL])
      with (((d :: ds) ++ c :: w ++ g) ++ [NL]) in Ht
      by (rewrite <- !app_assoc; cbn; rewrite <- !app_assoc; reflexivity).
    rewrite rev_app_distr in Ht. cbn in Ht. discriminate.
Qed.

(** [SUBCATEGORY_RE] on a title that the parser has made. *)
Lemma SUBCATEGORY_RE_match_title n name :
  n <> [] -> forallb isdigit n = true -> name <> [] ->
  forallb (fun c => negb (c =? NL)) name = true ->
  headok name -> headok (rev name) ->
  SUBCATEGORY_RE_match (n ++ u ". " ++ name) = Some (n, name).
Proof.
  intros Hn Fn Hne Fnl Hh Ht.
  change (u ". " ++ name) with (FULLSTOP :: 0x20 :: name).
  unfold SUBCATEGORY_RE_match.
  rewrite (span_stop isdigit n FULLSTOP (0x20 :: name) Fn eq_refl).
  destruct n as [|d ds]; [contradiction|].
  rewrite N.eqb_refl. cbn [blanks_dot_plus_end].
  change (isspace 0x20) with true. cbv iota.
  assert (Hd : dot_plus_end name = Some name).
  { unfold dot_plus_end. rewrite (before_dollar_id _ Ht), Fnl.
    apply truthy_nonempty in Hne. rewrite Hne. reflexivity. }
  destruct name as [|c r]; [contradiction|].
  cbn [blanks_dot_plus_end]. cbn in Hh. rewrite Hh, Hd. reflexivity.
Qed.

Lemma classify_subcategory_inv raw n name :
  classify raw = SubcategoryHeading n name ->
  exists g1, SUBCATEGORY_RE_match (strip g1) = Some (n, name).
Proof.
  unfold classify.
  destruct (truthy (strip raw)); cbn [negb]; [|discriminate].
  destruct (SCREENSHOT_RE_match (strip raw)); [discriminate|].
  destruct (BOLD_RE_match (strip raw)) as [g1|]; [|discriminate].
  destruct (PAGE_BOLD_NUM_RE_match (strip g1)); [discriminate|].
  destruct (_ && _); [discriminate|].
  destruct (_ && _); [discriminate|].
  destruct (SUBCATEGORY_RE_match (strip g1)) as [[n' name']|] eqn:E; [|discriminate].
  intros [= <- <-]. eauto.
Qed.

(** X4: every subcategory title of the parsed tree has the form of a
    subcategory heading again: a non-empty run of digits, a full stop, one
    space and a non-empty trimmed name, and [SUBCATEGORY_RE] reads that
    number and that name back from it. *)
Theorem X4_subcategory_titles_reparse lines s :
  In s (all_subcategories (parse_lines lines)) ->
  exists n name,
    sub_title s = n ++ u ". " ++ name
    /\ n <> [] /\ forallb isdigit n = true
    /\ name <> [] /\ strip name = name
    /\ SUBCATEGORY_RE_match (sub_title s) = Some (n, name).
Proof.
  intros Hs.
  assert (Ht : In (sub_title s) (subcategory_headings lines)).
  { rewrite <- parse_lines_sub_titles. unfold sub_titles. apply in_map, Hs. }
  unfold subcategory_headings in Ht.
  apply in_flat_map in Ht as (raw & _ & Ht).
  unfold heading_subcategory in Ht.
  destruct (classify raw) eqn:Ec; try contradiction.
  destruct Ht as [Ht|[]].
  apply classify_subcategory_inv in Ec as (g1 & Em).
  apply SUBCATEGORY_RE_match_shape in Em as (Hn & Fn & Hne & Fnl & Hl);
    [|apply strip_tailok].
  exists n, (strip name). rewrite <- Ht.
  pose proof (strip_nonempty_last _ Hne Hl) as Hs'.
  repeat split; try assumption; [apply strip_strip|].
  apply SUBCATEGORY_RE_match_title; try assumption.
  - apply strip_forallb, Fnl.
  - apply strip_headok.
  - apply strip_tailok.
Qed.

Lemma X4_witness :
  exists n name,
    u "12. 手臂动作" = n ++ u ". " ++ name
    /\ n <> [] /\ forallb isdigit n = true
    /\ name <> [] /\ strip name = name
    /\ SUBCATEGORY_RE_match (u "12. 手臂动作") = Some (n, name).
Proof.
  apply (X4_subcategory_titles_reparse
           [u "**一、人体类**"; u "**12.手臂动作**"]
           (mkSubcategory (u "12. 手臂动作") [] [])).
  vm_compute. left. reflexivity.
Defined.

(** * The categories of the parsed tree *)

Lemma exec_cat_titles st k :
  map cat_title (categories (exec st k))
  = map cat_title (categories st)
    ++ match k with
       | CategoryHeading title => [title]
       | SubcategoryHeading _ _ => if matched (cur_cat st) then [] else [UNCLASSIFIED]
       | _ => []
       end
  /\ matched (cur_cat (exec st k))
     = match k with
       | CategoryHeading _ | SubcategoryHeading _ _ => true
       | _ => matched (cur_cat st)
       end.
Proof.
  destruct k as [| | | |title|n name|title|line]; cbn [exec];
    rewrite ?app_nil_r; auto.
  - split; [apply flush_group_cat_titles | reflexivity].
  - split; [|reflexivity]. unfold new_category. cbn [categories].
    rewrite map_app, flush_group_cat_titles. reflexivity.
  - unfold new_subcategory.
    change (cur_cat (flush_group st)) with (cur_cat st).
    destruct (cur_cat st) as [ci|]; cbn [categories cur_cat matched].
    + split; [|reflexivity].
      rewrite cat_titles_alter by reflexivity.
      rewrite flush_group_cat_titles, app_nil_r. reflexivity.
    + split; [|reflexivity].
      rewrite cat_titles_alter by reflexivity.
      rewrite map_app, flush_group_cat_titles. reflexivity.
  - split; [apply flush_group_cat_titles | reflexivity].
  - rewrite add_entry_categories. split; [reflexivity|].
    unfold add_entry. destruct (pending (cur_group_title st)); [|reflexivity].
    destruct (truthy (_normalize_entry line)); reflexivity.
Qed.

Lemma run_cat_titles lines st :
  map cat_title (categories (run st lines))
  = map cat_title (categories st) ++ category_titles (matched (cur_cat st)) lines.
Proof.
  revert st. induction lines as [|l lines IH]; intros st.
  - cbn. rewrite app_nil_r. reflexivity.
  - rewrite run_cons, IH, step_classify.
    destruct (exec_cat_titles st (classify l)) as [-> ->].
    cbn [category_titles]. rewrite <- app_assoc.
    destruct (classify l); reflexivity.
Qed.

(** X3: the categories of the parsed tree are, in order, those of the
    category headings of the input, with one category 未分类 wherever a
    subcategory heading comes while no category is current (that is,
    before the first category heading); no other line makes or removes a
    category. *)
Theorem X3_categories_of_headings lines :
  map cat_title (parse_lines lines) = category_titles false lines.
Proof.
  unfold parse_lines. rewrite flush_group_cat_titles.
  apply (run_cat_titles lines init).
Qed.

(** * The order of groups and entries *)

Lemma all_subcategories_app a b :
  all_subcategories (a ++ b) = all_subcategories a ++ all_subcategories b.
Proof. apply flat_map_app. Qed.

Lemma all_groups_app a b : all_groups (a ++ b) = all_groups a ++ all_groups b.
Proof. unfold all_groups. rewrite all_subcategories_app. apply flat_map_app. Qed.

Lemma all_groups_single c : all_groups [c] = flat_map groups (subcategories c).
Proof. unfold all_groups, all_subcategories. cbn. rewrite app_nil_r. reflexivity. Qed.

Lemma alter_last {A} (f : A -> A) (front : list A) x :
  alter f (length front) (front ++ [x]) = front ++ [f x].
Proof.
  rewrite <- (Nat.add_0_r (length front)), alter_app_r. reflexivity.
Qed.

(** Through a reference to the last subcategory the group is appended
    behind all groups of the tree. *)
Lemma append_group_last front c fs s g :
  subcategories c = fs ++ [s] ->
  all_groups (append_group (length front, length fs) g (front ++ [c]))
  = all_groups (front ++ [c]) ++ [g].
Proof.
  intros Hs. unfold append_group. cbn [fst snd].
  rewrite alter_last, !all_groups_app, !all_groups_single.
  unfold on_subcategories. cbn [subcategories]. rewrite Hs, alter_last.
  rewrite !flat_map_app. cbn. rewrite !app_nil_r, !app_assoc. reflexivity.
Qed.

Lemma at_last_sub_flush_group st : at_last_sub st -> at_last_sub (flush_group st).
Proof.
  unfold at_last_sub, flush_group. cbn [cur_sub categories].
  destruct (cur_sub st) as [[ci si]|]; [|auto].
  intros (front & c & fs & s & Hc & -> & Hs & ->).
  destruct (cur_group_title st) as [t|]; [|eauto 10].
  destruct (truthy t); [|eauto 10].
  rewrite Hc. unfold append_group. cbn [fst snd]. rewrite alter_last.
  unfold on_subcategories. rewrite Hs, alter_last.
  eexists front, _, fs, _. cbn. auto.
Qed.

Lemma at_last_sub_new_subcategory n name st :
  at_last st -> at_last_sub (new_subcategory n name st).
Proof.
  unfold at_last, at_last_sub, new_subcategory.
  destruct (cur_cat st) as [ci|]; cbn [cur_sub categories].
  - intros H. destruct (last_split _ _ H) as (front & c & -> & <-).
    rewrite list_lookup_middle by reflexivity. cbn [from_option].
    rewrite alter_last.
    eexists front, _, (subcategories c), _. cbn. auto.
  - intros ->. cbn. eexists [], _, [], _. cbn. auto.
Qed.

Lemma at_last_sub_exec st k :
  at_last st -> at_last_sub st -> at_last_sub (exec st k).
Proof.
  intros H1 H2.
  pose proof (at_last_sub_flush_group _ H2) as Hf.
  destruct k as [| | | |title|n name|title|line]; cbn [exec]; auto.
  - exact I.
  - apply at_last_sub_new_subcategory, at_last_flush_group, H1.
  - unfold add_entry. destruct (pending (cur_group_title st)); [|exact H2].
    destruct (truthy (_normalize_entry line)); exact H2.
Qed.

(** What a flush does to the groups of the tree. *)
Lemma flush_group_groups st :
  at_last_sub st ->
  all_groups (categories (flush_group st)) = all_groups (categories st)
  \/ exists title r,
       cur_group_title st = Some title /\ truthy title = true
       /\ cur_sub st = Some r
       /\ all_groups (categories (flush_group st))
          = all_groups (categories st)
            ++ [mkGroup (_normalize_group_title title) (cur_entries st) []].
Proof.
  unfold at_last_sub, flush_group. cbn [categories].
  destruct (cur_group_title st) as [t|]; [|auto].
  destruct (cur_sub st) as [[ci si]|]; [|auto].
  destruct (truthy t) eqn:Ht; [|auto].
  intros (front & c & fs & s & Hc & -> & Hs & ->).
  right. exists t, (length front, length fs).
  split; [reflexivity|]. split; [exact Ht|]. split; [reflexivity|].
  rewrite Hc. apply (append_group_last front c fs s), Hs.
Qed.

Lemma all_groups_alter f i cats :
  (forall c, flat_map groups (subcategories (f c))
             = flat_map groups (subcategories c)) ->
  all_groups (alter f i cats) = all_groups cats.
Proof.
  intros Hf. revert i. induction cats as [|c r IH]; intros i; [reflexivity|].
  destruct i as [|i]; cbn [alter list_alter].
  - change (all_groups ([f c] ++ r) = all_groups ([c] ++ r)).
    rewrite !all_groups_app, !all_groups_single, Hf. reflexivity.
  - change (all_groups ([c] ++ alter f i r) = all_groups ([c] ++ r)).
    rewrite !all_groups_app, IH. reflexivity.
Qed.

Lemma new_category_groups title st :
  all_groups (categories (new_category title st)) = all_groups (categories st).
Proof.
  unfold new_category. cbn [categories].
  rewrite all_groups_app, all_groups_single. apply app_nil_r.
Qed.

Lemma new_subcategory_groups n name st :
  all_groups (categories (new_subcategory n name st)) = all_groups (categories st).
Proof.
  assert (Hf : forall s c, groups s = [] ->
            flat_map groups (subcategories (add_subcategory s c))
            = flat_map groups (subcategories c)).
  { intros s c Hs. cbn. rewrite flat_map_app. cbn. rewrite Hs. cbn.
    rewrite app_nil_r. reflexivity. }
  unfold new_subcategory. destruct (cur_cat st) as [ci|]; cbn [categories].
  - apply all_groups_alter. intros c. apply Hf. reflexivity.
  - rewrite all_groups_alter by (intros c; apply Hf; reflexivity).
    rewrite all_groups_app, all_groups_single. apply app_nil_r.
Qed.

Lemma all_entries_app_group cats g :
  flat_map entries (all_groups cats ++ [g]) = flat_map entries (all_groups cats) ++ entries g.
Proof. rewrite flat_map_app. cbn. rewrite app_nil_r. reflexivity. Qed.

Lemma add_entry_cases l st :
  (add_entry l st = st
   \/ (pending (cur_group_title st) = true
       /\ add_entry l st
          = mkState (categories st) (cur_cat st) (cur_sub st)
                    (cur_group_title st) (cur_entries st ++ [_normalize_entry l])))
  /\ (cur_entries (add_entry l st) = cur_entries st
      \/ cur_entries (add_entry l st) = cur_entries st ++ kind_entry (Text l)).
Proof.
  unfold add_entry, kind_entry.
  destruct (pending (cur_group_title st)); [|auto].
  destruct (truthy (_normalize_entry l)); auto.
Qed.

(** The entries and group titles of the tree and of the pending group,
    in order, are among those that the lines read so far could give. *)
Lemma exec_order st k acc_e acc_g :
  at_last_sub st ->
  flat_map entries (all_groups (categories st)) ++ cur_entries st `sublist_of` acc_e ->
  map group_title (all_groups (categories st)) ++ pending_group st `sublist_of` acc_g ->
  flat_map entries (all_groups (categories (exec st k))) ++ cur_entries (exec st k)
    `sublist_of` acc_e ++ kind_entry k
  /\ map group_title (all_groups (categories (exec st k))) ++ pending_group (exec st k)
       `sublist_of` acc_g ++ kind_group k.
Proof.
  intros Hl He Hg.
  assert (Hf : flat_map entries (all_groups (categories (flush_group st))) ++ []
                 `sublist_of` acc_e
               /\ map group_title (all_groups (categories (flush_group st))) ++ []
                    `sublist_of` acc_g).
  { destruct (flush_group_groups st Hl) as [-> | (t & r & Et & Ht & _ & ->)].
    - rewrite !app_nil_r. split.
      + etransitivity; [|exact He]. apply sublist_inserts_r. reflexivity.
      + etransitivity; [|exact Hg]. apply sublist_inserts_r. reflexivity.
    - rewrite all_entries_app_group, map_app, !app_nil_r. cbn.
      split; [exact He|].
      unfold pending_group in Hg. rewrite Et, Ht in Hg. exact Hg. }
  destruct Hf as [Hfe Hfg]. rewrite app_nil_r in Hfe, Hfg.
  destruct k as [| | | |title|n name|title|line];
    cbn [exec kind_entry kind_group]; rewrite ?app_nil_r.
  - auto.
  - auto.
  - auto.
  - split; [exact Hfe | exact Hfg].
  - rewrite new_category_groups.
    change (cur_entries (new_category title (flush_group st))) with (@nil str).
    change (pending_group (new_category title (flush_group st))) with (@nil str).
    rewrite ?app_nil_r. split; [exact Hfe | exact Hfg].
  - rewrite new_subcategory_groups, new_subcategory_entries.
    unfold pending_group. rewrite new_subcategory_title.
    cbn [flush_group cur_entries cur_group_title].
    rewrite ?app_nil_r. split; [exact Hfe | exact Hfg].
  - split; [exact Hfe|]. unfold pending_group. cbn [categories cur_group_title].
    apply sublist_app; [exact Hfg | reflexivity].
  - rewrite add_entry_categories.
    assert (Hp : pending_group (add_entry line st) = pending_group st).
    { unfold add_entry, pending_group.
      destruct (pending (cur_group_title st)); [|reflexivity].
      destruct (truthy (_normalize_entry line)); reflexivity. }
    rewrite Hp. split; [|exact Hg].
    destruct (add_entry_cases line st) as [_ [-> | ->]].
    + apply sublist_inserts_r, He.
    + rewrite app_assoc. apply sublist_app; [exact He | reflexivity].
Qed.

Lemma run_order lines st acc_e acc_g :
  at_last st -> at_last_sub st ->
  flat_map entries (all_groups (categories st)) ++ cur_entries st `sublist_of` acc_e ->
  map group_title (all_groups (categories st)) ++ pending_group st `sublist_of` acc_g ->
  at_last_sub (run st lines)
  /\ flat_map entries (all_groups (categories (run st lines))) ++ cur_entries (run st lines)
       `sublist_of` acc_e ++ entry_lines lines
  /\ map group_title (all_groups (categories (run st lines))) ++ pending_group (run st lines)
       `sublist_of` acc_g ++ group_headings lines.
Proof.
  revert st acc_e acc_g.
  induction lines as [|l lines IH]; intros st acc_e acc_g H1 H2 He Hg.
  - cbn. rewrite !app_nil_r. auto.
  - rewrite run_cons, step_classify.
    destruct (exec_order st (classify l) acc_e acc_g H2 He Hg) as [He' Hg'].
    destruct (exec_sub_titles st (classify l) H1) as [H1' _].
    pose proof (at_last_sub_exec st (classify l) H1 H2) as H2'.
    destruct (IH _ _ _ H1' H2' He' Hg') as (H3 & H4 & H5).
    unfold entry_lines, group_headings. cbn [flat_map].
    rewrite !app_assoc. auto.
Qed.

Lemma parse_lines_order lines :
  all_entries (parse_lines lines) `sublist_of` entry_lines lines
  /\ map group_title (all_groups (parse_lines lines)) `sublist_of` group_headings lines.
Proof.
  destruct (run_order lines init [] []) as (H2 & He & Hg);
    [reflexivity | exact I | reflexivity | reflexivity |].
  cbn [app] in He, Hg.
  destruct (exec_order (run init lines) NumericHeading _ _ H2 He Hg) as [He' Hg'].
  cbn [exec kind_entry kind_group] in He', Hg'.
  change (cur_entries (flush_group (run init lines))) with (@nil str) in He'.
  change (pending_group (flush_group (run init lines))) with (@nil str) in Hg'.
  rewrite ?app_nil_r in He', Hg'. split; assumption.
Qed.

(** X6: the entries of the parsed tree, read group after group, keep the
    order of the text lines of the input: they are what is left of the
    normalized text lines after some of them have been dropped; none is
    repeated, moved or made up. *)
Theorem X6_entries_keep_order lines :
  all_entries (parse_lines lines) `sublist_of` entry_lines lines.
Proof. apply parse_lines_order. Qed.

(** X8: the group titles of the parsed tree keep the order of the group
    headings of the input: they are the normalized titles of some of the
    group headings, in the order of the input. *)
Theorem X8_groups_keep_order lines :
  map group_title (all_groups (parse_lines lines)) `sublist_of` group_headings lines.
Proof. apply parse_lines_order. Qed.

(** * Numeric section headings *)

Lemma run_at_last lines st :
  at_last st -> at_last_sub st ->
  at_last (run st lines) /\ at_last_sub (run st lines).
Proof.
  revert st. induction lines as [|l lines IH]; intros st H1 H2; [auto|].
  rewrite run_cons, step_classify. apply IH.
  - apply (exec_sub_titles st (classify l) H1).
  - apply at_last_sub_exec; assumption.
Qed.

Lemma flush_group_groups_prefix st :
  at_last_sub st ->
  all_groups (categories st) `prefix_of` all_groups (categories (flush_group st)).
Proof.
  intros H. destruct (flush_group_groups st H) as [-> | (t & r & _ & _ & _ & ->)].
  - reflexivity.
  - apply prefix_app_r. reflexivity.
Qed.

(** No line takes a group out of the tree or changes one: the groups
    made so far stay in front. *)
Lemma exec_groups_prefix st k :
  at_last_sub st ->
  all_groups (categories st) `prefix_of` all_groups (categories (exec st k)).
Proof.
  intros H. pose proof (flush_group_groups_prefix st H) as Hf.
  destruct k as [| | | |title|n name|title|line]; cbn [exec].
  - reflexivity.
  - reflexivity.
  - reflexivity.
  - exact Hf.
  - rewrite new_category_groups. exact Hf.
  - rewrite new_subcategory_groups. exact Hf.
  - exact Hf.
  - rewrite add_entry_categories. reflexivity.
Qed.

Lemma run_groups_prefix lines st :
  at_last st -> at_last_sub st ->
  all_groups (categories st) `prefix_of` all_groups (categories (run st lines)).
Proof.
  revert st. induction lines as [|l lines IH]; intros st H1 H2; [reflexivity|].
  rewrite run_cons, step_classify.
  etransitivity; [apply exec_groups_prefix, H2|].
  apply IH.
  - apply (exec_sub_titles st (classify l) H1).
  - apply at_last_sub_exec; assumption.
Qed.

(** C4: a bold line whose title starts with digits and a blank and is not
    subcategory-shaped only flushes the pending group: the state after it
    is [flush_group] of the state before it, with the same categories and
    subcategories.  Up to the next group heading no group is pending, so
    that the lines that are not bold have no effect: the parse is the
    same without them.  The flush is a real one: where the lines [pre]
    before the heading leave a group pending under a subcategory, the
    heading puts that group, with its normalized title and the entries
    collected so far, behind all groups of the tree, and there it is in
    the parse of the whole input; where nothing is pending or there is
    no subcategory, the tree stays as it is. *)
Theorem C4_numeric_heading_dropped st pre x mid post g1 :
  BOLD_RE_match (strip x) = Some g1 ->
  numeric_heading_match (strip g1) = true ->
  SUBCATEGORY_RE_match (strip g1) = None ->
  (forall l, In l mid -> is_group_heading l = false) ->
  step st x = flush_group st /\
  map cat_title (categories (step st x)) = map cat_title (categories st) /\
  sub_titles (categories (step st x)) = sub_titles (categories st) /\
  cur_group_title (run (step st x) mid) = None /\
  cur_entries (run (step st x) mid) = [] /\
  run (step st x) mid = run (step st x) (List.filter is_bold mid) /\
  parse_lines (pre ++ x :: mid ++ post)
  = parse_lines (pre ++ x :: List.filter is_bold mid ++ post) /\
  (forall title r,
     cur_group_title (run init pre) = Some title -> truthy title = true ->
     cur_sub (run init pre) = Some r ->
     all_groups (categories (step (run init pre) x))
     = all_groups (categories (run init pre))
       ++ [mkGroup (_normalize_group_title title) (cur_entries (run init pre)) []]
     /\ all_groups (categories (step (run init pre) x))
          `prefix_of` all_groups (parse_lines (pre ++ x :: mid ++ post))) /\
  (pending (cur_group_title (run init pre)) = false \/ cur_sub (run init pre) = None ->
   categories (step (run init pre) x) = categories (run init pre)).
Proof.
  intros Hb Hn Hs Hm.
  assert (Hx : forall s, step s x = flush_group s).
  { intros s. rewrite step_classify, (classify_numeric _ _ Hb Hn Hs). reflexivity. }
  split; [apply Hx|].
  split; [rewrite Hx; apply flush_group_cat_titles|].
  split; [rewrite Hx; apply flush_group_sub_titles|].
  destruct (idle_run (step st x) mid) as [[Ht He] Hr];
    [rewrite Hx; apply flush_group_idle | exact Hm |].
  split; [exact Ht|]. split; [exact He|]. split; [exact Hr|].
  split; [|split].
  - rewrite !parse_lines_app, !run_cons, !run_app.
    destruct (idle_run (step (run init pre) x) mid) as [_ ->];
      [rewrite Hx; apply flush_group_idle | exact Hm |].
    reflexivity.
  - intros title r Et Ht' Er.
    destruct (run_at_last pre init) as [H1 H2]; [reflexivity | exact I |].
    split.
    + rewrite Hx.
      destruct (flush_group_groups _ H2) as [E | (t' & r' & Et' & _ & _ & E)].
      * exfalso. revert E. unfold flush_group. rewrite Et, Er, Ht'.
        cbn [categories]. destruct r as [ci si].
        unfold at_last_sub in H2. rewrite Er in H2.
        destruct H2 as (front & c & fs & s & Hc & -> & Hsub & ->).
        rewrite Hc, (append_group_last front c fs s _ Hsub).
        intros E. apply (f_equal (@length Group)) in E.
        rewrite length_app in E. cbn in E. lia.
      * rewrite Et in Et'. injection Et' as <-. exact E.
    + unfold parse_lines. rewrite run_app, run_cons.
      etransitivity; [|apply flush_group_groups_prefix].
      * apply run_groups_prefix.
        -- rewrite Hx. apply at_last_flush_group, H1.
        -- rewrite Hx. apply at_last_sub_flush_group, H2.
      * apply run_at_last.
        -- rewrite Hx. apply at_last_flush_group, H1.
        -- rewrite Hx. apply at_last_sub_flush_group, H2.
  - intros H. rewrite Hx. unfold flush_group. cbn [categories].
    destruct (cur_group_title (run init pre)) as [t|]; [|reflexivity].
    destruct (cur_sub (run init pre)) as [r|]; [|reflexivity].
    destruct H as [H|H]; [|discriminate H].
    cbn in H. rewrite H. reflexivity.
Qed.

Lemma C4_witness :
  parse_lines ([u "**一、人体类**"; u "**1. 手臂动作**"; u "**挥手**"; u "抬起手臂"]
               ++ u "**10 分类细目**"
               :: [u "放下手臂"; u "**2. 腿部动作**"; u "抬腿"] ++ [u "**踢**"; u "踢腿"])
  = parse_lines ([u "**一、人体类**"; u "**1. 手臂动作**"; u "**挥手**"; u "抬起手臂"]
                 ++ u "**10 分类细目**"
                 :: List.filter is_bold [u "放下手臂"; u "**2. 腿部动作**"; u "抬腿"]
                 ++ [u "**踢**"; u "踢腿"])
  /\ all_groups
       (categories
          (step (run init [u "**一、人体类**"; u "**1. 手臂动作**"; u "**挥手**"; u "抬起手臂"])
                (u "**10 分类细目**")))
     = all_groups
         (categories
            (run init [u "**一、人体类**"; u "**1. 手臂动作**"; u "**挥手**"; u "抬起手臂"]))
       ++ [mkGroup (u "挥手") [u "抬起手臂"] []].
Proof.
  destruct (C4_numeric_heading_dropped init
              [u "**一、人体类**"; u "**1. 手臂动作**"; u "**挥手**"; u "抬起手臂"]
              (u "**10 分类细目**")
              [u "放下手臂"; u "**2. 腿部动作**"; u "抬腿"]
              [u "**踢**"; u "踢腿"] (u "10 分类细目"))
    as (_ & _ & _ & _ & _ & _ & Hp & Hg & _).
  - vm_compute. reflexivity.
  - vm_compute. reflexivity.
  - vm_compute. reflexivity.
  - intros l Hl. simpl in Hl.
    destruct Hl as [<-|[<-|[<-|[]]]]; vm_compute; reflexivity.
  - split; [exact Hp|].
    apply (Hg (u "挥手") (0%nat, 0%nat)); vm_compute; reflexivity.
Defined.

(** * Well-formed outlines lose nothing *)

Lemma pending_group_pending st :
  pending (cur_group_title st) = false -> pending_group st = [].
Proof.
  unfold pending, pending_group.
  destruct (cur_group_title st) as [t|]; [|reflexivity]. intros ->. reflexivity.
Qed.

Lemma flush_group_exact st hs hg :
  at_last_sub st -> flags st hs hg ->
  flat_map entries (all_groups (categories (flush_group st)))
  = flat_map entries (all_groups (categories st)) ++ cur_entries st
  /\ map group_title (all_groups (categories (flush_group st)))
     = map group_title (all_groups (categories st)) ++ pending_group st.
Proof.
  intros Hl (Hs & Hp & Himp & He).
  destruct hg.
  - specialize (Himp eq_refl). subst hs.
    unfold at_last_sub in Hl. unfold pending in Hp.
    unfold flush_group, pending_group. cbn [categories].
    destruct (cur_group_title st) as [t|]; [|discriminate].
    destruct (cur_sub st) as [[ci si]|]; [|discriminate].
    rewrite Hp.
    destruct Hl as (front & c & fs & s & Hc & -> & Hsub & ->).
    rewrite Hc, (append_group_last front c fs s _ Hsub).
    rewrite flat_map_app, map_app. cbn. rewrite app_nil_r. auto.
  - rewrite (He eq_refl), (pending_group_pending _ Hp), ?app_nil_r.
    unfold pending in Hp. unfold flush_group. cbn [categories].
    destruct (cur_group_title st) as [t|]; [|auto].
    rewrite Hp. destruct (cur_sub st); auto.
Qed.

Lemma flags_flush_group st hs hg : flags st hs hg -> flags (flush_group st) hs false.
Proof. intros (Hs & _). repeat split; [exact Hs | discriminate]. Qed.

Lemma exec_exact st k hs hg :
  at_last_sub st -> flags st hs hg -> kind_ok k hs hg = true ->
  flags (exec st k) (next_flags k hs hg).1 (next_flags k hs hg).2
  /\ flat_map entries (all_groups (categories (exec st k))) ++ cur_entries (exec st k)
     = (flat_map entries (all_groups (categories st)) ++ cur_entries st)
       ++ kind_entry k
  /\ map group_title (all_groups (categories (exec st k))) ++ pending_group (exec st k)
     = (map group_title (all_groups (categories st)) ++ pending_group st)
       ++ kind_group k.
Proof.
  intros Hl Hf Hok.
  destruct (flush_group_exact st hs hg Hl Hf) as [Fe Fg].
  pose proof (flags_flush_group _ _ _ Hf) as Hff.
  destruct k as [| | | |title|n name|title|line];
    cbn [exec next_flags kind_entry kind_group kind_ok fst snd] in *.
  - rewrite ?app_nil_r. auto.
  - rewrite ?app_nil_r. auto.
  - rewrite ?app_nil_r. auto.
  - rewrite ?app_nil_r. split; [exact Hff|].
    change (cur_entries (flush_group st)) with (@nil str).
    change (pending_group (flush_group st)) with (@nil str).
    rewrite ?app_nil_r. auto.
  - rewrite new_category_groups.
    change (cur_entries (new_category title (flush_group st))) with (@nil str).
    change (pending_group (new_category title (flush_group st))) with (@nil str).
    rewrite ?app_nil_r. split; [|auto].
    repeat split; discriminate.
  - rewrite new_subcategory_groups, new_subcategory_entries.
    unfold pending_group at 1. rewrite new_subcategory_title.
    cbn [flush_group cur_entries cur_group_title]. rewrite ?app_nil_r.
    split; [|auto].
    split; [unfold new_subcategory; destruct (cur_cat (flush_group st)); reflexivity|].
    split; [rewrite new_subcategory_title; reflexivity|].
    split; [discriminate|].
    intros _. rewrite new_subcategory_entries. reflexivity.
  - rewrite ?app_nil_r. subst hs. split.
    + destruct Hf as (Hs & _).
      split; [exact Hs|]. split; [reflexivity|].
      split; intros _; reflexivity.
    + split; [exact Fe|]. unfold pending_group at 1.
      cbn [categories cur_group_title]. rewrite Fg. reflexivity.
  - rewrite add_entry_categories.
    destruct Hf as (Hs & Hp & Himp & He).
    unfold add_entry, pending_group. rewrite Hp.
    destruct hg; cbn [orb] in Hok.
    + destruct (truthy (_normalize_entry line)); cbn [cur_entries cur_sub cur_group_title].
      * rewrite ?app_nil_r, app_assoc. repeat split; auto. discriminate.
      * rewrite ?app_nil_r. repeat split; auto; discriminate.
    + apply negb_true_iff in Hok. rewrite Hok, ?app_nil_r.
      repeat split; auto.
Qed.

Lemma run_exact lines st hs hg :
  at_last st -> at_last_sub st -> flags st hs hg ->
  well_formed hs hg lines = true ->
  flat_map entries (all_groups (categories (flush_group (run st lines))))
  = (flat_map entries (all_groups (categories st)) ++ cur_entries st)
    ++ entry_lines lines
  /\ map group_title (all_groups (categories (flush_group (run st lines))))
     = (map group_title (all_groups (categories st)) ++ pending_group st)
       ++ group_headings lines.
Proof.
  revert st hs hg. induction lines as [|l lines IH]; intros st hs hg H1 H2 Hf Hw.
  - cbn [run fold_left entry_lines group_headings flat_map].
    rewrite ?app_nil_r. eapply flush_group_exact; eassumption.
  - cbn [well_formed] in Hw. apply andb_true_iff in Hw as [Hok Hw].
    rewrite run_cons, step_classify.
    destruct (exec_exact st (classify l) hs hg H2 Hf Hok) as (Hf' & Ee & Eg).
    destruct (exec_sub_titles st (classify l) H1) as [H1' _].
    pose proof (at_last_sub_exec st (classify l) H1 H2) as H2'.
    destruct (IH _ _ _ H1' H2' Hf' Hw) as [-> ->].
    rewrite Ee, Eg. unfold entry_lines, group_headings. cbn [flat_map].
    rewrite !app_assoc. auto.
Qed.

(** X9: in an outline where every group heading comes under a
    subcategory and every entry under a group, nothing is lost: the
    entries of the parsed tree are exactly the normalized text lines that
    are not empty, and its groups exactly the group headings, all in the
    order of the input. *)
Theorem X9_well_formed_outline_complete lines :
  well_formed false false lines = true ->
  all_entries (parse_lines lines) = entry_lines lines
  /\ map group_title (all_groups (parse_lines lines)) = group_headings lines.
Proof.
  intros Hw.
  destruct (run_exact lines init false false) as [He Hg];
    [reflexivity | exact I | repeat split; auto | exact Hw |].
  split; [exact He | exact Hg].
Qed.

Lemma X9_witness :
  all_entries (parse_lines example_lines) = entry_lines example_lines
  /\ map group_title (all_groups (parse_lines example_lines))
     = group_headings example_lines.
Proof.
  apply X9_well_formed_outline_complete. vm_compute. reflexivity.
Defined.

(** * Escaping *)

Arguments html_escape : simpl never.

Lemma replace_char_app old new a b :
  replace_char old new (a ++ b) = replace_char old new a ++ replace_char old new b.
Proof. apply flat_map_app. Qed.

Lemma html_escape_app a b : html_escape (a ++ b) = html_escape a ++ html_escape b.
Proof. unfold html_escape. rewrite !replace_char_app. reflexivity. Qed.

Lemma html_escape_char c : html_escape [c] = entity c.
Proof.
  unfold entity.
  destruct (N.eqb_spec c AMP) as [->|H1]; [reflexivity|].
  destruct (N.eqb_spec c LT) as [->|H2]; [reflexivity|].
  destruct (N.eqb_spec c GT) as [->|H3]; [reflexivity|].
  destruct (N.eqb_spec c QUOTE) as [->|H4]; [reflexivity|].
  destruct (N.eqb_spec c APOS) as [->|H5]; [reflexivity|].
  apply N.eqb_neq in H1, H2, H3, H4, H5.
  unfold html_escape, replace_char. cbn [flat_map app].
  rewrite H1. cbn [flat_map app]. rewrite H2. cbn [flat_map app].
  rewrite H3. cbn [flat_map app]. rewrite H4. cbn [flat_map app].
  rewrite H5. reflexivity.
Qed.

Lemma html_escape_entities s : html_escape s = flat_map entity s.
Proof.
  induction s as [|c r IH]; [reflexivity|].
  change (c :: r) with ([c] ++ r).
  rewrite html_escape_app, html_escape_char, IH. reflexivity.
Qed.

Lemma entity_markup_free c : Forall markup_free (entity c).
Proof.
  unfold entity.
  destruct (N.eqb_spec c AMP); [repeat constructor; discriminate|].
  destruct (N.eqb_spec c LT); [repeat constructor; discriminate|].
  destruct (N.eqb_spec c GT); [repeat constructor; discriminate|].
  destruct (N.eqb_spec c QUOTE); [repeat constructor; discriminate|].
  destruct (N.eqb_spec c APOS); [repeat constructor; discriminate|].
  repeat constructor; assumption.
Qed.

(** X10: text that went through [html.escape] holds no angle bracket and
    no quote, so that a title cannot close the attribute value or the
    element it is written into. *)
Theorem X10_escaped_text_markup_free s : Forall markup_free (html_escape s).
Proof.
  rewrite html_escape_entities.
  induction s as [|c r IH]; [constructor|].
  cbn [flat_map]. apply Forall_app. split; [apply entity_markup_free | exact IH].
Qed.

Lemma entity_inj x y a b :
  entity x ++ a = entity y ++ b -> x = y /\ a = b.
Proof.
  unfold entity.
  destruct (N.eqb_spec x AMP) as [->|X1];
    [|destruct (N.eqb_spec x LT) as [->|X2];
      [|destruct (N.eqb_spec x GT) as [->|X3];
        [|destruct (N.eqb_spec x QUOTE) as [->|X4];
          [|destruct (N.eqb_spec x APOS) as [->|X5]]]]];
  (destruct (N.eqb_spec y AMP) as [->|Y1];
    [|destruct (N.eqb_spec y LT) as [->|Y2];
      [|destruct (N.eqb_spec y GT) as [->|Y3];
        [|destruct (N.eqb_spec y QUOTE) as [->|Y4];
          [|destruct (N.eqb_spec y APOS) as [->|Y5]]]]]);
  cbn; intros E; try discriminate E;
  try (injection E; intros; subst; auto; fail);
  try (injection E; intros; subst; contradiction).
Qed.

Lemma entity_nonempty c : entity c <> [].
Proof.
  unfold entity.
  repeat match goal with |- context [?a =? ?b] => destruct (a =? b) end;
    discriminate.
Qed.

(** X11: [html.escape] is one-to-one: different titles stay different
    after escaping, and the title can be read back from the escaped
    text. *)
Theorem X11_escape_one_to_one s t : html_escape s = html_escape t -> s = t.
Proof.
  rewrite !html_escape_entities. revert t.
  induction s as [|x s IH]; intros [|y t]; cbn [flat_map]; intros E.
  - reflexivity.
  - symmetry in E. apply app_eq_nil in E as [E _]. destruct (entity_nonempty _ E).
  - apply app_eq_nil in E as [E _]. destruct (entity_nonempty _ E).
  - apply entity_inj in E as [-> E]. rewrite (IH _ E). reflexivity.
Qed.

Lemma X11_witness : u "a<b&c" = u "a<b&c".
Proof. apply X11_escape_one_to_one. vm_compute. reflexivity. Defined.

(** * The table of contents *)

Arguments attr : simpl never.
Arguments site_local : simpl never.

Lemma lstrip_char_nonempty ch c (s : str) :
  c <> ch -> lstrip_char ch (c :: s) = c :: s.
Proof. intros H. cbn. apply N.eqb_neq in H. rewrite H. reflexivity. Qed.

(** [rstrip] leaves what stands in front of a character that stays. *)
Lemma rstrip_char_app ch (a b : str) c :
  c <> ch -> rstrip_char ch (a ++ c :: b) = a ++ c :: rstrip_char ch b.
Proof.
  intros Hc. unfold rstrip_char. rewrite rev_app_distr. cbn [rev].
  destruct (lstrip_char ch (rev b)) as [|x r] eqn:E.
  - assert (H : lstrip_char ch ((rev b ++ [c]) ++ rev a) = c :: rev a).
    { clear -E Hc. rewrite <- app_assoc. cbn [app].
      induction (rev b) as [|y l IH]; cbn in *.
      - apply N.eqb_neq in Hc. rewrite Hc. reflexivity.
      - destruct (y =? ch); [apply IH, E | discriminate]. }
    rewrite H. cbn. rewrite rev_involutive. reflexivity.
  - assert (H : lstrip_char ch ((rev b ++ [c]) ++ rev a) = (x :: r) ++ [c] ++ rev a).
    { clear -E. rewrite <- app_assoc.
      induction (rev b) as [|y l IH]; cbn in *; [discriminate|].
      destruct (y =? ch); [apply IH, E|]. injection E as -> ->. reflexivity. }
    rewrite H, !rev_app_distr, rev_involutive. cbn [rev app].
    rewrite <- app_assoc. reflexivity.
Qed.

Lemma obj_eq name file :
  obj name (Some (site_local file)) = object_line (name, file) ++ [NL].
Proof.
  unfold obj, object_line.
  change (truthy (site_local file)) with true. cbv iota.
  match goal with
  | |- context [join ?sep ([?a] ++ [?b])] =>
      change (join sep ([a] ++ [b])) with (a ++ sep ++ b)
  end.
  cbn [fst snd]. rewrite <- !app_assoc. reflexivity.
Qed.

Lemma object_line_last node : exists x, object_line node = x ++ [GT].
Proof.
  unfold object_line.
  change (u "  </OBJECT>") with (u "  </OBJECT" ++ [GT]).
  eexists. rewrite !app_assoc. reflexivity.
Qed.

Lemma obj_object_line name file :
  rstrip_char NL (obj name (Some (site_local file))) = object_line (name, file).
Proof.
  rewrite obj_eq. destruct (object_line_last (name, file)) as [x ->].
  rewrite <- app_assoc. change ([GT] ++ [NL]) with (GT :: [NL]).
  rewrite rstrip_char_app by discriminate. reflexivity.
Qed.

Lemma outline_cons c r : outline (c :: r) = outline [c] ++ outline r.
Proof. unfold outline. cbn [flat_map]. rewrite app_nil_r. reflexivity. Qed.

Lemma outline_files cats :
  map snd (outline cats) = drop 2 (site_paths cats).
Proof.
  unfold site_paths.
  match goal with |- _ = drop 2 ([_; _] ++ ?x) => change (drop 2 ([_; _] ++ x)) with x end.
  unfold outline.
  induction cats as [|c r IH]; [reflexivity|].
  cbn [flat_map]. rewrite map_app, IH. f_equal.
  cbn [map snd]. f_equal.
  induction (subcategories c) as [|s t IHs]; [reflexivity|].
  cbn [flat_map]. rewrite map_app, IHs. cbn [map snd]. rewrite map_map.
  reflexivity.
Qed.

(** * The pages written *)

Lemma sub_pages_perm subs :
  Permutation
    (flat_map (fun s => sub_file s :: map group_file (groups s)) subs)
    (map sub_file subs ++ map group_file (flat_map groups subs)).
Proof.
  induction subs as [|s r IH]; [reflexivity|].
  cbn [flat_map map app]. constructor.
  rewrite IH, map_app, !app_assoc.
  apply Permutation_app_tail, Permutation_app_comm.
Qed.

Lemma site_pages_perm cats :
  Permutation
    (flat_map
       (fun c =>
          cat_file c
          :: flat_map (fun s => sub_file s :: map group_file (groups s))
                      (subcategories c))
       cats)
    (all_files cats).
Proof.
  unfold all_files, all_groups, all_subcategories.
  induction cats as [|c r IH]; [reflexivity|].
  cbn [flat_map map app]. constructor.
  rewrite IH, sub_pages_perm, !map_app, !flat_map_app, !map_app.
  set (a := map sub_file (subcategories c)).
  set (b := map group_file (flat_map groups (subcategories c))).
  set (x := map cat_file r).
  set (y := map sub_file (flat_map subcategories r)).
  set (z := map group_file (flat_map groups (flat_map subcategories r))).
  rewrite <- !app_assoc.
  transitivity (x ++ a ++ b ++ y ++ z).
  - rewrite !app_assoc. do 2 apply Permutation_app_tail.
    rewrite <- (app_assoc x a b). apply Permutation_app_comm.
  - apply Permutation_app_head, Permutation_app_head.
    rewrite !app_assoc. apply Permutation_app_tail, Permutation_app_comm.
Qed.

Lemma node_filename_head x :
  exists r, node_filename x = 0x63 :: r \/ node_filename x = 0x67 :: r.
Proof.
  destruct x; cbn [node_filename];
    rewrite ?cat_filename_eq, ?sub_filename_eq, ?group_filename_eq; eauto.
Qed.

Lemma all_files_NoDup cats : List.NoDup (all_files (assign_filenames cats)).
Proof.
  rewrite all_files_nodes.
  apply NoDup_map_inj; [apply node_filename_inj | apply nodes_NoDup].
Qed.

Lemma all_files_length cats :
  length (all_files cats)
  = (length cats + length (all_subcategories cats) + length (all_groups cats))%nat.
Proof. unfold all_files. rewrite !length_app, !length_map. lia. Qed.

Lemma assign_filenames_counts cats :
  length (assign_filenames cats) = length cats
  /\ length (all_subcategories (assign_filenames cats)) = length (all_subcategories cats)
  /\ length (all_groups (assign_filenames cats)) = length (all_groups cats).
Proof.
  unfold assign_filenames.
  destruct (number_categories_spec (name_categories 1 cats) 0) as (_ & H1 & H2 & H3).
  destruct (name_categories_spec cats 1) as (G1 & G2 & G3).
  apply (f_equal (@length _)) in H1, H2, H3, G1, G2.
  rewrite !length_map in H1, H2, H3, G1, G2.
  rewrite length_seq in H3, G1. rewrite G3 in H3.
  repeat split; [congruence | | exact H3].
  rewrite H2, G2. clear.
  generalize 1%nat. induction cats as [|c r IH]; intros i; [reflexivity|].
  cbn [sub_nodes all_subcategories flat_map].
  rewrite !length_app, length_map, length_seq. f_equal. apply IH.
Qed.

(** X13: the pages of one build all have different paths, so that no
    page overwrites another: the stylesheet, the index and one page for
    every category, subcategory and group of the tree. *)
Theorem X13_pages_distinct cats :
  List.NoDup (site_paths (assign_filenames cats))
  /\ length (site_paths (assign_filenames cats))
     = (2 + length cats + length (all_subcategories cats)
        + length (all_groups cats))%nat.
Proof.
  pose proof (site_pages_perm (assign_filenames cats)) as Hp.
  assert (Hn : forall p, In p (all_files (assign_filenames cats)) ->
                         p <> u "style.css" /\ p <> u "index.html").
  { intros p Hin. rewrite all_files_nodes in Hin.
    apply in_map_iff in Hin as (x & <- & _).
    destruct (node_filename_head x) as (r & [-> | ->]); split; discriminate. }
  unfold site_paths. cbn [app]. split.
  - constructor; [|constructor].
    + intros [H|H]; [discriminate H|].
      apply (Permutation_in _ Hp) in H. destruct (Hn _ H) as [H1 _]. congruence.
    + intros H. apply (Permutation_in _ Hp) in H.
      destruct (Hn _ H) as [_ H2]. congruence.
    + eapply Permutation_NoDup; [symmetry; exact Hp | apply all_files_NoDup].
  - cbn [length]. rewrite (Permutation_length Hp), all_files_length.
    destruct (assign_filenames_counts cats) as (-> & -> & ->). lia.
Qed.

(** * What the filename assignment leaves alone *)

Lemma bare_name_subcategories i j subs :
  map bare_subcategory (name_subcategories i j subs) = map bare_subcategory subs.
Proof.
  revert j. induction subs as [|s r IH]; intros j; [reflexivity|].
  cbn. rewrite IH. reflexivity.
Qed.

Lemma bare_name_categories i cats :
  map bare_category (name_categories i cats) = map bare_category cats.
Proof.
  revert i. induction cats as [|c r IH]; intros i; [reflexivity|].
  cbn. rewrite IH. unfold bare_category at 1 3. cbn.
  rewrite bare_name_subcategories. reflexivity.
Qed.

Lemma bare_number_groups k gs :
  map bare_group (number_groups k gs).1 = map bare_group gs.
Proof.
  revert k. induction gs as [|g r IH]; intros k; [reflexivity|].
  cbn. specialize (IH (S k)). destruct (number_groups (S k) r) as [r' k'].
  cbn in *. rewrite IH. reflexivity.
Qed.

Lemma bare_number_subcategories k subs :
  map bare_subcategory (number_subcategories k subs).1 = map bare_subcategory subs.
Proof.
  revert k. induction subs as [|s r IH]; intros k; [reflexivity|].
  cbn. pose proof (bare_number_groups k (groups s)) as G.
  destruct (number_groups k (groups s)) as [gs k1].
  specialize (IH k1). destruct (number_subcategories k1 r) as [r' k2].
  cbn in *. rewrite IH. unfold bare_subcategory at 1 3. cbn. rewrite G.
  reflexivity.
Qed.

Lemma bare_number_categories k cats :
  map bare_category (number_categories k cats).1 = map bare_category cats.
Proof.
  revert k. induction cats as [|c r IH]; intros k; [reflexivity|].
  cbn. pose proof (bare_number_subcategories k (subcategories c)) as G.
  destruct (number_subcategories k (subcategories c)) as [subs k1].
  specialize (IH k1). destruct (number_categories k1 r) as [r' k2].
  cbn in *. rewrite IH. unfold bare_category at 1 3. cbn. rewrite G.
  reflexivity.
Qed.

Lemma name_subcategories_again i j i' j' subs :
  name_subcategories i j (name_subcategories i' j' subs) = name_subcategories i j subs.
Proof.
  revert j j'. induction subs as [|s r IH]; intros j j'; [reflexivity|].
  cbn. rewrite IH. reflexivity.
Qed.

Lemma name_categories_again i i' cats :
  name_categories i (name_categories i' cats) = name_categories i cats.
Proof.
  revert i i'. induction cats as [|c r IH]; intros i i'; [reflexivity|].
  cbn. rewrite IH, name_subcategories_again. reflexivity.
Qed.

Lemma number_groups_again k k' gs :
  number_groups k (number_groups k' gs).1 = number_groups k gs.
Proof.
  revert k k'. induction gs as [|g r IH]; intros k k'; [reflexivity|].
  cbn. specialize (IH (S k) (S k')).
  destruct (number_groups (S k') r) as [r1 k1]. cbn in *. rewrite IH.
  destruct (number_groups (S k) r) as [r2 k2]. reflexivity.
Qed.

Lemma number_subcategories_again k k' subs :
  number_subcategories k (number_subcategories k' subs).1
  = number_subcategories k subs.
Proof.
  revert k k'. induction subs as [|s r IH]; intros k k'; [reflexivity|].
  cbn. pose proof (number_groups_again k k' (groups s)) as G.
  destruct (number_groups k' (groups s)) as [g1 k1].
  destruct (number_subcategories k1 r) as [r1 k2] eqn:E1. cbn in *.
  rewrite G. destruct (number_groups k (groups s)) as [g2 k3].
  specialize (IH k3 k1). rewrite E1 in IH. cbn in IH. rewrite IH.
  destruct (number_subcategories k3 r) as [r2 k4]. reflexivity.
Qed.

Lemma number_categories_again k k' cats :
  number_categories k (number_categories k' cats).1 = number_categories k cats.
Proof.
  revert k k'. induction cats as [|c r IH]; intros k k'; [reflexivity|].
  cbn. pose proof (number_subcategories_again k k' (subcategories c)) as G.
  destruct (number_subcategories k' (subcategories c)) as [s1 k1].
  destruct (number_categories k1 r) as [r1 k2] eqn:E1. cbn in *.
  rewrite G. destruct (number_subcategories k (subcategories c)) as [s2 k3].
  specialize (IH k3 k1). rewrite E1 in IH. cbn in IH. rewrite IH.
  destruct (number_categories k3 r) as [r2 k4]. reflexivity.
Qed.

Lemma name_number_subcategories i j k subs :
  name_subcategories i j (number_subcategories k subs).1
  = (number_subcategories k (name_subcategories i j subs)).1
  /\ (number_subcategories k (name_subcategories i j subs)).2
     = (number_subcategories k subs).2.
Proof.
  revert j k. induction subs as [|s r IH]; intros j k; [auto|].
  cbn. destruct (number_groups k (groups s)) as [g1 k1].
  specialize (IH (S j) k1).
  destruct (number_subcategories k1 r) as [r1 k2].
  destruct (number_subcategories k1 (name_subcategories i (S j) r)) as [r2 k3].
  cbn in *. destruct IH as [-> ->]. auto.
Qed.

Lemma name_number_categories i k cats :
  name_categories i (number_categories k cats).1
  = (number_categories k (name_categories i cats)).1
  /\ (number_categories k (name_categories i cats)).2
     = (number_categories k cats).2.
Proof.
  revert i k. induction cats as [|c r IH]; intros i k; [auto|].
  cbn. destruct (name_number_subcategories i 1 k (subcategories c)) as [G1 G2].
  destruct (number_subcategories k (subcategories c)) as [s1 k1].
  destruct (number_subcategories k (name_subcategories i 1 (subcategories c)))
    as [s2 k1'].
  cbn in G1, G2. subst k1'.
  specialize (IH (S i) k1).
  destruct (number_categories k1 r) as [r1 k2].
  destruct (number_categories k1 (name_categories (S i) r)) as [r2 k3].
  cbn in *. destruct IH as [-> ->]. rewrite G1. auto.
Qed.

(** X14: the filename assignment of [build_site] changes nothing but the
    filenames: titles, entries and the order of the nodes stay as the
    parser left them; and the names given do not depend on the filenames
    that were there before, so that a second assignment gives the same
    names. *)
Theorem X14_assignment_keeps_tree cats :
  map bare_category (assign_filenames cats) = map bare_category cats
  /\ assign_filenames (assign_filenames cats) = assign_filenames cats.
Proof.
  unfold assign_filenames. split.
  - rewrite bare_number_categories, bare_name_categories. reflexivity.
  - destruct (name_number_categories 1 0 (name_categories 1 cats)) as [-> _].
    rewrite name_categories_again, number_categories_again. reflexivity.
Qed.

(** * The project file *)

Lemma linebreak_nl c : is_linebreak c = false -> (c =? NL) = false.
Proof.
  intros H. destruct (N.eqb_spec c NL) as [->|]; [discriminate H | reflexivity].
Qed.

Lemma write_newlines_app nl a b :
  write_newlines nl (a ++ b) = write_newlines nl a ++ write_newlines nl b.
Proof. apply flat_map_app. Qed.

Lemma write_newlines_line nl l : break_free l = true -> write_newlines nl l = l.
Proof.
  induction l as [|c r IH]; [reflexivity|]. cbn.
  intros H. apply andb_true_iff in H as [Hc Hr].
  apply negb_true_iff, linebreak_nl in Hc. rewrite Hc.
  cbn. f_equal. apply IH, Hr.
Qed.

(** Written with [newline], lines joined by line feeds are the lines
    joined by [newline]. *)
Lemma write_newlines_join nl ls :
  forallb break_free ls = true ->
  write_newlines nl (join [NL] ls) = join nl ls.
Proof.
  induction ls as [|l r IH]; [reflexivity|]. cbn [forallb].
  intros H. apply andb_true_iff in H as [Hl Hr].
  destruct r as [|l2 r]; [apply write_newlines_line, Hl|].
  change (join [NL] (l :: l2 :: r)) with (l ++ [NL] ++ join [NL] (l2 :: r)).
  change (join nl (l :: l2 :: r)) with (l ++ nl ++ join nl (l2 :: r)).
  rewrite !write_newlines_app, (write_newlines_line _ _ Hl), (IH Hr).
  f_equal. f_equal. cbn. apply app_nil_r.
Qed.

Lemma drop_last_empty_snoc ls x :
  truthy x = true -> drop_last_empty (ls ++ [x]) = ls ++ [x].
Proof.
  intros Hx. induction ls as [|l r IH].
  - cbn. rewrite Hx. reflexivity.
  - assert (exists y t, r ++ [x] = y :: t) as (y & t & E)
      by (destruct r; cbn; eauto).
    change ((l :: r) ++ [x]) with (l :: (r ++ [x])). rewrite E in IH |- *.
    change (drop_last_empty (l :: y :: t)) with (l :: drop_last_empty (y :: t)).
    rewrite IH. reflexivity.
Qed.

(** X15: the text written to [project.hhp], with its CR LF line ends,
    splits back into the lines of the options block, the line [FILES]
    and then exactly the given files, one on a line, when no file name is
    empty or holds a line boundary. *)
Theorem X15_project_file_lines files :
  forallb (fun f => truthy f && break_free f) files = true ->
  splitlines (write_hhp files) = hhp_lines files
  /\ drop 11 (splitlines (write_hhp files)) = files.
Proof.
  intros H.
  assert (Hb : forallb break_free files = true).
  { rewrite forallb_forall in *. intros f Hf.
    specialize (H f Hf). apply andb_true_iff in H as [_ H]. exact H. }
  assert (Hl : forallb break_free (hhp_lines files) = true).
  { unfold hhp_lines. rewrite forallb_app, Hb. reflexivity. }
  assert (E : splitlines (write_hhp files) = hhp_lines files).
  { unfold write_hhp. rewrite (write_newlines_join _ _ Hl).
    rewrite splitlines_join by auto.
    destruct files as [|x fs _] using rev_ind; [reflexivity|].
    unfold hhp_lines. rewrite app_assoc. apply drop_last_empty_snoc.
    rewrite forallb_app in H. apply andb_true_iff in H as [_ H].
    cbn in H. rewrite andb_true_r in H. apply andb_true_iff in H as [H _].
    exact H. }
  split; [exact E|]. rewrite E. reflexivity.
Qed.

Lemma X15_witness :
  splitlines (write_hhp [u "site\c01.html"; u "site\index.html"])
  = hhp_lines [u "site\c01.html"; u "site\index.html"]
  /\ drop 11 (splitlines (write_hhp [u "site\c01.html"; u "site\index.html"]))
     = [u "site\c01.html"; u "site\index.html"].
Proof. apply X15_project_file_lines. vm_compute. reflexivity. Defined.

(** * The lines of the table of contents *)

Lemma terminated_app sep a b :
  terminated sep (a ++ b) = terminated sep a ++ terminated sep b.
Proof. apply flat_map_app. Qed.

Lemma join_terminated sep ls :
  ls <> [] -> join sep ls ++ sep = terminated sep ls.
Proof.
  induction ls as [|l r IH]; [congruence|]. intros _.
  destruct r as [|l2 r].
  - cbn. rewrite app_nil_r. reflexivity.
  - change (join sep (l :: l2 :: r)) with (l ++ sep ++ join sep (l2 :: r)).
    change (terminated sep (l :: l2 :: r))
      with ((l ++ sep) ++ terminated sep (l2 :: r)).
    rewrite <- IH by discriminate. rewrite <- !app_assoc. reflexivity.
Qed.

(** Two lists of lines with the same terminated text have the same
    joined text. *)
Lemma join_by_terminated sep a b :
  a <> [] -> b <> [] -> terminated sep a = terminated sep b ->
  join sep a = join sep b.
Proof.
  intros Ha Hb H. apply (app_inv_tail sep).
  rewrite !join_terminated by assumption. exact H.
Qed.

Lemma terminated_object name file :
  terminated [NL] [rstrip_char NL (obj name (Some (site_local file)))]
  = terminated [NL] (object_lines (name, file)).
Proof.
  rewrite obj_object_line. unfold object_lines, object_line, terminated.
  cbn [flat_map fst snd]. unfold object_open, name_param, local_param, object_close.
  rewrite <- !app_assoc. reflexivity.
Qed.

Lemma terminated_flat_map {A} sep (f g : A -> list str) l :
  (forall x, terminated sep (f x) = terminated sep (g x)) ->
  terminated sep (flat_map f l) = terminated sep (flat_map g l).
Proof.
  intros H. induction l as [|x l IH]; [reflexivity|].
  cbn [flat_map]. rewrite !terminated_app, H, IH. reflexivity.
Qed.

Lemma terminated_hhc_group g :
  terminated [NL] (hhc_group g) = terminated [NL] (toc_group g).
Proof.
  unfold hhc_group, toc_group.
  exact (terminated_object (group_title g) (group_file g)).
Qed.

Lemma terminated_hhc_subcategory s :
  terminated [NL] (hhc_subcategory s) = terminated [NL] (toc_subcategory s).
Proof.
  unfold hhc_subcategory, toc_subcategory.
  change [rstrip_char NL (obj (sub_title s) (Some (site_local (sub_file s))));
          u "    <UL>"]
    with ([rstrip_char NL (obj (sub_title s) (Some (site_local (sub_file s))))]
          ++ [u "    <UL>"]).
  rewrite !terminated_app, terminated_object.
  rewrite (terminated_flat_map _ _ _ _ terminated_hhc_group).
  rewrite <- !app_assoc. reflexivity.
Qed.

Lemma terminated_hhc_category c :
  terminated [NL] (hhc_category c) = terminated [NL] (toc_category c).
Proof.
  unfold hhc_category, toc_category.
  change [rstrip_char NL (obj (cat_title c) (Some (site_local (cat_file c))));
          u "  <UL>"]
    with ([rstrip_char NL (obj (cat_title c) (Some (site_local (cat_file c))))]
          ++ [u "  <UL>"]).
  rewrite !terminated_app, terminated_object.
  rewrite (terminated_flat_map _ _ _ _ terminated_hhc_subcategory).
  rewrite <- !app_assoc. reflexivity.
Qed.

(** The elements that [write_hhc] joins hold line feeds of their own;
    joined, they are the lines of [toc_lines] joined. *)
Lemma join_hhc_lines cats :
  join [NL] (hhc_lines cats) = join [NL] (toc_lines cats).
Proof.
  apply join_by_terminated; [discriminate | discriminate |].
  unfold hhc_lines, toc_lines. rewrite !terminated_app.
  rewrite (terminated_flat_map _ _ _ _ terminated_hhc_category). reflexivity.
Qed.

Lemma break_free_app a b : break_free (a ++ b) = break_free a && break_free b.
Proof. apply forallb_app. Qed.

Lemma break_free_replace_char old new s :
  break_free new = true -> break_free s = true ->
  break_free (replace_char old new s) = true.
Proof.
  intros Hn. induction s as [|c r IH]; [reflexivity|].
  change (replace_char old new (c :: r))
    with ((if c =? old then new else [c]) ++ replace_char old new r).
  intros H.
  change (break_free (c :: r)) with (negb (is_linebreak c) && break_free r) in H.
  apply andb_true_iff in H as [Hc Hr].
  rewrite break_free_app, (IH Hr), andb_true_r.
  destruct (c =? old); [exact Hn|]. cbn. rewrite Hc. reflexivity.
Qed.

Lemma break_free_html_escape s :
  break_free s = true -> break_free (html_escape s) = true.
Proof.
  intros H. unfold html_escape.
  repeat (apply break_free_replace_char; [reflexivity|]). exact H.
Qed.

Lemma break_free_attr s : break_free s = true -> break_free (attr s) = true.
Proof.
  intros H. unfold attr. rewrite !break_free_app, H. reflexivity.
Qed.

Lemma break_free_object_lines name file :
  break_free name = true -> break_free file = true ->
  forallb break_free (object_lines (name, file)) = true.
Proof.
  intros Hn Hf. unfold object_lines. cbn [forallb fst snd].
  assert (H1 : break_free (name_param name) = true).
  { unfold name_param. rewrite !break_free_app.
    rewrite (break_free_attr _ (break_free_html_escape _ Hn)). reflexivity. }
  assert (H2 : break_free (local_param (site_local file)) = true).
  { unfold local_param. rewrite !break_free_app.
    rewrite (break_free_attr (html_escape (site_local file))).
    - reflexivity.
    - apply break_free_html_escape. unfold site_local.
      rewrite !break_free_app, Hf. reflexivity. }
  rewrite H1, H2. reflexivity.
Qed.

Lemma forallb_flat_map {A B} (p : B -> bool) (f : A -> list B) l :
  forallb p (flat_map f l) = forallb (fun x => forallb p (f x)) l.
Proof.
  induction l as [|x l IH]; [reflexivity|].
  cbn [flat_map forallb]. rewrite forallb_app, IH. reflexivity.
Qed.

Lemma forallb_mono {A} (p q : A -> bool) l :
  (forall x, p x = true -> q x = true) ->
  forallb p l = true -> forallb q l = true.
Proof.
  intros H. induction l as [|x l IH]; [reflexivity|].
  cbn [forallb]. intros Hx. apply andb_true_iff in Hx as [Hx Hl].
  rewrite (H _ Hx), (IH Hl). reflexivity.
Qed.

Lemma forallb_map' {A B} (p : B -> bool) (f : A -> B) l :
  forallb p (map f l) = forallb (fun x => p (f x)) l.
Proof.
  induction l as [|x l IH]; [reflexivity|]. cbn. rewrite IH. reflexivity.
Qed.

Lemma break_free_toc_lines cats :
  forallb (fun n => break_free n.1 && break_free n.2) (outline cats) = true ->
  forallb break_free (toc_lines cats) = true.
Proof.
  intros H. unfold toc_lines. rewrite !forallb_app.
  change (forallb break_free hhc_header) with true.
  change (forallb break_free [u "</UL>"; u "</BODY></HTML>"]) with true.
  rewrite andb_true_r. cbn [andb].
  unfold outline in H. rewrite forallb_flat_map in H. rewrite forallb_flat_map.
  revert H. apply forallb_mono. intros c Hc.
  cbn [forallb fst snd] in Hc.
  apply andb_true_iff in Hc as [Hc Hs].
  apply andb_true_iff in Hc as [Hn Hf].
  unfold toc_category. rewrite !forallb_app.
  rewrite (break_free_object_lines _ _ Hn Hf).
  change (forallb break_free [u "  <UL>"]) with true.
  change (forallb break_free [u "  </UL>"]) with true.
  rewrite andb_true_r. cbn [andb].
  rewrite forallb_flat_map in Hs. rewrite forallb_flat_map.
  revert Hs. apply forallb_mono. intros s Hs.
  cbn [forallb fst snd] in Hs.
  apply andb_true_iff in Hs as [Hs Hg].
  apply andb_true_iff in Hs as [Hn' Hf'].
  unfold toc_subcategory. rewrite !forallb_app.
  rewrite (break_free_object_lines _ _ Hn' Hf').
  change (forallb break_free [u "    <UL>"]) with true.
  change (forallb break_free [u "    </UL>"]) with true.
  rewrite andb_true_r. cbn [andb].
  rewrite forallb_flat_map. rewrite forallb_map' in Hg.
  revert Hg. apply forallb_mono. intros g Hg.
  cbn [fst snd] in Hg. apply andb_true_iff in Hg as [Hn'' Hf''].
  apply break_free_object_lines; assumption.
Qed.

Lemma filter_flat_map {A B} (p : B -> bool) (f : A -> list B) l :
  List.filter p (flat_map f l) = flat_map (fun x => List.filter p (f x)) l.
Proof.
  induction l as [|x l IH]; [reflexivity|].
  cbn [flat_map]. rewrite List.filter_app, IH. reflexivity.
Qed.

(** What a test of single lines keeps of the table of contents, when it
    keeps none of the lines that open and close the lists. *)
Lemma filter_toc_lines (p : str -> bool) (F : str * str -> list str) cats :
  (forall n, List.filter p (object_lines n) = F n) ->
  List.filter p hhc_header = [] ->
  List.filter p [u "</UL>"; u "</BODY></HTML>"] = [] ->
  p (u "  <UL>") = false -> p (u "  </UL>") = false ->
  p (u "    <UL>") = false -> p (u "    </UL>") = false ->
  List.filter p (toc_lines cats) = flat_map F (outline cats).
Proof.
  intros HF Hh Hf H1 H2 H3 H4.
  unfold toc_lines. rewrite !List.filter_app, Hh, Hf, app_nil_r. cbn [app].
  unfold outline.
  induction cats as [|c cats IHc]; [reflexivity|].
  cbn [flat_map]. rewrite List.filter_app, flat_map_app, IHc. f_equal.
  unfold toc_category. rewrite !List.filter_app, HF.
  cbn [List.filter]. rewrite H1, H2, app_nil_r.
  change (flat_map F ((cat_title c, cat_file c) :: ?x)) with
    (F (cat_title c, cat_file c) ++ flat_map F x).
  cbn [app]. f_equal.
  induction (subcategories c) as [|s r IH]; [reflexivity|].
  cbn [flat_map]. rewrite List.filter_app, flat_map_app, IH. f_equal.
  unfold toc_subcategory. rewrite !List.filter_app, HF.
  cbn [List.filter]. rewrite H3, H4, app_nil_r.
  change (flat_map F ((sub_title s, sub_file s) :: ?x)) with
    (F (sub_title s, sub_file s) ++ flat_map F x).
  cbn [app]. f_equal.
  induction (groups s) as [|g t IHg]; [reflexivity|].
  cbn [flat_map map]. rewrite List.filter_app, IHg.
  unfold toc_group at 1. rewrite HF. reflexivity.
Qed.

(** X12: the lines of [contents.hhc], as [splitlines] reads them from the
    text that is written, for a tree whose titles and files hold no line
    boundary.  They are the header, and for every node of the tree, in
    document order, the four lines of its sitemap object, with the lists
    opened and closed around the subcategories of a category and the
    groups of a subcategory.  So the file has one object for every node,
    and its parameter lines are, node after node, the escaped title as
    Name followed by the escaped path of the page as Local; the pages
    named are, in the same order, the pages that [build_site] writes
    after the stylesheet and the index. *)
Theorem X12_contents_mirror_tree cats :
  forallb (fun n => break_free n.1 && break_free n.2) (outline cats) = true ->
  splitlines (write_hhc cats) = toc_lines cats
  /\ List.filter is_object (splitlines (write_hhc cats))
     = flat_map (fun _ => [object_open]) (outline cats)
  /\ List.filter is_param (splitlines (write_hhc cats))
     = flat_map (fun n => [name_param n.1; local_param (site_local n.2)])
                (outline cats)
  /\ map snd (outline cats) = drop 2 (site_paths cats).
Proof.
  intros H. pose proof (break_free_toc_lines cats H) as Hb.
  assert (E : splitlines (write_hhc cats) = toc_lines cats).
  { unfold write_hhc.
    rewrite join_hhc_lines, (write_newlines_join _ _ Hb).
    rewrite splitlines_join by (auto || exact Hb).
    unfold toc_lines. rewrite app_assoc.
    change [u "</UL>"; u "</BODY></HTML>"] with ([u "</UL>"] ++ [u "</BODY></HTML>"]).
    rewrite app_assoc. apply drop_last_empty_snoc. reflexivity. }
  rewrite E. split; [reflexivity|]. split; [|split].
  - apply filter_toc_lines; reflexivity.
  - apply filter_toc_lines; reflexivity.
  - apply outline_files.
Qed.

Lemma X12_witness :
  splitlines (write_hhc (assign_filenames example_tree))
  = toc_lines (assign_filenames example_tree)
  /\ List.filter is_param (splitlines (write_hhc (assign_filenames example_tree)))
     = [name_param (u "一、人体类"); local_param (u "site\c01.html");
        name_param (u "1. 手臂动作"); local_param (u "site\c01_s01.html");
        name_param (u "挥手"); local_param (u "site\g0001.html")].
Proof.
  destruct (X12_contents_mirror_tree (assign_filenames example_tree))
    as (H1 & _ & H3 & _).
  - vm_compute. reflexivity.
  - split; [exact H1|]. rewrite H3. vm_compute. reflexivity.
Defined.

(** * Line endings of a file *)

Lemma splitlines_from_break_free s b cur :
  break_free cur = true -> forallb break_free (splitlines_from b cur s) = true.
Proof.
  revert b cur. induction s as [|c r IH]; intros b cur Hc.
  - cbn. destruct (truthy cur); [|reflexivity].
    cbn. unfold break_free. rewrite forallb_rev. fold (break_free cur).
    rewrite Hc. reflexivity.
  - cbn [splitlines_from].
    destruct ((c =? NL) && b); [apply IH, Hc|].
    destruct (is_linebreak c) eqn:Hl.
    + cbn [forallb]. unfold break_free at 1. rewrite forallb_rev.
      fold (break_free cur). rewrite Hc. apply IH. reflexivity.
    + apply IH. cbn. rewrite Hl. exact Hc.
Qed.

(** X16: the lines that [parse_markdown] reads hold no line boundary, and
    the result is the same after the line ends of the file have been
    changed to LF or to CR LF. *)
Theorem X16_line_ends_converted text :
  forallb break_free (splitlines text) = true
  /\ parse_markdown (join [NL] (splitlines text)) = parse_markdown text
  /\ parse_markdown (join [CR; NL] (splitlines text)) = parse_markdown text.
Proof.
  assert (H : forallb break_free (splitlines text) = true)
    by (apply splitlines_from_break_free; reflexivity).
  split; [exact H|].
  unfold parse_markdown. rewrite !splitlines_join by auto.
  split; apply parse_lines_drop_last_empty.
Qed.

(** * Category by category *)

Lemma behind_flush_group front a b :
  behind front a b -> behind front (flush_group a) (flush_group b).
Proof.
  intros (Hc & Hk & Hs & Ht & He).
  unfold behind, flush_group. cbn [categories cur_cat cur_sub cur_group_title cur_entries].
  rewrite Hk, Hs, Ht, He, Hc. repeat split.
  destruct (cur_group_title b) as [t|]; [|reflexivity].
  destruct (cur_sub b) as [[i j]|]; [|reflexivity]. cbn [shift_sub].
  destruct (truthy t); [|reflexivity].
  unfold append_group. cbn [fst snd]. apply alter_app_r.
Qed.

Lemma behind_new_category front title a b :
  behind front a b -> behind front (new_category title a) (new_category title b).
Proof.
  intros (Hc & Hk & Hs & Ht & He). unfold behind, new_category.
  cbn [categories cur_cat cur_sub cur_group_title cur_entries shift_cat shift_sub].
  rewrite Hc, Ht, He, length_app, app_assoc. auto.
Qed.

Lemma behind_new_subcategory front n name a b :
  behind front a b ->
  behind front (new_subcategory n name a) (new_subcategory n name b).
Proof.
  intros (Hc & Hk & Hs & Ht & He). unfold behind, new_subcategory.
  rewrite Hk, Hc, Ht, He.
  destruct (cur_cat b) as [i|]; cbn [shift_cat].
  - rewrite lookup_app_r by lia.
    replace (length front + i - length front)%nat with i by lia.
    cbn [categories cur_cat cur_sub cur_group_title cur_entries shift_cat shift_sub].
    rewrite alter_app_r. auto.
  - rewrite <- app_assoc, length_app.
    rewrite lookup_app_r by lia.
    replace (length front + length (categories b) - length front)%nat
      with (length (categories b)) by lia.
    cbn [categories cur_cat cur_sub cur_group_title cur_entries shift_cat shift_sub].
    rewrite alter_app_r. auto.
Qed.

Lemma behind_exec front a b k :
  behind front a b -> behind front (exec a k) (exec b k).
Proof.
  intros H. pose proof (behind_flush_group _ _ _ H) as Hf.
  destruct k as [| | | |title|n name|title|line]; cbn [exec]; auto.
  - apply behind_new_category, Hf.
  - apply behind_new_subcategory, Hf.
  - destruct Hf as (Hc & Hk & Hs & Ht & He). repeat split; assumption.
  - destruct H as (Hc & Hk & Hs & Ht & He). unfold add_entry. rewrite Ht.
    destruct (pending (cur_group_title b)); [|repeat split; assumption].
    destruct (truthy (_normalize_entry line)); [|repeat split; assumption].
    unfold behind. cbn [categories cur_cat cur_sub cur_group_title cur_entries].
    rewrite He. auto.
Qed.

Lemma behind_run front lines a b :
  behind front a b -> behind front (run a lines) (run b lines).
Proof.
  revert a b. induction lines as [|l lines IH]; intros a b H; [exact H|].
  rewrite !run_cons, !step_classify. apply IH, behind_exec, H.
Qed.

(** X17: an outline can be parsed category by category: cut in front of
    a category heading, the tree of the whole input is the tree of the
    first part followed by the tree of the second part. *)
Theorem X17_cut_at_category_heading pre h post :
  is_category_heading h = true ->
  parse_lines (pre ++ h :: post) = parse_lines pre ++ parse_lines (h :: post).
Proof.
  intros Hh. unfold is_category_heading in Hh.
  destruct (classify h) as [| | | |title| | |] eqn:Ek; try discriminate.
  rewrite parse_lines_app. unfold parse_lines at 2.
  rewrite !run_cons, !step_classify, Ek. cbn [exec].
  assert (H : behind (parse_lines pre)
                (new_category title (flush_group (run init pre)))
                (new_category title (flush_group init))).
  { unfold behind, parse_lines. cbn. rewrite Nat.add_0_r. auto. }
  apply (behind_run _ post) in H. apply behind_flush_group in H.
  destruct H as (H & _). exact H.
Qed.

Lemma X17_witness :
  parse_lines (example_lines ++ u "**二、物体类**" :: [u "**1. 移动**"; u "**推**"; u "推开"])
  = parse_lines example_lines
    ++ parse_lines (u "**二、物体类**" :: [u "**1. 移动**"; u "**推**"; u "推开"]).
Proof. apply X17_cut_at_category_heading. vm_compute. reflexivity. Defined.

(** * Two runs in one store *)

Lemma sub_layout_app g a b :
  sub_layout g (a ++ b)
  = sub_layout g a ++ sub_layout (g + length (flat_map groups a)) b.
Proof.
  revert g. induction a as [|s a IH]; intros g.
  - cbn. rewrite Nat.add_0_r. reflexivity.
  - cbn [app sub_layout flat_map]. rewrite IH, length_app, Nat.add_assoc.
    reflexivity.
Qed.

Lemma cat_layout_app m a b :
  cat_layout m (a ++ b)
  = cat_layout m a ++ cat_layout (m + length (all_subcategories a)) b.
Proof.
  revert m. induction a as [|c a IH]; intros m.
  - cbn. rewrite Nat.add_0_r. reflexivity.
  - unfold all_subcategories. cbn [app cat_layout flat_map].
    rewrite IH, length_app, Nat.add_assoc. reflexivity.
Qed.

Lemma length_sub_layout g subs : length (sub_layout g subs) = length subs.
Proof.
  revert g. induction subs as [|s r IH]; intros g; [reflexivity|].
  cbn. rewrite IH. reflexivity.
Qed.

Lemma length_cat_layout m cats : length (cat_layout m cats) = length cats.
Proof.
  revert m. induction cats as [|c r IH]; intros m; [reflexivity|].
  cbn. rewrite IH. reflexivity.
Qed.

Lemma length_group_layout gs ea :
  length gs = length ea -> length (group_layout gs ea) = length gs.
Proof. intros H. unfold group_layout. rewrite length_zip_with. lia. Qed.

Lemma group_layout_app gs ea g a :
  length gs = length ea ->
  group_layout (gs ++ [g]) (ea ++ [a])
  = group_layout gs ea ++ [mkGroupObj (group_title g) a (group_file g)].
Proof. intros H. unfold group_layout. rewrite zip_with_app by exact H. reflexivity. Qed.

(** What a flush does to a tree whose current subcategory is the last. *)
Lemma flush_group_shape st :
  at_last_sub st ->
  (categories (flush_group st) = categories st
   /\ (cur_group_title st = None \/ cur_sub st = None
       \/ exists t, cur_group_title st = Some t /\ truthy t = false))
  \/ exists t front c fs s,
       cur_group_title st = Some t /\ truthy t = true
       /\ cur_sub st = Some (length front, length fs)
       /\ categories st = front ++ [c] /\ subcategories c = fs ++ [s]
       /\ categories (flush_group st)
          = front
            ++ [mkCategory (cat_title c)
                  (fs ++ [add_group (mkGroup (_normalize_group_title t)
                                             (cur_entries st) []) s])
                  (cat_file c)].
Proof.
  unfold at_last_sub, flush_group. cbn [categories].
  destruct (cur_group_title st) as [t|]; [|auto].
  destruct (cur_sub st) as [[ci si]|]; [|auto].
  destruct (truthy t) eqn:Ht; [|left; split; [reflexivity|]; eauto].
  intros (front & c & fs & s & Hc & -> & Hs & ->).
  right. exists t, front, c, fs, s.
  split; [reflexivity|]. split; [exact Ht|]. split; [reflexivity|].
  split; [exact Hc|]. split; [exact Hs|].
  rewrite Hc. unfold append_group. cbn [fst snd]. rewrite alter_last.
  unfold on_subcategories. rewrite Hs, alter_last. reflexivity.
Qed.

Lemma flush_group_fields st :
  cur_cat (flush_group st) = cur_cat st
  /\ cur_sub (flush_group st) = cur_sub st
  /\ cur_group_title (flush_group st) = None
  /\ cur_entries (flush_group st) = [].
Proof. unfold flush_group. cbn. auto. Qed.

Lemma rep_flush_group h0 hf st :
  rep h0 hf st -> rep h0 (store_flush_group hf) (flush_group st).
Proof.
  destruct hf as [h f]. unfold rep.
  intros (ea & rest & Hc & Hs & Hg & Hf2 & Hl & He & Hcats & Hcc & Hcs & Ht
          & H1 & H2).
  pose proof (Forall2_length _ _ _ Hf2) as Hlen.
  pose proof (at_last_flush_group _ H1) as H1'.
  pose proof (at_last_sub_flush_group _ H2) as H2'.
  destruct (flush_group_fields st) as (Pc & Ps & Pt & Pe).
  assert (Hlh : length (str_lists h) = S (v_cur_entries f)).
  { rewrite Hl, He, app_assoc, length_app. cbn. lia. }
  destruct (flush_group_shape st H2)
    as [[Ecat Hno] | (t & front & c & fs & s & Et & Htr & Er & Ecats & Esubs & Ecat)].
  - assert (Eh : store_flush_group (h, f)
                 = (mkStore (cat_objs h) (sub_objs h) (group_objs h)
                            (str_lists h ++ [[]]),
                    mkFrame (v_categories f) (v_cur_cat f) (v_cur_sub f) None
                            (length (str_lists h)))).
    { unfold store_flush_group. rewrite Ht, Hcs.
      destruct Hno as [-> | [-> | (t & -> & Htr)]].
      - reflexivity.
      - destruct (cur_group_title st); reflexivity.
      - destruct (cur_sub st); [rewrite Htr|]; reflexivity. }
    rewrite Eh. exists ea, (rest ++ [cur_entries st]).
    cbn [cat_objs sub_objs group_objs str_lists v_categories v_cur_cat
         v_cur_sub v_cur_group_title v_cur_entries].
    rewrite Pc, Ps, Pt, Pe, Ecat.
    split; [exact Hc|]. split; [exact Hs|]. split; [exact Hg|].
    split.
    { eapply Forall2_impl; [exact Hf2|]. intros g a [Ha Hg'].
      split; [lia|]. apply lookup_app_l_Some, Hg'. }
    split; [rewrite Hl, <- !app_assoc; reflexivity|].
    split; [rewrite Hl, <- ?app_assoc; reflexivity|].
    split; [exact Hcats|]. split; [exact Hcc|]. split; [exact Hcs|].
    split; [reflexivity|]. split; assumption.
  - set (g := mkGroup (_normalize_group_title t) (cur_entries st) []) in *.
    set (X := all_subcategories front ++ fs).
    assert (EX : all_subcategories (categories st) = X ++ [s]).
    { rewrite Ecats, all_subcategories_app. unfold all_subcategories at 2.
      cbn [flat_map]. rewrite Esubs, app_nil_r, app_assoc. reflexivity. }
    assert (EX' : all_subcategories (categories (flush_group st))
                  = X ++ [add_group g s]).
    { rewrite Ecat, all_subcategories_app. unfold all_subcategories at 2.
      cbn [flat_map subcategories]. rewrite app_nil_r, app_assoc. reflexivity. }
    assert (EG : all_groups (categories st) = flat_map groups X ++ groups s).
    { unfold all_groups. rewrite EX, flat_map_app. cbn [flat_map].
      rewrite app_nil_r. reflexivity. }
    assert (EG' : all_groups (categories (flush_group st))
                  = all_groups (categories st) ++ [g]).
    { unfold all_groups. rewrite EX', EX, !flat_map_app. cbn [flat_map groups add_group].
      rewrite !app_nil_r, app_assoc. reflexivity. }
    assert (Eh : store_flush_group (h, f)
                 = (mkStore (cat_objs h)
                      (alter (fun o => mkSubObj (o_sub_title o)
                                         (o_groups o ++ [length (group_objs h)])
                                         (o_sub_file o))
                             (length (sub_objs h0) + length X)%nat (sub_objs h))
                      (group_objs h
                       ++ [mkGroupObj (_normalize_group_title t) (v_cur_entries f) []])
                      (str_lists h ++ [[]]),
                    mkFrame (v_categories f) (v_cur_cat f) (v_cur_sub f) None
                            (length (str_lists h)))).
    { unfold store_flush_group. rewrite Ht, Hcs, Et, Er, Htr, EX.
      rewrite length_app. cbn [length]. rewrite Nat.add_1_r. reflexivity. }
    rewrite Eh. exists (ea ++ [v_cur_entries f]), (rest ++ [cur_entries st]).
    cbn [cat_objs sub_objs group_objs str_lists v_categories v_cur_cat
         v_cur_sub v_cur_group_title v_cur_entries].
    rewrite Pc, Ps, Pt, Pe, EX', EG'.
    split.
    { rewrite Hc, Ecat, Ecats, !cat_layout_app. cbn [cat_layout subcategories cat_title cat_file].
      rewrite Esubs, !length_app. reflexivity. }
    split.
    { rewrite Hs, EX, !sub_layout_app, alter_app_r.
      rewrite <- (length_sub_layout (length (group_objs h0)) X) at 1.
      rewrite <- (Nat.add_0_r (length (sub_layout _ X))), alter_app_r.
      cbn [sub_layout alter list_alter o_sub_title o_groups o_sub_file
           sub_title sub_file groups add_group].
      do 3 f_equal. rewrite length_app, Nat.add_1_r, seq_S. do 2 f_equal.
      rewrite Hg, length_app, length_group_layout, EG, length_app by exact Hlen.
      f_equal. lia. }
    split.
    { rewrite group_layout_app by exact Hlen. rewrite Hg, app_assoc. reflexivity. }
    split.
    { apply Forall2_app.
      - eapply Forall2_impl; [exact Hf2|]. intros g' a [Ha Hg'].
        split; [lia|]. apply lookup_app_l_Some, Hg'.
      - constructor; [|constructor]. split; [lia|].
        apply lookup_app_l_Some. rewrite Hl, He, app_assoc.
        apply list_lookup_middle. reflexivity. }
    split; [rewrite Hl, <- !app_assoc; reflexivity|].
    split; [rewrite Hl, <- ?app_assoc; reflexivity|].
    split; [rewrite Ecat, Hcats, Ecats, !length_app; reflexivity|].
    split; [exact Hcc|].
    split; [rewrite Hcs, EX, !length_app; reflexivity|].
    split; [reflexivity|]. split; assumption.
Qed.

Lemma length_cat_objs h0 h (cats : list Category) m :
  cat_objs h = cat_objs h0 ++ cat_layout m cats ->
  length (cat_objs h) = (length (cat_objs h0) + length cats)%nat.
Proof. intros ->. rewrite length_app, length_cat_layout. reflexivity. Qed.

Lemma length_sub_objs h0 h (subs : list Subcategory) g :
  sub_objs h = sub_objs h0 ++ sub_layout g subs ->
  length (sub_objs h) = (length (sub_objs h0) + length subs)%nat.
Proof. intros ->. rewrite length_app, length_sub_layout. reflexivity. Qed.

Lemma rep_new_category title h0 hf st :
  rep h0 hf st ->
  rep h0 (store_new_category title hf) (new_category title st).
Proof.
  destruct hf as [h f]. unfold rep.
  intros (ea & rest & Hc & Hs & Hg & Hf2 & Hl & He & Hcats & Hcc & Hcs & Ht
          & H1 & H2).
  unfold store_new_category, new_cat.
  exists ea, rest.
  cbn [cat_objs sub_objs group_objs str_lists v_categories v_cur_cat
       v_cur_sub v_cur_group_title v_cur_entries].
  rewrite new_category_groups.
  unfold new_category.
  cbn [categories cur_cat cur_sub cur_group_title cur_entries].
  rewrite all_subcategories_app. unfold all_subcategories at 2.
  cbn [flat_map subcategories]. rewrite !app_nil_r.
  split.
  { rewrite Hc, cat_layout_app, <- app_assoc. reflexivity. }
  split; [exact Hs|]. split; [exact Hg|]. split; [exact Hf2|].
  split; [exact Hl|]. split; [exact He|].
  rewrite (length_cat_objs _ _ _ _ Hc).
  split; [rewrite Hcats, length_app, Nat.add_1_r, seq_S; reflexivity|].
  split; [reflexivity|]. split; [reflexivity|]. split; [exact Ht|].
  split; [|exact I].
  unfold at_last. cbn [cur_cat categories]. rewrite length_app. cbn. lia.
Qed.

Lemma new_subcategory_implicit n name st :
  cur_cat st = None ->
  new_subcategory n name st
  = new_subcategory n name (new_category UNCLASSIFIED st).
Proof. unfold new_subcategory. intros ->. reflexivity. Qed.

Lemma store_new_subcategory_implicit n name h f :
  v_cur_cat f = None ->
  store_new_subcategory n name (h, f)
  = store_new_subcategory n name (store_new_category UNCLASSIFIED (h, f)).
Proof. unfold store_new_subcategory. intros ->. reflexivity. Qed.

Lemma rep_new_subcategory_cur n name h0 hf st ci :
  cur_cat st = Some ci ->
  rep h0 hf st ->
  rep h0 (store_new_subcategory n name hf) (new_subcategory n name st).
Proof.
  destruct hf as [h f]. unfold rep.
  intros Eci (ea & rest & Hc & Hs & Hg & Hf2 & Hl & He & Hcats & Hcc & Hcs & Ht
              & H1 & H2).
  pose proof (at_last_sub_new_subcategory n name st H1) as H2'.
  pose proof (new_subcategory_groups n name st) as EG.
  set (new := mkSubcategory (n ++ u ". " ++ strip name) [] []) in *.
  assert (Hlast := H1). unfold at_last in Hlast. rewrite Eci in Hlast.
  destruct (last_split _ _ Hlast) as (front & c & Ecats & Efront).
  assert (Enew : new_subcategory n name st
                 = mkState (front ++ [add_subcategory new c]) (Some ci)
                           (Some (ci, length (subcategories c)))
                           (cur_group_title st) (cur_entries st)).
  { unfold new_subcategory. rewrite Eci, Ecats, <- Efront.
    rewrite list_lookup_middle by reflexivity. cbn [from_option].
    rewrite alter_last. reflexivity. }
  rewrite Enew in *. clear Enew.
  cbn [categories cur_cat cur_sub cur_group_title cur_entries] in *.
  assert (EX : all_subcategories (front ++ [add_subcategory new c])
               = all_subcategories (categories st) ++ [new]).
  { rewrite Ecats, !all_subcategories_app. unfold all_subcategories at 2 4.
    cbn [flat_map subcategories add_subcategory].
    rewrite !app_nil_r, app_assoc. reflexivity. }
  unfold store_new_subcategory, new_sub, subcategories_append.
  rewrite Hcc, Eci.
  exists ea, rest.
  cbn [cat_objs sub_objs group_objs str_lists v_categories v_cur_cat
       v_cur_sub v_cur_group_title v_cur_entries].
  rewrite EX, EG.
  split.
  { rewrite Hc, Ecats, !cat_layout_app, alter_app_r.
    rewrite <- Efront.
    rewrite <- (length_cat_layout (length (sub_objs h0)) front) at 1.
    rewrite <- (Nat.add_0_r (length (cat_layout _ front))), alter_app_r.
    cbn [cat_layout alter list_alter o_cat_title o_subcategories o_cat_file
         cat_title cat_file subcategories add_subcategory].
    do 3 f_equal. rewrite length_app, Nat.add_1_r, seq_S. do 2 f_equal.
    rewrite (length_sub_objs _ _ _ _ Hs), Ecats, all_subcategories_app.
    unfold all_subcategories at 2. cbn [flat_map].
    rewrite app_nil_r, length_app. f_equal. lia. }
  split.
  { rewrite Hs, sub_layout_app, <- app_assoc. reflexivity. }
  split; [exact Hg|]. split; [exact Hf2|]. split; [exact Hl|].
  split; [exact He|].
  split; [rewrite Hcats, Ecats, !length_app; reflexivity|].
  split; [reflexivity|].
  split.
  { rewrite (length_sub_objs _ _ _ _ Hs), length_app, Nat.add_1_r. reflexivity. }
  split; [exact Ht|].
  split; [|exact H2'].
  unfold at_last. cbn [cur_cat categories]. rewrite length_app. cbn. lia.
Qed.

Lemma rep_new_subcategory n name h0 hf st :
  rep h0 hf st ->
  rep h0 (store_new_subcategory n name hf) (new_subcategory n name st).
Proof.
  intros H. destruct (cur_cat st) as [ci|] eqn:E.
  - apply (rep_new_subcategory_cur n name h0 hf st ci E H).
  - destruct hf as [h f].
    assert (Ef : v_cur_cat f = None).
    { destruct H as (ea & rest & _ & _ & _ & _ & _ & _ & _ & Hcc & _).
      rewrite Hcc, E. reflexivity. }
    rewrite (new_subcategory_implicit n name st E).
    rewrite (store_new_subcategory_implicit n name h f Ef).
    apply (rep_new_subcategory_cur n name h0 _ _ (length (categories st)));
      [reflexivity|].
    apply rep_new_category, H.
Qed.

Lemma rep_add_entry line h0 hf st :
  rep h0 hf st -> rep h0 (store_add_entry line hf) (add_entry line st).
Proof.
  destruct hf as [h f]. intros H.
  assert (Ht : v_cur_group_title f = cur_group_title st).
  { destruct H as (ea & rest & _ & _ & _ & _ & _ & _ & _ & _ & _ & Ht & _).
    exact Ht. }
  unfold store_add_entry, add_entry. rewrite Ht.
  destruct (pending (cur_group_title st)); [|exact H].
  destruct (truthy (_normalize_entry line)); [|exact H].
  destruct H as (ea & rest & Hc & Hs & Hg & Hf2 & Hl & He & Hcats & Hcc & Hcs
                 & _ & H1 & H2).
  exists ea, rest. unfold entries_append.
  cbn [cat_objs sub_objs group_objs str_lists v_categories v_cur_cat
       v_cur_sub v_cur_group_title v_cur_entries
       categories cur_cat cur_sub cur_group_title cur_entries].
  split; [exact Hc|]. split; [exact Hs|]. split; [exact Hg|].
  split.
  { eapply Forall2_impl; [exact Hf2|]. intros g a [Ha Hg'].
    split; [exact Ha|]. rewrite list_lookup_alter_ne by lia. exact Hg'. }
  split.
  { rewrite Hl, He, app_assoc.
    rewrite <- (Nat.add_0_r (length (str_lists h0 ++ rest))), alter_app_r.
    cbn [alter list_alter]. rewrite <- app_assoc. reflexivity. }
  split; [exact He|]. split; [exact Hcats|]. split; [exact Hcc|].
  split; [exact Hcs|]. split; [exact Ht|]. split; assumption.
Qed.

Lemma rep_group_heading title h0 h f st :
  rep h0 (h, f) st ->
  rep h0 (h, mkFrame (v_categories f) (v_cur_cat f) (v_cur_sub f) (Some title)
                     (v_cur_entries f))
      (mkState (categories st) (cur_cat st) (cur_sub st) (Some title)
               (cur_entries st)).
Proof.
  intros (ea & rest & Hc & Hs & Hg & Hf2 & Hl & He & Hcats & Hcc & Hcs & _
          & H1 & H2).
  exists ea, rest.
  cbn [v_categories v_cur_cat v_cur_sub v_cur_group_title v_cur_entries
       categories cur_cat cur_sub cur_group_title cur_entries].
  split; [exact Hc|]. split; [exact Hs|]. split; [exact Hg|].
  split; [exact Hf2|]. split; [exact Hl|]. split; [exact He|].
  split; [exact Hcats|]. split; [exact Hcc|]. split; [exact Hcs|].
  split; [reflexivity|]. split; assumption.
Qed.

(** Every line keeps the store of the run in step with the state of the
    parser. *)
Lemma rep_exec h0 hf st k :
  rep h0 hf st -> rep h0 (store_exec hf k) (exec st k).
Proof.
  intros H. pose proof (rep_flush_group h0 hf st H) as Hf.
  destruct k as [| | | |title|n name|title|line]; cbn [store_exec exec].
  - exact H.
  - exact H.
  - exact H.
  - exact Hf.
  - apply rep_new_category, Hf.
  - apply rep_new_subcategory, Hf.
  - destruct (store_flush_group hf) as [h f]. apply rep_group_heading, Hf.
  - apply rep_add_entry, H.
Qed.

Lemma rep_run h0 lines hf st :
  rep h0 hf st -> rep h0 (store_run hf lines) (run st lines).
Proof.
  revert hf st. induction lines as [|l lines IH]; intros hf st H; [exact H|].
  change (store_run hf (l :: lines)) with (store_run (store_step hf l) lines).
  rewrite run_cons, step_classify. apply IH.
  unfold store_step. apply rep_exec, H.
Qed.

Lemma rep_init h0 :
  rep h0 (mkStore (cat_objs h0) (sub_objs h0) (group_objs h0)
                  (str_lists h0 ++ [[]]),
          mkFrame [] None None None (length (str_lists h0)))
      init.
Proof.
  exists [], [].
  cbn [cat_objs sub_objs group_objs str_lists v_categories v_cur_cat
       v_cur_sub v_cur_group_title v_cur_entries init
       categories cur_cat cur_sub cur_group_title cur_entries].
  change (all_subcategories []) with (@nil Subcategory).
  change (all_groups []) with (@nil Group).
  cbn [cat_layout sub_layout group_layout zip_with length seq app].
  rewrite !app_nil_r.
  split; [reflexivity|]. split; [reflexivity|]. split; [reflexivity|].
  split; [constructor|]. split; [reflexivity|]. split; [reflexivity|].
  split; [reflexivity|]. split; [reflexivity|]. split; [reflexivity|].
  split; [reflexivity|]. split; [reflexivity | exact I].
Qed.

Lemma lookup_app_plus {A} (l1 l2 : list A) i x :
  l2 !! i = Some x -> (l1 ++ l2) !! (length l1 + i)%nat = Some x.
Proof.
  intros H. rewrite lookup_app_r by lia.
  replace (length l1 + i - length l1)%nat with i by lia. exact H.
Qed.

Lemma group_layout_split gs1 gs2 ea1 ea2 :
  length gs1 = length ea1 ->
  group_layout (gs1 ++ gs2) (ea1 ++ ea2)
  = group_layout gs1 ea1 ++ group_layout gs2 ea2.
Proof. intros H. unfold group_layout. apply zip_with_app, H. Qed.

(** The groups laid out from [g] on are read back as they are. *)
Lemma read_groups h g gs ea :
  (forall i o, group_layout gs ea !! i = Some o ->
               group_objs h !! (g + i)%nat = Some o) ->
  Forall2 (fun gr a => str_lists h !! a = Some (entries gr)) gs ea ->
  mapM (read_group h) (seq g (length gs)) = Some gs.
Proof.
  intros H F. apply mapM_Some. revert g H.
  induction F as [|gr a gs ea Hgr F IH]; intros g H; [constructor|].
  cbn [length seq]. constructor.
  - unfold read_group.
    rewrite <- (Nat.add_0_r g), (H 0%nat _ eq_refl).
    cbn [o_entries o_group_title o_group_file]. rewrite Hgr.
    destruct gr; reflexivity.
  - apply IH. intros i o Hi. replace (S g + i)%nat with (g + S i)%nat by lia.
    apply H. exact Hi.
Qed.

Lemma read_subs h m g subs ea :
  (forall i o, sub_layout g subs !! i = Some o ->
               sub_objs h !! (m + i)%nat = Some o) ->
  (forall i o, group_layout (flat_map groups subs) ea !! i = Some o ->
               group_objs h !! (g + i)%nat = Some o) ->
  Forall2 (fun gr a => str_lists h !! a = Some (entries gr))
          (flat_map groups subs) ea ->
  mapM (read_sub h) (seq m (length subs)) = Some subs.
Proof.
  intros Hs Hg F. apply mapM_Some. revert m g ea Hs Hg F.
  induction subs as [|s r IH]; intros m g ea Hs Hg F; [constructor|].
  cbn [flat_map] in Hg, F.
  apply Forall2_app_inv_l in F as (ea1 & ea2 & F1 & F2 & ->).
  pose proof (Forall2_length _ _ _ F1) as Hlen.
  rewrite (group_layout_split _ _ _ _ Hlen) in Hg.
  cbn [length seq]. constructor.
  - unfold read_sub.
    rewrite <- (Nat.add_0_r m), (Hs 0%nat _ eq_refl).
    cbn [o_groups o_sub_title o_sub_file].
    rewrite (read_groups h g (groups s) ea1).
    + destruct s; reflexivity.
    + intros i o Hi. apply Hg, lookup_app_l_Some, Hi.
    + exact F1.
  - apply (IH (S m) (g + length (groups s))%nat ea2).
    + intros i o Hi. replace (S m + i)%nat with (m + S i)%nat by lia.
      apply Hs. exact Hi.
    + intros i o Hi. rewrite <- Nat.add_assoc.
      apply Hg. rewrite <- (length_group_layout _ _ Hlen).
      apply lookup_app_plus, Hi.
    + exact F2.
Qed.

Lemma read_cats h n m g cats ea :
  (forall i o, cat_layout m cats !! i = Some o ->
               cat_objs h !! (n + i)%nat = Some o) ->
  (forall i o, sub_layout g (all_subcategories cats) !! i = Some o ->
               sub_objs h !! (m + i)%nat = Some o) ->
  (forall i o, group_layout (all_groups cats) ea !! i = Some o ->
               group_objs h !! (g + i)%nat = Some o) ->
  Forall2 (fun gr a => str_lists h !! a = Some (entries gr))
          (all_groups cats) ea ->
  mapM (read_cat h) (seq n (length cats)) = Some cats.
Proof.
  intros Hc Hs Hg F. apply mapM_Some. revert n m g ea Hc Hs Hg F.
  induction cats as [|c r IH]; intros n m g ea Hc Hs Hg F; [constructor|].
  change (all_subcategories (c :: r))
    with (subcategories c ++ all_subcategories r) in Hs.
  assert (EG : all_groups (c :: r)
               = flat_map groups (subcategories c) ++ all_groups r).
  { change (c :: r) with ([c] ++ r).
    rewrite all_groups_app, all_groups_single. reflexivity. }
  rewrite EG in Hg, F. rewrite sub_layout_app in Hs.
  apply Forall2_app_inv_l in F as (ea1 & ea2 & F1 & F2 & ->).
  pose proof (Forall2_length _ _ _ F1) as Hlen.
  rewrite (group_layout_split _ _ _ _ Hlen) in Hg.
  cbn [length seq]. constructor.
  - unfold read_cat.
    rewrite <- (Nat.add_0_r n), (Hc 0%nat _ eq_refl).
    cbn [o_subcategories o_cat_title o_cat_file].
    rewrite (read_subs h m g (subcategories c) ea1).
    + destruct c; reflexivity.
    + intros i o Hi. apply Hs, lookup_app_l_Some, Hi.
    + intros i o Hi. apply Hg, lookup_app_l_Some, Hi.
    + exact F1.
  - apply (IH (S n) (m + length (subcategories c))%nat
              (g + length (flat_map groups (subcategories c)))%nat ea2).
    + intros i o Hi. replace (S n + i)%nat with (n + S i)%nat by lia.
      apply Hc. exact Hi.
    + intros i o Hi. rewrite <- Nat.add_assoc.
      apply Hs. rewrite <- (length_sub_layout g (subcategories c)).
      apply lookup_app_plus, Hi.
    + intros i o Hi. rewrite <- Nat.add_assoc.
      apply Hg. rewrite <- (length_group_layout _ _ Hlen).
      apply lookup_app_plus, Hi.
    + exact F2.
Qed.

(** A tree that a store holds is read back from its references. *)
Lemma holds_read h n m g cats :
  holds h n m g cats -> read_tree h (seq n (length cats)) = Some cats.
Proof.
  intros (ea & Hc & Hs & Hg & F). apply (read_cats h n m g cats ea); assumption.
Qed.

Lemma holds_extends h h' n m g cats :
  holds h n m g cats -> extends h h' -> holds h' n m g cats.
Proof.
  intros (ea & Hc & Hs & Hg & F) (Ec & Es & Eg & El). exists ea.
  split; [intros i o Hi; apply Ec, Hc, Hi|].
  split; [intros i o Hi; apply Es, Hs, Hi|].
  split; [intros i o Hi; apply Eg, Hg, Hi|].
  eapply Forall2_impl; [exact F|]. intros gr a Ha. apply El, Ha.
Qed.

Lemma rep_holds h0 h f st :
  rep h0 (h, f) st ->
  holds h (length (cat_objs h0)) (length (sub_objs h0)) (length (group_objs h0))
        (categories st).
Proof.
  intros (ea & rest & Hc & Hs & Hg & Hf2 & _). exists ea.
  split; [intros i o Hi; rewrite Hc; apply lookup_app_plus, Hi|].
  split; [intros i o Hi; rewrite Hs; apply lookup_app_plus, Hi|].
  split; [intros i o Hi; rewrite Hg; apply lookup_app_plus, Hi|].
  eapply Forall2_impl; [exact Hf2|]. intros gr a [_ Ha]. exact Ha.
Qed.

(** A run changes no object that it finds in the store. *)
Lemma rep_extends h0 h f st : rep h0 (h, f) st -> extends h0 h.
Proof.
  intros (ea & rest & Hc & Hs & Hg & _ & Hl & _).
  split; [intros i o Hi; rewrite Hc; apply lookup_app_l_Some, Hi|].
  split; [intros i o Hi; rewrite Hs; apply lookup_app_l_Some, Hi|].
  split; [intros i o Hi; rewrite Hg; apply lookup_app_l_Some, Hi|].
  intros i l Hi. rewrite Hl. apply lookup_app_l_Some, Hi.
Qed.

(** A call of [parse_markdown] in any store: it returns references to
    new category objects, changes nothing that it finds, and leaves a
    store that holds the tree of [parse_lines]. *)
Lemma store_parse_lines_spec h lines :
  (store_parse_lines h lines).2
  = seq (length (cat_objs h)) (length (parse_lines lines))
  /\ extends h (store_parse_lines h lines).1
  /\ holds (store_parse_lines h lines).1
           (length (cat_objs h)) (length (sub_objs h)) (length (group_objs h))
           (parse_lines lines).
Proof.
  pose proof (rep_flush_group _ _ _ (rep_run h lines _ _ (rep_init h))) as H.
  unfold store_parse_lines, new_entries.
  destruct (store_flush_group _) as [h1 f]. cbn [fst snd].
  fold (parse_lines lines) in H.
  split; [|split].
  - destruct H as (ea & rest & _ & _ & _ & _ & _ & _ & Hcats & _). exact Hcats.
  - apply (rep_extends h h1 f _ H).
  - apply (rep_holds h h1 f _ H).
Qed.

Lemma store_parse_lines_read h lines :
  read_tree (store_parse_lines h lines).1 (store_parse_lines h lines).2
  = Some (parse_lines lines).
Proof.
  destruct (store_parse_lines_spec h lines) as (-> & _ & H).
  apply (holds_read _ _ _ _ _ H).
Qed.

(** A tree read from the result of a call is still there after any
    further call in the store that the first call left. *)
Lemma store_parse_lines_frame h lines lines' :
  read_tree (store_parse_lines (store_parse_lines h lines).1 lines').1
            (store_parse_lines h lines).2
  = Some (parse_lines lines).
Proof.
  destruct (store_parse_lines_spec h lines) as (-> & _ & H).
  destruct (store_parse_lines_spec (store_parse_lines h lines).1 lines')
    as (_ & He & _).
  apply (holds_read _ _ _ _ _ (holds_extends _ _ _ _ _ _ H He)).
Qed.

(** C9: two runs of the parser on the same text give structurally
    identical trees.  The runs are calls of [parse_markdown] in a store
    of objects that outlives them: the first call starts in any store
    [h], the second in the store that the first has left.  What is read
    from the references that either call returns is the tree of
    [parse_markdown text], whatever the store held before; read in the
    final store, the two results are the same tree; and the first result
    stays what it was under any further call, on the same or on another
    text [text']. *)
Theorem C9_parser_deterministic h text text' :
  let r1 := store_parse_markdown h text in
  let r2 := store_parse_markdown r1.1 text in
  let r' := store_parse_markdown r1.1 text' in
  read_tree r1.1 r1.2 = Some (parse_markdown text)
  /\ read_tree r2.1 r2.2 = Some (parse_markdown text)
  /\ read_tree r2.1 r1.2 = read_tree r2.1 r2.2
  /\ read_tree r'.1 r1.2 = Some (parse_markdown text).
Proof.
  cbv zeta. unfold store_parse_markdown, parse_markdown.
  split; [apply store_parse_lines_read|].
  split; [apply store_parse_lines_read|].
  split; [|apply store_parse_lines_frame].
  rewrite store_parse_lines_frame, store_parse_lines_read. reflexivity.
Qed.

Lemma C9_witness :
  let r1 := store_parse_markdown (mkStore [] [] [] []) (join [NL] example_lines) in
  let r2 := store_parse_markdown r1.1 (join [NL] example_lines) in
  r1.2 = [0%nat] /\ r2.2 = [1%nat]
  /\ read_tree r2.1 r1.2 = Some example_tree
  /\ read_tree r2.1 r2.2 = Some example_tree.
Proof.
  cbv zeta.
  destruct (C9_parser_deterministic (mkStore [] [] [] []) (join [NL] example_lines) (join [NL] example_lines))
    as (_ & H2 & H3 & _).
  split; [vm_compute; reflexivity|]. split; [vm_compute; reflexivity|].
  rewrite H3, H2. split; vm_compute; reflexivity.
Defined.
